(** * kagent / claude_memory: the memory retrieval engine

    A shallow embedding of
      - [claude_memory/models/memory.py]        (Memory, MemoryQuery, MemoryResult),
      - [claude_memory/storage/vector_store.py] (VectorStore: the search index),
      - [claude_memory/storage/file_store.py]   (FileStore: the durable store),
      - the index-sync loop of [awaken] in [correctly_fix_memory_manager.py],
      - the engine's [delete], whose source ([core/memory_manager.py]) is not
        among the sources: it is modelled from the specification,
    and the properties of scoring, ranking, enumeration and index consistency.

    Conventions of the embedding.
      - Python [float] is modelled by exact rationals [Q]; a [datetime] by an
        integer time stamp [Z].
      - Python [str] is modelled by [string] (a sequence of 8-bit characters);
        [str.lower] acts on [A-Z], [str.split] on ASCII white space.
      - [Memory.content] and the values of [Memory.context] have type [Any] in
        the source.  The search index uses them through [str(...)] only; the
        file store writes them with [json.dump] and reads them back.  A
        [PyValue] keeps what the two observe: the text [str(value)] and what
        the JSON round trip makes of the value.
      - The file store builds the path of a record file from the identifier,
        [memory_dir / f"{memory.id}.json"].  The model follows the path for
        identifiers that are plain file names ([plain_id]); an identifier
        with a separator names a file elsewhere, outside the directories
        modelled here.
      - [_memory_cache] is a Python dict that is iterated: it is an association
        list in insertion order.  [_memory_embeddings] is only looked up: it is
        a [gmap].
      - Exceptions are values of [Exn]; a computation that can raise returns
        a [Result]. *)

From Stdlib Require Import ZArith QArith Qminmax Qabs Lqa Lia Bool List Ascii String.
From Stdlib Require Import Sorted Permutation.
From stdpp Require Import base option list gmap strings.
Import ListNotations.

#[local] Set Warnings "-clear-no-such-hyp,-register-all".

Local Open Scope Z_scope.
Local Open Scope Q_scope.

(** ** Text primitives *)

Module Text.

(** [c.lower()] on one 8-bit character. *)
Definition lower_ascii (c : ascii) : ascii :=
  let n := nat_of_ascii c in
  if (Nat.leb 65 n && Nat.leb n 90)%bool then ascii_of_nat (n + 32) else c.

(** [s.lower()] *)
Fixpoint lower (s : string) : string :=
  match s with
  | EmptyString => EmptyString
  | String c r => String (lower_ascii c) (lower r)
  end.

(** The characters [str.split()] treats as separators:
    TAB, LF, VT, FF, CR, FS, GS, RS, US and SPACE. *)
Definition is_space (c : ascii) : bool :=
  let n := nat_of_ascii c in
  ((Nat.leb 9 n && Nat.leb n 13) || (Nat.leb 28 n && Nat.leb n 32))%bool.

(** [s.startswith(p)] *)
Fixpoint startswith (p s : string) : bool :=
  match p, s with
  | EmptyString, _ => true
  | String _ _, EmptyString => false
  | String a p', String b s' => if Ascii.eqb a b then startswith p' s' else false
  end.

(** [s.find(q)]: the index of the first occurrence, [None] for Python's -1. *)
Fixpoint find (q s : string) : option nat :=
  if startswith q s then Some O
  else match s with
       | EmptyString => None
       | String _ r => option_map S (find q r)
       end.

(** [q in s] *)
Definition contains (q s : string) : bool :=
  match find q s with Some _ => true | None => false end.

(** [s.split()]: maximal runs of non-separator characters.  [cur] is the
    word being read, held in reverse. *)
Fixpoint split_aux (cur : list ascii) (s : string) : list string :=
  let flush := match cur with
               | [] => []
               | _ => [string_of_list_ascii (rev cur)]
               end in
  match s with
  | EmptyString => flush
  | String c r =>
      if is_space c then flush ++ split_aux [] r
      else split_aux (c :: cur) r
  end.

Definition split (s : string) : list string := split_aux [] s.

(** [sep.join(l)] *)
Fixpoint join (sep : string) (l : list string) : string :=
  match l with
  | [] => EmptyString
  | [x] => x
  | x :: r => String.append x (String.append sep (join sep r))
  end.

(** [s[a:b]] for [0 <= a], [0 <= b]. *)
Definition slice (a b : nat) (s : string) : string :=
  String.substring a (b - a) s.

End Text.

(** ** Exceptions *)

(** A Python exception: its class name and its message. *)
Record Exn := mkExn { exn_class : string; exn_msg : string }.

Inductive Result (A : Type) : Type :=
| Ok (a : A)
| Raise (e : Exn).
Arguments Ok {A} a.
Arguments Raise {A} e.

(** ** models/memory.py *)

Inductive MemoryType := WORKING | SEMANTIC | EPISODIC | PROCEDURAL.
Inductive MemoryScope := GLOBAL | PROJECT.
Inductive MemoryLocation :=
  ENTRANCE_HALL | KNOWLEDGE_WING | CAPABILITY_WING | EXPERIENCE_WING | MEMORY_GARDEN.

#[global] Instance MemoryType_eq_dec : EqDecision MemoryType.
Proof. solve_decision. Defined.
#[global] Instance MemoryScope_eq_dec : EqDecision MemoryScope.
Proof. solve_decision. Defined.
#[global] Instance MemoryLocation_eq_dec : EqDecision MemoryLocation.
Proof. solve_decision. Defined.

(** [for memory_type in MemoryType]: the members in definition order. *)
Definition all_memory_types : list MemoryType :=
  [WORKING; SEMANTIC; EPISODIC; PROCEDURAL].

(** An embedding vector ([np.ndarray] of floats). *)
Definition Embedding := list Q.

(** A value of type [Any], by what the program observes of it: the text
    [str(value)], and what [json.dump(..., default=str)] followed by
    [json.load] makes of it. *)
Inductive PyValue :=
| PyStr (s : string)
    (* a [str] *)
| PyJson (text : string)
    (* another value that JSON represents exactly (a number, a bool, [None],
       a list or a [str]-keyed dict of such); [text] is [str(value)] *)
| PyObject (text : string) (reloaded : Result PyValue).
    (* any other value (a tuple, a set, a dict with other keys, ...):
       [text] is [str(value)]; [reloaded] is the value read back after
       [json.dump], or the exception [json.dump] raises on it *)

(** [str(value)] *)
Definition py_str (v : PyValue) : string :=
  match v with
  | PyStr s => s
  | PyJson text => text
  | PyObject text _ => text
  end.

(** [json.load] of what [json.dump(value, default=str)] wrote. *)
Definition json_roundtrip (v : PyValue) : Result PyValue :=
  match v with
  | PyStr s => Ok (PyStr s)
  | PyJson text => Ok (PyJson text)
  | PyObject _ reloaded => reloaded
  end.

Record Memory := mkMemory {
  id : string;
  title : string;
  content_value : PyValue;               (* content: Any *)
  memory_type : MemoryType;
  scope : MemoryScope;
  location : MemoryLocation;
  tags : list string;
  importance : Q;                        (* Field(ge=0.0, le=10.0) *)
  created_at : Z;
  last_accessed : Z;
  updated_at : option Z;
  access_count : Z;
  success_rate : Q;
  relations : list string;
  dependencies : list string;
  context_items : list (string * PyValue);   (* context: Dict[str, Any] *)
  embedding : option Embedding;
  file_path : option string;
  content_hash : option string
}.

(** [str(memory.content)] *)
Definition content (m : Memory) : string := py_str (content_value m).

(** [memory.context.items()], each value as [str(value)]. *)
Definition context (m : Memory) : list (string * string) :=
  map (fun kv => (kv.1, py_str kv.2)) (context_items m).

Record MemoryQuery := mkQuery {
  query : string;
  memory_types : option (list MemoryType);
  scopes : option (list MemoryScope);
  locations : option (list MemoryLocation);
  query_tags : option (list string);     (* MemoryQuery.tags *)
  max_results : Z;                       (* Field(ge=1, le=50) *)
  min_relevance : Q;                     (* Field(ge=0.0, le=1.0) *)
  include_context : bool;
  sort_by : string;
  include_archived : bool
}.

Record MemoryResult := mkResult {
  memory : Memory;
  relevance_score : Q;                   (* Field(ge=0.0, le=1.0) *)
  match_reasons : list string;
  context_snippet : option string
}.

(** The field constraints pydantic checks when a [Memory] is constructed. *)
Definition valid_memory (m : Memory) : Prop :=
  0 <= importance m /\ importance m <= 10.

(** The [Memory] constructor on loaded data: pydantic rejects an importance
    outside [0, 10] and a success rate outside [0, 1] with a
    ValidationError. *)
Definition new_Memory (data : Memory) : Result Memory :=
  if (Qle_bool 0 (importance data) && Qle_bool (importance data) 10
      && Qle_bool 0 (success_rate data) && Qle_bool (success_rate data) 1)%bool
  then Ok data
  else Raise (mkExn "ValidationError" "Memory").

(** [json.load] of what [json.dump(memory.dict(), default=str)] wrote: the
    typed fields come back as they are, [content] and the values of
    [context] as their JSON round trip; [json.dump] raises on the first
    value it cannot write. *)
Fixpoint json_items (items : list (string * PyValue)) : Result (list (string * PyValue)) :=
  match items with
  | [] => Ok []
  | (key, value) :: rest =>
      match json_roundtrip value with
      | Raise e => Raise e
      | Ok value' =>
          match json_items rest with
          | Raise e => Raise e
          | Ok rest' => Ok ((key, value') :: rest')
          end
      end
  end.

Definition json_data (m : Memory) : Result Memory :=
  match json_roundtrip (content_value m) with
  | Raise e => Raise e
  | Ok content' =>
      match json_items (context_items m) with
      | Raise e => Raise e
      | Ok items' =>
          Ok (mkMemory (id m) (title m) content' (memory_type m) (scope m) (location m)
                (tags m) (importance m) (created_at m) (last_accessed m) (updated_at m)
                (access_count m) (success_rate m) (relations m) (dependencies m)
                items' (embedding m) (file_path m) (content_hash m))
      end
  end.

(** The field constraints pydantic checks when a [MemoryQuery] is constructed. *)
Definition valid_query (q : MemoryQuery) : Prop :=
  (1 <= max_results q <= 50)%Z /\ 0 <= min_relevance q /\ min_relevance q <= 1.

(** [MemoryResult(memory=..., relevance_score=..., ...)]: pydantic rejects a
    relevance score outside [0, 1] with a ValidationError. *)
Definition new_MemoryResult (m : Memory) (rel : Q) (reasons : list string)
    (snippet : option string) : Result MemoryResult :=
  if (Qle_bool 0 rel && Qle_bool rel 1)%bool
  then Ok (mkResult m rel reasons snippet)
  else Raise (mkExn "ValidationError" "relevance_score").

(** Truthiness of an [Optional[List]] filter: [None] and [[]] are falsy. *)
Definition truthy {A} (f : option (list A)) : bool :=
  match f with
  | Some (_ :: _) => true
  | _ => false
  end.

Definition filter_items {A} (f : option (list A)) : list A :=
  match f with Some l => l | None => [] end.

(** [x in l] on a Python list. *)
Definition py_in {A} `{EqDecision A} (x : A) (l : list A) : bool :=
  bool_decide (x ∈ l).

(** ** storage/vector_store.py: the search index *)

(** The sentence-transformer handle [self._model]; [encode] returns [None]
    where the Python call raises. *)
Record SentenceModel := mkModel { encode : string -> option Embedding }.

(** The state of a [VectorStore] object. *)
Record VectorStore := mkVectorStore {
  _memory_embeddings : gmap string Embedding;   (* memory_id -> embedding *)
  _memory_cache : list (string * Memory);       (* memory_id -> memory, in insertion order *)
  _model : option SentenceModel
}.

(** [VectorStore.__init__] *)
Definition VectorStore_init (model : option SentenceModel) : VectorStore :=
  mkVectorStore ∅ [] model.

(** [memory_id in d] and [d[memory_id]] on the insertion-ordered dict. *)
Fixpoint cache_get (k : string) (d : list (string * Memory)) : option Memory :=
  match d with
  | [] => None
  | (k', v) :: r => if String.eqb k k' then Some v else cache_get k r
  end.

Definition cache_mem (k : string) (d : list (string * Memory)) : bool :=
  match cache_get k d with Some _ => true | None => false end.

(** [d[memory_id] = memory]: an existing key keeps its position, a new key is
    appended. *)
Fixpoint cache_set (k : string) (v : Memory) (d : list (string * Memory))
  : list (string * Memory) :=
  match d with
  | [] => [(k, v)]
  | (k', v') :: r =>
      if String.eqb k k' then (k, v) :: r else (k', v') :: cache_set k v r
  end.

Section Index.

(** [cosine_similarity] of scikit-learn, or [fallback_cosine_similarity]
    when scikit-learn is not installed; [None] where the call raises. *)
Variable cosine_similarity : Embedding -> Embedding -> option Q.

(** [get_embedding_via_api]: the remote provider as it answers during one
    call of the index; [None] for a failed request. *)
Variable get_embedding_via_api : string -> option Embedding.

(** [VectorStore._generate_embedding] *)
Definition _generate_embedding (self : VectorStore) (m : Memory) : option Embedding :=
  let text_content :=
    String.append (title m) (String.append " "
      (String.append (content m) (String.append " " (Text.join " " (tags m))))) in
  let local :=
    match _model self with
    | Some model => encode model text_content
    | None => None
    end in
  match local with
  | Some embedding => Some embedding
  | None =>
      match get_embedding_via_api text_content with
      | Some api_embedding => Some api_embedding
      | None => None
      end
  end.

(** [self._memory_cache[memory.id] = memory] *)
Definition cache_write (self : VectorStore) (m : Memory) : VectorStore :=
  mkVectorStore (_memory_embeddings self)
                (cache_set (id m) m (_memory_cache self)) (_model self).

(** [self._memory_embeddings[memory.id] = embedding] *)
Definition embedding_write (self : VectorStore) (m : Memory) (embedding : Embedding)
  : VectorStore :=
  mkVectorStore (<[id m := embedding]> (_memory_embeddings self))
                (_memory_cache self) (_model self).

(** [VectorStore.store_memory]: the cache first, then the embedding when
    one could be generated. *)
Definition store_memory (self : VectorStore) (m : Memory) : VectorStore :=
  let self := cache_write self m in
  match _generate_embedding self m with
  | Some embedding => embedding_write self m embedding
  | None => self
  end.

(** The tag loop of [_calculate_keyword_relevance]: the first matching tag
    adds 0.2 and ends the loop. *)
Fixpoint tag_loop (query_lower : string) (ts : list string) (score : Q) : Q :=
  match ts with
  | [] => score
  | tag :: r =>
      if Text.contains query_lower (Text.lower tag) then score + (2 # 10)
      else tag_loop query_lower r score
  end.

(** The context loop: the first matching value adds 0.1 and ends the loop. *)
Fixpoint context_loop (query_lower : string) (items : list (string * string))
    (score : Q) : Q :=
  match items with
  | [] => score
  | (_, value) :: r =>
      if Text.contains query_lower (Text.lower value) then score + (1 # 10)
      else context_loop query_lower r score
  end.

(** [set(s.split())] *)
Definition word_set (s : string) : gset string := list_to_set (Text.split s).

(** [len(a & b) / max(len(a), 1)] *)
Definition overlap (a b : gset string) : Q :=
  inject_Z (Z.of_nat (size (a ∩ b))) / inject_Z (Z.max (Z.of_nat (size a)) 1).

(** [min(1.0, x)] *)
Definition min1 (x : Q) : Q := if Qlt_le_dec x 1 then x else 1.

(** [VectorStore._calculate_keyword_relevance] *)
Definition _calculate_keyword_relevance (m : Memory) (q : MemoryQuery) : Q :=
  let score := 0 in
  let query_lower := Text.lower (query q) in
  let score :=
    if Text.contains query_lower (Text.lower (title m)) then score + (4 # 10) else score in
  let content_str := Text.lower (content m) in
  let score :=
    if Text.contains query_lower content_str then score + (3 # 10) else score in
  let score := tag_loop query_lower (tags m) score in
  let score := context_loop query_lower (context m) score in
  let query_words := word_set query_lower in
  let title_words := word_set (Text.lower (title m)) in
  let content_words := word_set content_str in
  let title_overlap := overlap query_words title_words in
  let content_overlap := overlap query_words content_words in
  let score := score + title_overlap * (1 # 10) in
  let score := score + content_overlap * (5 # 100) in
  min1 score.

(** [VectorStore._calculate_relevance] *)
Definition _calculate_relevance (self : VectorStore) (m : Memory) (q : MemoryQuery)
    (query_embedding : option Embedding) : Q :=
  let relevance_score := 0 in
  let relevance_score :=
    match query_embedding, _memory_embeddings self !! id m with
    | Some qe, Some memory_embedding =>
        match cosine_similarity qe memory_embedding with
        | Some semantic_similarity => relevance_score + semantic_similarity * (7 # 10)
        | None => relevance_score
        end
    | _, _ => relevance_score
    end in
  let keyword_score := _calculate_keyword_relevance m q in
  let relevance_score := relevance_score + keyword_score * (3 # 10) in
  let importance_bonus := (importance m / 10) * (1 # 10) in
  let relevance_score := relevance_score + importance_bonus in
  min1 relevance_score.

(** The tag loop of [_get_match_reasons]. *)
Fixpoint tag_reason_loop (query_lower : string) (ts : list string)
    (reasons : list string) : list string :=
  match ts with
  | [] => reasons
  | tag :: r =>
      if Text.contains query_lower (Text.lower tag)
      then reasons ++ [String.append "Tag match: " tag]
      else tag_reason_loop query_lower r reasons
  end.

(** [VectorStore._get_match_reasons] *)
Definition _get_match_reasons (self : VectorStore) (m : Memory) (q : MemoryQuery)
  : list string :=
  let reasons := [] in
  let query_lower := Text.lower (query q) in
  let reasons :=
    if Text.contains query_lower (Text.lower (title m))
    then reasons ++ ["Title match"] else reasons in
  let reasons :=
    if Text.contains query_lower (Text.lower (content m))
    then reasons ++ ["Content match"] else reasons in
  let reasons := tag_reason_loop query_lower (tags m) reasons in
  let reasons :=
    if Qlt_le_dec 7 (importance m) then reasons ++ ["High importance"] else reasons in
  let reasons :=
    match _model self, _memory_embeddings self !! id m with
    | Some _, Some _ => reasons ++ ["Semantic similarity"]
    | _, _ => reasons
    end in
  reasons.

(** [VectorStore._get_context_snippet] *)
Definition _get_context_snippet (m : Memory) (q : MemoryQuery) : option string :=
  if negb (include_context q) then None
  else
    let content_str := content m in
    let query_lower := Text.lower (query q) in
    let content_lower := Text.lower content_str in
    match Text.find query_lower content_lower with
    | Some pos =>
        let start := (pos - 50)%nat in
        let stop := Nat.min (String.length content_str)
                            (pos + String.length (query q) + 50) in
        let snippet := Text.slice start stop content_str in
        let snippet :=
          if Nat.ltb 0 start then String.append "..." snippet else snippet in
        let snippet :=
          if Nat.ltb stop (String.length content_str)
          then String.append snippet "..." else snippet in
        Some snippet
    | None =>
        if Nat.ltb 100 (String.length content_str)
        then Some (String.append (Text.slice 0 100 content_str) "...")
        else Some content_str
    end.

(** The query embedding of [search_memories]: the local model first, then
    the remote provider. *)
Definition query_embedding_of (self : VectorStore) (q : MemoryQuery) : option Embedding :=
  let local :=
    match _model self with
    | Some model => encode model (query q)
    | None => None
    end in
  match local with
  | Some e => Some e
  | None => get_embedding_via_api (query q)
  end.

(** [any(tag in memory.tags for tag in query.tags)] *)
Definition any_tag_in (qtags mtags : list string) : bool :=
  existsb (fun tag => py_in tag mtags) qtags.

(** The body of the scan loop of [search_memories] for one cache entry:
    [None] when the entry is skipped, a result (or the exception of the
    [MemoryResult] constructor) when it passes threshold and filters. *)
Definition scan_entry (self : VectorStore) (q : MemoryQuery)
    (query_embedding : option Embedding) (m : Memory)
  : option (Result MemoryResult) :=
  let relevance := _calculate_relevance self m q query_embedding in
  if Qle_bool (min_relevance q) relevance then
    if (truthy (memory_types q)
        && negb (py_in (memory_type m) (filter_items (memory_types q))))%bool
    then None
    else if (truthy (scopes q)
             && negb (py_in (scope m) (filter_items (scopes q))))%bool
    then None
    else if (truthy (query_tags q)
             && negb (any_tag_in (filter_items (query_tags q)) (tags m)))%bool
    then None
    else Some (new_MemoryResult m relevance
                 (_get_match_reasons self m q) (_get_context_snippet m q))
  else None.

(** [for memory_id, memory in self._memory_cache.items(): ...] *)
Fixpoint scan (self : VectorStore) (q : MemoryQuery)
    (query_embedding : option Embedding) (items : list (string * Memory))
    (results : list MemoryResult) : Result (list MemoryResult) :=
  match items with
  | [] => Ok results
  | (_, m) :: rest =>
      match scan_entry self q query_embedding m with
      | None => scan self q query_embedding rest results
      | Some (Ok r) => scan self q query_embedding rest (results ++ [r])
      | Some (Raise e) => Raise e
      end
  end.

(** [results.sort(key=lambda r: r.relevance_score, reverse=True)]: Python's
    sort is stable, also with [reverse=True]: of two results with the same
    score the one that came first stays first. *)
Fixpoint insert_by_score (r : MemoryResult) (l : list MemoryResult) : list MemoryResult :=
  match l with
  | [] => [r]
  | x :: t =>
      if Qle_bool (relevance_score x) (relevance_score r)
      then r :: x :: t
      else x :: insert_by_score r t
  end.

Definition sort_by_relevance (l : list MemoryResult) : list MemoryResult :=
  foldr insert_by_score [] l.

(** [l[:n]] for a Python int [n]: a negative [n] counts from the end. *)
Definition slice_to {A} (n : Z) (l : list A) : list A :=
  if (0 <=? n)%Z then firstn (Z.to_nat n) l
  else firstn (length l - Z.to_nat (- n)) l.

(** [VectorStore.search_memories]: every exception is caught and turned
    into an empty result list. *)
Definition search_memories (self : VectorStore) (q : MemoryQuery) : list MemoryResult :=
  match _memory_cache self with
  | [] => []
  | _ =>
      let query_embedding := query_embedding_of self q in
      match scan self q query_embedding (_memory_cache self) [] with
      | Ok results => slice_to (max_results q) (sort_by_relevance results)
      | Raise _ => []
      end
  end.

End Index.

(** ** core/config.py: storage paths *)

Record MemoryConfig := mkConfig {
  global_memory_path : string;
  project_memory_path : option string
}.

(** [MemoryScope.value] *)
Definition scope_value (s : MemoryScope) : string :=
  match s with GLOBAL => "global" | PROJECT => "project" end.

(** [MemoryConfig.get_storage_path] *)
Definition get_storage_path (config : MemoryConfig) (scope_name : string) : string :=
  if String.eqb scope_name "global" then global_memory_path config
  else match String.eqb scope_name "project", project_memory_path config with
       | true, Some p => p
       | _, _ => global_memory_path config
       end.

(** ** The file system under the storage paths *)

(** An identifier that is a plain file name: it has no path separator (of
    POSIX paths) and no NUL character, so that [f"{memory_id}.json"] is one
    path component. *)
Definition plain_id (memory_id : string) : bool :=
  forallb (fun c => negb (Ascii.eqb c "/" || Ascii.eqb c "000")%bool)
          (list_ascii_of_string memory_id).

(** [base / scope.value / memory_type.value / f"{memory_id}.json"] *)
Record FilePath := mkPath {
  path_base : string;
  path_scope : MemoryScope;
  path_type : MemoryType;
  path_stem : string
}.

#[global] Instance FilePath_eq_dec : EqDecision FilePath.
Proof. solve_decision. Defined.

(** Directories the store tests with [exists()]. *)
Inductive Dir :=
| BaseDir (base : string)
| ScopeDir (base : string) (s : MemoryScope)
| TypeDir (base : string) (s : MemoryScope) (t : MemoryType)
| MetaDir (base : string) (s : MemoryScope).

#[global] Instance Dir_eq_dec : EqDecision Dir.
Proof. solve_decision. Defined.

(** What reading a memory file gives: the data the [Memory] constructor
    accepts, with the [stored_at] stamp; or the exception that [open],
    [json.load] or the [Memory] constructor raises on it. *)
Inductive FileContent :=
| MemoryJson (m : Memory) (stored_at : Z)
| Unreadable (e : Exn).

(** A file that was opened for writing and not, or not completely,
    written: [json.load] raises on it (with a message that depends on how
    much was written; nothing here depends on the message). *)
Definition truncated : FileContent :=
  Unreadable (mkExn "JSONDecodeError" "Expecting value").

(** One entry of the lookup index [_metadata/index.json]. *)
Record IndexEntry := mkIndexEntry {
  ix_type : MemoryType;
  ix_title : string;
  ix_tags : list string;
  ix_importance : Q;
  ix_created_at : Z;
  ix_last_accessed : Z
}.

Inductive IndexFile :=
| IndexJson (entries : gmap string IndexEntry)
| IndexUnreadable (e : Exn).

(** The operations that can fail for reasons outside the program (a full or
    read-only disk, missing permissions): opening a memory file for
    writing, writing the JSON text into the open file, removing a file,
    rewriting a lookup index. *)
Inductive IoOp :=
| OpenFile (p : FilePath)
| DumpFile (p : FilePath)
| UnlinkFile (p : FilePath)
| WriteIndex (base : string) (s : MemoryScope).

Record Disk := mkDisk {
  dirs : list Dir;
  files : list (FilePath * FileContent);          (* in directory (glob) order *)
  index_files : list (string * MemoryScope * IndexFile);
  io_fault : IoOp -> option Exn
}.

Inductive Level := DEBUG | INFO | WARNING | ERROR.

(** A log record: level, what it is about (an identifier or a file), and the
    exception it reports. *)
Record LogRecord := mkLog { level : Level; about : string; cause : option Exn }.

(** Computations of the file store: they read and change the disk, write to
    the log and may raise. *)
Definition IO (A : Type) : Type := Disk -> Result A * Disk * list LogRecord.

Definition ret {A} (a : A) : IO A := fun d => (Ok a, d, []).

Definition raise {A} (e : Exn) : IO A := fun d => (Raise e, d, []).

Definition bind {A B} (c : IO A) (k : A -> IO B) : IO B :=
  fun d =>
    match c d with
    | (Ok a, d1, l1) => let '(r, d2, l2) := k a d1 in (r, d2, l1 ++ l2)
    | (Raise e, d1, l1) => (Raise e, d1, l1)
    end.

(** [try: c  except Exception as e: h e] *)
Definition try_except {A} (c : IO A) (h : Exn -> IO A) : IO A :=
  fun d =>
    match c d with
    | (Ok a, d1, l1) => (Ok a, d1, l1)
    | (Raise e, d1, l1) => let '(r, d2, l2) := h e d1 in (r, d2, l1 ++ l2)
    end.

Definition logger (lvl : Level) (what : string) (e : option Exn) : IO unit :=
  fun d => (Ok tt, d, [mkLog lvl what e]).

Definition get_disk : IO Disk := fun d => (Ok d, d, []).

Declare Scope io_scope.
Delimit Scope io_scope with io.
Notation "x <- c ;; k" := (bind c (fun x => k))
  (at level 100, c at next level, right associativity) : io_scope.
Notation "c ;;; k" := (bind c (fun _ => k))
  (at level 100, right associativity) : io_scope.

(** [Path.exists()] *)
Definition dir_exists (d : Disk) (x : Dir) : bool := bool_decide (x ∈ dirs d).

Fixpoint file_get (p : FilePath) (l : list (FilePath * FileContent)) : option FileContent :=
  match l with
  | [] => None
  | (p', c) :: r => if bool_decide (p = p') then Some c else file_get p r
  end.

Definition file_exists (d : Disk) (p : FilePath) : bool :=
  match file_get p (files d) with Some _ => true | None => false end.

Fixpoint file_set (p : FilePath) (c : FileContent) (l : list (FilePath * FileContent))
  : list (FilePath * FileContent) :=
  match l with
  | [] => [(p, c)]
  | (p', c') :: r =>
      if bool_decide (p = p') then (p, c) :: r else (p', c') :: file_set p c r
  end.

Definition file_remove (p : FilePath) (l : list (FilePath * FileContent))
  : list (FilePath * FileContent) :=
  filter (fun e => p ≠ e.1) l.

(** [open(memory_file, 'w')]: fails on an outside fault or when the
    directory is missing, and then leaves the disk as it was; otherwise it
    creates the file, or empties the one that is there. *)
Definition open_for_writing (p : FilePath) : IO unit :=
  fun d =>
    match io_fault d (OpenFile p) with
    | Some e => (Raise e, d, [])
    | None =>
        if dir_exists d (TypeDir (path_base p) (path_scope p) (path_type p))
        then (Ok tt,
              mkDisk (dirs d) (file_set p truncated (files d)) (index_files d) (io_fault d),
              [])
        else (Raise (mkExn "FileNotFoundError" (path_stem p)), d, [])
    end.

(** What reading the file gives once [json.dump] has written [data] and
    the stamp: the data, when the [Memory] constructor accepts it;
    otherwise the ValidationError it raises. *)
Definition written (data : Memory) (now : Z) : FileContent :=
  match new_Memory data with
  | Ok m => MemoryJson m now
  | Raise e => Unreadable e
  end.

(** [memory_data = memory.dict()], [memory_data["stored_at"] = ...] and
    [json.dump(memory_data, f, ..., default=str)] into the open file: fails
    on a value JSON cannot write or on an outside fault, and then leaves
    the file as [open] made it, empty or partly written. *)
Definition json_dump (p : FilePath) (m : Memory) (now : Z) : IO unit :=
  fun d =>
    match json_data m with
    | Raise e => (Raise e, d, [])
    | Ok data =>
        match io_fault d (DumpFile p) with
        | Some e => (Raise e, d, [])
        | None =>
            (Ok tt,
             mkDisk (dirs d) (file_set p (written data now) (files d)) (index_files d)
               (io_fault d),
             [])
        end
    end.

(** [with open(memory_file, 'w', ...) as f: json.dump(memory_data, f, ...)] *)
Definition write_file (p : FilePath) (m : Memory) (now : Z) : IO unit :=
  bind (open_for_writing p) (fun _ => json_dump p m now).

(** The disk after [open(p, 'w')]: the file at [p] is empty. *)
Definition opened (p : FilePath) (d : Disk) : Disk :=
  mkDisk (dirs d) (file_set p truncated (files d)) (index_files d) (io_fault d).

(** The disk after a completed write of [data] to [p]. *)
Definition dumped (p : FilePath) (data : Memory) (now : Z) (d : Disk) : Disk :=
  mkDisk (dirs d) (file_set p (written data now) (files d)) (index_files d) (io_fault d).

(** [memory_file.unlink()] *)
Definition unlink (p : FilePath) : IO unit :=
  fun d =>
    match io_fault d (UnlinkFile p) with
    | Some e => (Raise e, d, [])
    | None =>
        if file_exists d p
        then (Ok tt, mkDisk (dirs d) (file_remove p (files d)) (index_files d) (io_fault d), [])
        else (Raise (mkExn "FileNotFoundError" (path_stem p)), d, [])
    end.

(** [open(memory_file)], [json.load], [memory_data.pop("stored_at")] and
    the [Memory] constructor: the record, or the exception raised. *)
Definition parse (d : Disk) (p : FilePath) : Result Memory :=
  match file_get p (files d) with
  | Some (MemoryJson m _) => Ok m
  | Some (Unreadable e) => Raise e
  | None => Raise (mkExn "FileNotFoundError" (path_stem p))
  end.

Definition read_memory (p : FilePath) : IO Memory := fun d => (parse d p, d, []).

Fixpoint index_get (base : string) (s : MemoryScope)
    (l : list (string * MemoryScope * IndexFile)) : option IndexFile :=
  match l with
  | [] => None
  | (b, s', ix) :: r =>
      if bool_decide (base = b /\ s = s') then Some ix else index_get base s r
  end.

Fixpoint index_set (base : string) (s : MemoryScope) (ix : IndexFile)
    (l : list (string * MemoryScope * IndexFile))
  : list (string * MemoryScope * IndexFile) :=
  match l with
  | [] => [(base, s, ix)]
  | (b, s', ix') :: r =>
      if bool_decide (base = b /\ s = s') then (base, s, ix) :: r
      else (b, s', ix') :: index_set base s ix r
  end.

(** [open(index_file)] and [json.load] *)
Definition read_index (base : string) (s : MemoryScope) : IO (gmap string IndexEntry) :=
  fun d =>
    match index_get base s (index_files d) with
    | Some (IndexJson ix) => (Ok ix, d, [])
    | Some (IndexUnreadable e) => (Raise e, d, [])
    | None => (Raise (mkExn "FileNotFoundError" "index.json"), d, [])
    end.

(** [open(index_file, 'w')] and [json.dump]; the fault is that of [open],
    which leaves the file as it was. *)
Definition write_index (base : string) (s : MemoryScope) (ix : gmap string IndexEntry)
  : IO unit :=
  fun d =>
    match io_fault d (WriteIndex base s) with
    | Some e => (Raise e, d, [])
    | None =>
        if dir_exists d (MetaDir base s)
        then (Ok tt, mkDisk (dirs d) (files d)
                       (index_set base s (IndexJson ix) (index_files d)) (io_fault d), [])
        else (Raise (mkExn "FileNotFoundError" "index.json"), d, [])
    end.

(** A loop whose body may [return]: the first iteration that returns ends it. *)
Fixpoint for_first {A B} (l : list A) (body : A -> option B) : option B :=
  match l with
  | [] => None
  | x :: r =>
      match body x with
      | Some b => Some b
      | None => for_first r body
      end
  end.

(** [type_dir.glob("*.json")]: the entries of one type directory, in
    directory order. *)
Definition glob (d : Disk) (base : string) (s : MemoryScope) (t : MemoryType)
  : list (FilePath * FileContent) :=
  filter (fun e => path_base e.1 = base /\ path_scope e.1 = s /\ path_type e.1 = t) (files d).

(** ** storage/file_store.py: the durable store *)

Module FileStore.

Local Open Scope io_scope.

Section Store.

Variable config : MemoryConfig.

(** [base_path / scope.value / memory_type.value / f"{memory_id}.json"].
    For a plain identifier this is the file of that name in the type
    directory; what the path of another identifier resolves to lies
    outside this model, and statements that depend on where the file is
    assume [plain_id]. *)
Definition memory_file (s : MemoryScope) (t : MemoryType) (memory_id : string)
  : FilePath :=
  mkPath (get_storage_path config (scope_value s)) s t memory_id.

(** [FileStore._update_index]: failures are logged, not raised. *)
Definition _update_index (m : Memory) : IO unit :=
  try_except
    (let base_path := get_storage_path config (scope_value (scope m)) in
     d <- get_disk ;;
     index <- match index_get base_path (scope m) (index_files d) with
              | Some _ => read_index base_path (scope m)
              | None => ret ∅
              end ;;
     let index :=
       <[id m := mkIndexEntry (memory_type m) (title m) (tags m) (importance m)
                   (created_at m) (last_accessed m)]> index in
     write_index base_path (scope m) index)
    (fun e => logger WARNING "index" (Some e)).

(** [FileStore.store_memory]; [now] is [datetime.now()]. *)
Definition store_memory (now : Z) (m : Memory) : IO unit :=
  try_except
    (let memory_file := memory_file (scope m) (memory_type m) (id m) in
     write_file memory_file m now ;;;
     _update_index m ;;;
     logger DEBUG (id m) None)
    (fun e => logger ERROR (id m) (Some e) ;;; raise e).

(** The two nested loops of [load_memory] and of [delete_memory]: scopes
    in the order global, project; inside a scope every memory type; the
    first existing file ends both loops. *)
Definition locate (d : Disk) (memory_id : string) : option FilePath :=
  for_first [GLOBAL; PROJECT] (fun s =>
    let base_path := get_storage_path config (scope_value s) in
    if negb (dir_exists d (BaseDir base_path)) then None
    else for_first all_memory_types (fun t =>
           let memory_file := memory_file s t memory_id in
           if file_exists d memory_file then Some memory_file else None)).

(** [FileStore.load_memory] *)
Definition load_memory (memory_id : string) : IO (option Memory) :=
  try_except
    (d <- get_disk ;;
     match locate d memory_id with
     | Some memory_file => m <- read_memory memory_file ;; ret (Some m)
     | None => ret None
     end)
    (fun e => logger ERROR memory_id (Some e) ;;; ret None).

(** The loop of [_remove_from_index]. *)
Fixpoint remove_from_index_loop (memory_id : string) (ss : list MemoryScope) : IO unit :=
  match ss with
  | [] => ret tt
  | s :: rest =>
      let base_path := get_storage_path config (scope_value s) in
      d <- get_disk ;;
      match index_get base_path s (index_files d) with
      | None => remove_from_index_loop memory_id rest
      | Some _ =>
          index <- read_index base_path s ;;
          match index !! memory_id with
          | Some _ => write_index base_path s (delete memory_id index)
          | None => remove_from_index_loop memory_id rest
          end
      end
  end.

(** [FileStore._remove_from_index]: failures are logged, not raised. *)
Definition _remove_from_index (memory_id : string) : IO unit :=
  try_except
    (remove_from_index_loop memory_id [GLOBAL; PROJECT])
    (fun e => logger WARNING "index" (Some e)).

(** [FileStore.delete_memory] *)
Definition delete_memory (memory_id : string) : IO bool :=
  try_except
    (d <- get_disk ;;
     match locate d memory_id with
     | Some memory_file =>
         unlink memory_file ;;;
         _remove_from_index memory_id ;;;
         logger DEBUG memory_id None ;;;
         ret true
     | None => ret false
     end)
    (fun e => logger ERROR memory_id (Some e) ;;; ret false).

(** The innermost loop of [load_all_memories]: one [try] per file. *)
Fixpoint load_files (entries : list (FilePath * FileContent)) (memories : list Memory)
  : IO (list Memory) :=
  match entries with
  | [] => ret memories
  | (memory_file, _) :: rest =>
      memories <- try_except
                    (m <- read_memory memory_file ;; ret (memories ++ [m]))
                    (fun e => logger WARNING (path_stem memory_file) (Some e) ;;;
                              ret memories) ;;
      load_files rest memories
  end.

(** The loop over the memory types of one scope. *)
Fixpoint load_types (s : MemoryScope) (ts : list MemoryType) (memories : list Memory)
  : IO (list Memory) :=
  match ts with
  | [] => ret memories
  | t :: rest =>
      let base_path := get_storage_path config (scope_value s) in
      d <- get_disk ;;
      if negb (dir_exists d (TypeDir base_path s t)) then load_types s rest memories
      else
        memories <- load_files (glob d base_path s t) memories ;;
        load_types s rest memories
  end.

(** The loop over the scopes. *)
Fixpoint load_scopes (ss : list MemoryScope) (memories : list Memory)
  : IO (list Memory) :=
  match ss with
  | [] => ret memories
  | s :: rest =>
      let base_path := get_storage_path config (scope_value s) in
      d <- get_disk ;;
      if negb (dir_exists d (BaseDir base_path)) then load_scopes rest memories
      else if negb (dir_exists d (ScopeDir base_path s)) then load_scopes rest memories
      else
        memories <- load_types s all_memory_types memories ;;
        load_scopes rest memories
  end.

(** [FileStore.load_all_memories] *)
Definition load_all_memories : IO (list Memory) :=
  try_except
    (memories <- load_scopes [GLOBAL; PROJECT] [] ;;
     logger DEBUG "load_all_memories" None ;;;
     ret memories)
    (fun e => logger ERROR "load_all_memories" (Some e) ;;; ret []).

End Store.

End FileStore.

(** ** The memory manager: the index-sync loop of [awaken] *)

(** The two stores a [MemoryManager] owns. *)
Record MemoryManager := mkManager {
  _file_store : Disk;
  _vector_store : VectorStore
}.

(** [for memory in all_memories:
       if memory.id not in self._vector_store._memory_cache:
           self._vector_store.store_memory(memory); synced_count += 1] *)
Fixpoint sync_loop (api : string -> option Embedding) (vs : VectorStore)
    (all_memories : list Memory) (synced_count : Z) : VectorStore * Z :=
  match all_memories with
  | [] => (vs, synced_count)
  | m :: rest =>
      if negb (cache_mem (id m) (_memory_cache vs))
      then sync_loop api (store_memory api vs m) rest (synced_count + 1)%Z
      else sync_loop api vs rest synced_count
  end.

(** The part of [awaken] that loads every memory from the file store and
    syncs the vector store; it yields the manager and [synced_count]. *)
Definition awaken_sync (config : MemoryConfig) (api : string -> option Embedding)
    (self : MemoryManager) : Result (MemoryManager * Z) :=
  match FileStore.load_all_memories config (_file_store self) with
  | (Ok all_memories, d, _) =>
      let '(vs, synced_count) := sync_loop api (_vector_store self) all_memories 0%Z in
      Ok (mkManager d vs, synced_count)
  | (Raise e, _, _) => Raise e
  end.

(** ** The retrieval engine: delete *)

Module Engine.

(** Modelled from the spec: the state of the retrieval engine of
    [core/memory_manager.py], which is not among the sources: the Durable
    Store and the Search Index, and the deleted-set of the spec ("delete
    must also suppress re-indexing of tombstoned identifiers for the
    remainder of the session, e.g. via a short-lived deleted-set"). *)
Record State := mkState {
  stores : MemoryManager;
  deleted_set : list string
}.

(** Modelled from the spec: the Search Index operation
    [remove(identifier)], "evicts the cached entry"; the class
    [VectorStore] of [vector_store.py] has no method for it.  The cached
    entry is the record and its embedding. *)
Definition remove (memory_id : string) (self : VectorStore) : VectorStore :=
  mkVectorStore (base.delete memory_id (_memory_embeddings self))
                (filter (fun km => km.1 <> memory_id) (_memory_cache self))
                (_model self).

(** Modelled from the spec: the engine's [delete(identifier) -> bool],
    which "removes from Search Index first, then Durable Store"; the
    Durable Store's delete is [FileStore.delete_memory] of the sources,
    which "returns whether anything was removed". *)
Definition delete (config : MemoryConfig) (memory_id : string) (self : State)
  : Result bool * State :=
  let index := remove memory_id (_vector_store (stores self)) in
  let '(removed, d, _) :=
    FileStore.delete_memory config memory_id (_file_store (stores self)) in
  (removed, mkState (mkManager d index) (memory_id :: deleted_set self)).

(** Modelled from the spec: the engine's [query(q)], which "delegates to
    Search Index query; does not itself touch durable storage"; the Search
    Index query is [VectorStore.search_memories] of the sources. *)
Definition query (cos : Embedding -> Embedding -> option Q)
    (api : string -> option Embedding) (self : State) (q : MemoryQuery)
  : list MemoryResult :=
  search_memories cos api (_vector_store (stores self)) q.

End Engine.
(** * Specification-level definitions *)

(** ** Lexical score *)

Module LexicalSpec.

(** Case-insensitive substring test. *)
Definition ci_contains (q s : string) : bool :=
  Text.contains (Text.lower q) (Text.lower s).

Definition indicator (b : bool) (w : Q) : Q := if b then w else 0.

(** [|a ∩ b| / |a|], and 0 for an empty [a]. *)
Definition shared_ratio (a b : gset string) : Q :=
  if decide (size a = 0%nat) then 0
  else inject_Z (Z.of_nat (size (a ∩ b))) / inject_Z (Z.of_nat (size a)).

(** The lexical score as the specification words it: a sum of independent
    terms, capped at 1. *)
Definition lexical_score (m : Memory) (q : string) : Q :=
  let query_words := word_set (Text.lower q) in
  Qmin 1
    (indicator (ci_contains q (title m)) (4 # 10)
     + indicator (ci_contains q (content m)) (3 # 10)
     + indicator (existsb (ci_contains q) (tags m)) (2 # 10)
     + indicator (existsb (fun kv => ci_contains q kv.2) (context m)) (1 # 10)
     + shared_ratio query_words (word_set (Text.lower (title m))) * (1 # 10)
     + shared_ratio query_words (word_set (Text.lower (content m))) * (5 # 100)).

(** Two memory/query pairs whose texts differ at most in letter case. *)
Definition same_up_to_case (m : Memory) (q : MemoryQuery) (m' : Memory) (q' : MemoryQuery)
  : Prop :=
  Text.lower (query q') = Text.lower (query q)
  /\ Text.lower (title m') = Text.lower (title m)
  /\ Text.lower (content m') = Text.lower (content m)
  /\ map Text.lower (tags m') = map Text.lower (tags m)
  /\ map (fun kv => Text.lower kv.2) (context m') = map (fun kv => Text.lower kv.2) (context m).

End LexicalSpec.

(** ** Index consistency *)

(** A call on the search index, with the remote provider as it answers
    during that call. *)
Inductive IndexCall :=
| CallStore (api : string -> option Embedding) (m : Memory)
| CallSearch (api : string -> option Embedding) (q : MemoryQuery).

(** The state after a call, and what the call returns. *)
Definition run_call (cos : Embedding -> Embedding -> option Q) (vs : VectorStore)
    (c : IndexCall) : VectorStore * list MemoryResult :=
  match c with
  | CallStore api m => (store_memory api vs m, [])
  | CallSearch api q => (vs, search_memories cos api vs q)
  end.

Definition run_calls (cos : Embedding -> Embedding -> option Q) (vs : VectorStore)
    (cs : list IndexCall) : VectorStore :=
  fold_left (fun s c => (run_call cos s c).1) cs vs.

(** The key set of [_memory_cache]. *)
Definition cache_keys (vs : VectorStore) : gset string :=
  list_to_set (map fst (_memory_cache vs)).

(** Every cached record is cached under its own identifier, as
    [self._memory_cache[memory.id] = memory] makes it. *)
Definition keyed_by_id (vs : VectorStore) : Prop :=
  Forall (fun km => km.1 = id km.2) (_memory_cache vs).

(** Every identifier with a cached embedding has a cached record. *)
Definition embeddings_cached (vs : VectorStore) : Prop :=
  dom (_memory_embeddings vs) ⊆ cache_keys vs.

(** ** Enumeration of the durable store *)

(** The entries [load_all_memories] visits in one type directory, and in one
    scope: missing directories are passed over. *)
Definition visit_type (config : MemoryConfig) (d : Disk) (s : MemoryScope) (t : MemoryType)
  : list (FilePath * FileContent) :=
  let base_path := get_storage_path config (scope_value s) in
  if dir_exists d (TypeDir base_path s t) then glob d base_path s t else [].

Definition visit_scope (config : MemoryConfig) (d : Disk) (s : MemoryScope)
  : list (FilePath * FileContent) :=
  let base_path := get_storage_path config (scope_value s) in
  if (dir_exists d (BaseDir base_path) && dir_exists d (ScopeDir base_path s))%bool
  then flat_map (visit_type config d s) all_memory_types
  else [].

(** The directory entries [load_all_memories] visits, in the order it visits
    them: scopes global then project, memory types in definition order,
    files in directory order. *)
Definition enumerated (config : MemoryConfig) (d : Disk) : list (FilePath * FileContent) :=
  flat_map (visit_scope config d) [GLOBAL; PROJECT].

(** The record of an entry that deserialises. *)
Definition record_of (d : Disk) (e : FilePath * FileContent) : option Memory :=
  match parse d e.1 with Ok m => Some m | Raise _ => None end.

(** The warning logged for an entry that does not. *)
Definition warning_of (d : Disk) (e : FilePath * FileContent) : option LogRecord :=
  match parse d e.1 with
  | Ok _ => None
  | Raise ex => Some (mkLog WARNING (path_stem e.1) (Some ex))
  end.

Definition well_formed_records (config : MemoryConfig) (d : Disk) : list Memory :=
  omap (record_of d) (enumerated config d).

Definition skipped_warnings (config : MemoryConfig) (d : Disk) : list LogRecord :=
  omap (warning_of d) (enumerated config d).

(** A path the enumeration reaches: it lies under the storage path of its
    scope and its directories exist. *)
Definition visible (config : MemoryConfig) (d : Disk) (p : FilePath) : Prop :=
  path_base p = get_storage_path config (scope_value (path_scope p))
  /\ dir_exists d (BaseDir (path_base p)) = true
  /\ dir_exists d (ScopeDir (path_base p) (path_scope p)) = true
  /\ dir_exists d (TypeDir (path_base p) (path_scope p) (path_type p)) = true.

(** ** Relevance *)

(** The semantic similarity that enters the score: the cosine of the query
    embedding and the cached embedding when both exist and the computation
    does not raise, otherwise nothing (0). *)
Definition semantic_similarity_of (cos : Embedding -> Embedding -> option Q)
    (vs : VectorStore) (m : Memory) (query_embedding : option Embedding) : Q :=
  match query_embedding, _memory_embeddings vs !! id m with
  | Some qe, Some me => match cos qe me with Some s => s | None => 0 end
  | _, _ => 0
  end.

(** The weighted sum before the final [min(1.0, ...)]. *)
Definition weighted_sum (cos : Embedding -> Embedding -> option Q)
    (vs : VectorStore) (m : Memory) (q : MemoryQuery) (query_embedding : option Embedding) : Q :=
  (7 # 10) * semantic_similarity_of cos vs m query_embedding
  + (3 # 10) * _calculate_keyword_relevance m q
  + (importance m / 10) * (1 # 10).

(** The results with a given score, in list order. *)
Definition with_score (s : Q) (l : list MemoryResult) : list MemoryResult :=
  List.filter (fun r => Qeq_bool (relevance_score r) s) l.

(** Descending by relevance score. *)
Definition descending (l : list MemoryResult) : Prop :=
  StronglySorted (fun a b => relevance_score b <= relevance_score a) l.

(** The results of the scan loop written without an accumulator. *)
Fixpoint scanned (cos : Embedding -> Embedding -> option Q) (vs : VectorStore)
    (q : MemoryQuery) (qe : option Embedding) (items : list (string * Memory))
  : Result (list MemoryResult) :=
  match items with
  | [] => Ok []
  | (_, m) :: rest =>
      match scan_entry cos vs q qe m with
      | None => scanned cos vs q qe rest
      | Some (Raise e) => Raise e
      | Some (Ok r) =>
          match scanned cos vs q qe rest with
          | Ok l => Ok (r :: l)
          | Raise e => Raise e
          end
      end
  end.

(** ** The ranking as the specification words it *)

(** [a] may stand before [b]: a higher score; at equal scores a higher
    importance; at equal importance the more recent last access. *)
Definition ranked_before (a b : MemoryResult) : bool :=
  if Qeq_bool (relevance_score a) (relevance_score b) then
    if Qeq_bool (importance (memory a)) (importance (memory b)) then
      (last_accessed (memory b) <=? last_accessed (memory a))%Z
    else Qle_bool (importance (memory b)) (importance (memory a))
  else Qle_bool (relevance_score b) (relevance_score a).

(** Every result may stand before all later ones. *)
Fixpoint ranked (l : list MemoryResult) : bool :=
  match l with
  | [] => true
  | a :: t => (forallb (ranked_before a) t && ranked t)%bool
  end.

(** ** The durable store *)

(** Two disks that differ at most in their lookup-index files. *)
Definition same_files (d d' : Disk) : Prop :=
  files d' = files d /\ dirs d' = dirs d /\ io_fault d' = io_fault d.

(** A computation that changes no memory file, directory or fault. *)
Definition keeps_files {A} (c : IO A) : Prop := forall d, same_files d (c d).1.2.

(** A computation that never raises. *)
Definition never_raises {A} (c : IO A) : Prop := forall d, exists a, (c d).1.1 = Ok a.

(** The first memory type, in definition order, under which [memory_id]
    has a file in scope [s]. *)
Definition first_type_with_file (config : MemoryConfig) (d : Disk) (s : MemoryScope)
    (memory_id : string) : option MemoryType :=
  for_first all_memory_types (fun t =>
    if file_exists d (FileStore.memory_file config s t memory_id) then Some t else None).

(** ** Degraded mode *)




(** The record passes the type, scope and tag filters of the query. *)
Definition passes_filters (q : MemoryQuery) (m : Memory) : bool :=
  (negb (truthy (memory_types q)
         && negb (py_in (memory_type m) (filter_items (memory_types q))))
   && negb (truthy (scopes q) && negb (py_in (scope m) (filter_items (scopes q))))
   && negb (truthy (query_tags q)
            && negb (any_tag_in (filter_items (query_tags q)) (tags m))))%bool.

(** * Sample data *)

Module Sample.

Definition record (i t c : string) (tg : list string) (imp : Q) (stamp : Z)
    (s : MemoryScope) : Memory :=
  mkMemory i t (PyStr c) SEMANTIC s KNOWLEDGE_WING tg imp stamp stamp None 0 1 [] [] [] None None None.

Definition ask (text : string) (threshold : Q) (n : Z) : MemoryQuery :=
  mkQuery text None None None None n threshold true "relevance" false.

(** An embedding provider that is unavailable. *)
Definition no_api : string -> option Embedding := fun _ => None.

(** Cosine similarity on one-dimensional vectors, where it is a rational:
    x*y / (|x| * |y|), and 0 for a zero vector. *)
Definition cosine_1d (a b : Embedding) : option Q :=
  match a, b with
  | [x], [y] => Some ((x * y) / (Qabs x * Qabs y))
  | _, _ => None
  end.

(** A provider that embeds the text "up" as [1] and every other text as [-1]. *)
Definition api_updown (text : string) : option Embedding :=
  if String.eqb text "up" then Some [1] else Some [-1].

Definition m_notes : Memory := record "n1" "meeting notes" "budget review" [] 0 1 GLOBAL.
Definition vs_notes : VectorStore := store_memory api_updown (VectorStore_init None) m_notes.
Definition q_up : MemoryQuery := ask "up" 0 5.

(** Three records with the same score 0.12 for the query "sync": two by a
    title match at importance 0, one by a content match at importance 3. *)
Definition m_old : Memory := record "a" "asyncio" "event loop" [] 0 1 GLOBAL.
Definition m_new : Memory := record "c" "asyncio" "event loop" [] 0 9 GLOBAL.
Definition m_important : Memory := record "b" "plans" "resync later" [] 3 5 GLOBAL.
Definition vs_ties : VectorStore :=
  store_memory no_api
    (store_memory no_api (store_memory no_api (VectorStore_init None) m_old) m_new)
    m_important.
Definition q_sync : MemoryQuery := ask "sync" (1 # 10) 5.

(** A record and a query in two spellings. *)
Definition m_python : Memory :=
  record "p1" "Python async programming" "Use asyncio for Python" ["python"] 8 1 GLOBAL.
Definition m_python_upper : Memory :=
  record "p1" "PYTHON ASYNC PROGRAMMING" "USE ASYNCIO FOR PYTHON" ["PYTHON"] 8 1 GLOBAL.
Definition m_cooking : Memory := record "k1" "Cooking" "pasta recipe" ["food"] 8 2 GLOBAL.
Definition q_python : MemoryQuery := ask "Python async" (1 # 10) 5.
Definition q_python_upper : MemoryQuery := ask "PYTHON ASYNC" (1 # 10) 5.

(** A record whose content is a tuple: JSON reads it back as a list.  A
    record whose importance was set to 11 after construction. *)
Definition m_tuple : Memory :=
  mkMemory "t1" "pair" (PyObject "(1, 2)" (Ok (PyJson "[1, 2]"))) SEMANTIC GLOBAL
    KNOWLEDGE_WING [] 5 1 1 None 0 1 [] [] [] None None None.
Definition m_tuple_reloaded : Memory :=
  mkMemory "t1" "pair" (PyJson "[1, 2]") SEMANTIC GLOBAL
    KNOWLEDGE_WING [] 5 1 1 None 0 1 [] [] [] None None None.
Definition m_eleven : Memory := record "e1" "loud" "turned up" [] 11 1 GLOBAL.

(** A store with a global and a project tree.  The identifier "dup" is
    stored in both scopes; "broken" does not deserialise. *)
Definition base_g : string := "/home/u/.claude/memory".
Definition base_p : string := "/work/app/.claude/memory".
Definition config : MemoryConfig := mkConfig base_g (Some base_p).

Definition tree (base : string) (s : MemoryScope) : list Dir :=
  [BaseDir base; ScopeDir base s; TypeDir base s WORKING; TypeDir base s SEMANTIC;
   TypeDir base s EPISODIC; TypeDir base s PROCEDURAL; MetaDir base s].

Definition no_fault : IoOp -> option Exn := fun _ => None.

Definition m_dup_global : Memory :=
  record "dup" "global copy" "shared knowledge" [] 5 1 GLOBAL.
Definition m_dup_project : Memory :=
  record "dup" "project copy" "local knowledge" [] 5 2 PROJECT.
Definition corrupt : Exn := mkExn "JSONDecodeError" "Expecting value".

Definition p_dup_global : FilePath := mkPath base_g GLOBAL SEMANTIC "dup".
Definition p_broken : FilePath := mkPath base_g GLOBAL SEMANTIC "broken".
Definition p_dup_project : FilePath := mkPath base_p PROJECT SEMANTIC "dup".

Definition disk : Disk :=
  mkDisk (tree base_g GLOBAL ++ tree base_p PROJECT)
         [(p_dup_global, MemoryJson m_dup_global 10);
          (p_broken, Unreadable corrupt);
          (p_dup_project, MemoryJson m_dup_project 11)]
         [] no_fault.

(** The same store on a full disk: a memory file can be opened for
    writing, and writing into it fails. *)
Definition disk_full_error : Exn := mkExn "OSError" "No space left on device".
Definition disk_full : Disk :=
  mkDisk (dirs disk) (files disk) (index_files disk)
         (fun op => match op with DumpFile _ => Some disk_full_error | _ => None end).

(** The same store mounted read-only: no memory file can be opened for
    writing. *)
Definition read_only_error : Exn := mkExn "OSError" "Read-only file system".
Definition disk_read_only : Disk :=
  mkDisk (dirs disk) (files disk) (index_files disk)
         (fun op => match op with OpenFile _ => Some read_only_error | _ => None end).

(** The same store with a lookup index that cannot be written. *)
Definition index_error : Exn := mkExn "PermissionError" "index.json".
Definition disk_index_readonly : Disk :=
  mkDisk (dirs disk) (files disk) (index_files disk)
         (fun op => match op with WriteIndex _ _ => Some index_error | _ => None end).

(** A manager on this store, after [awaken] has synced the index. *)
Definition fresh : MemoryManager := mkManager disk (VectorStore_init None).
Definition awakened : MemoryManager :=
  match awaken_sync config no_api fresh with
  | Ok (self, _) => self
  | Raise _ => fresh
  end.
Definition q_global_copy : MemoryQuery := ask "global copy" (1 # 10) 5.

(** The engine on these stores, with nothing deleted yet. *)
Definition engine : Engine.State := Engine.mkState awakened [].

End Sample.

(** * Further operations of the model, the file store and the index *)

(** ** models/memory.py: the methods of [Memory] *)

Definition set_tags (ts : list string) (m : Memory) : Memory :=
  mkMemory (id m) (title m) (content_value m) (memory_type m) (scope m) (location m)
    ts (importance m) (created_at m) (last_accessed m) (updated_at m)
    (access_count m) (success_rate m) (relations m) (dependencies m) (context_items m)
    (embedding m) (file_path m) (content_hash m).

Definition set_relations (rs : list string) (m : Memory) : Memory :=
  mkMemory (id m) (title m) (content_value m) (memory_type m) (scope m) (location m)
    (tags m) (importance m) (created_at m) (last_accessed m) (updated_at m)
    (access_count m) (success_rate m) rs (dependencies m) (context_items m)
    (embedding m) (file_path m) (content_hash m).

(** [min(a, b)] and [max(a, b)] of Python: the first argument unless the
    second is strictly smaller (larger). *)
Definition py_min (a b : Q) : Q := if Qlt_le_dec b a then b else a.
Definition py_max (a b : Q) : Q := if Qlt_le_dec a b then b else a.

(** [Memory.update_access]; [now] is [datetime.now()]. *)
Definition update_access (now : Z) (m : Memory) : Memory :=
  mkMemory (id m) (title m) (content_value m) (memory_type m) (scope m) (location m)
    (tags m) (importance m) (created_at m) now (updated_at m)
    (access_count m + 1)%Z (success_rate m) (relations m) (dependencies m) (context_items m)
    (embedding m) (file_path m) (content_hash m).

(** [Memory.add_relation] *)
Definition add_relation (memory_id : string) (m : Memory) : Memory :=
  if py_in memory_id (relations m) then m
  else set_relations (relations m ++ [memory_id]) m.

(** [Memory.add_tag] *)
Definition add_tag (tag : string) (m : Memory) : Memory :=
  if py_in tag (tags m) then m else set_tags (tags m ++ [tag]) m.

(** [Memory.update_importance]; [now] is [datetime.now()]. *)
Definition update_importance (now : Z) (new_importance : Q) (m : Memory) : Memory :=
  mkMemory (id m) (title m) (content_value m) (memory_type m) (scope m) (location m)
    (tags m) (py_max 0 (py_min 10 new_importance)) (created_at m) (last_accessed m)
    (Some now) (access_count m) (success_rate m) (relations m) (dependencies m)
    (context_items m) (embedding m) (file_path m) (content_hash m).

(** ** storage/vector_store.py: [get_statistics] *)

Record Statistics := mkStatistics {
  total_memories : nat;
  embeddings_generated : nat;
  semantic_search_available : bool;
  model_name : option string
}.

(** [len(d)] of the cache dict: its number of keys. *)
Definition cache_len (d : list (string * Memory)) : nat :=
  size (list_to_set (map fst d) : gset string).

(** [VectorStore.get_statistics] *)
Definition get_statistics (self : VectorStore) : Statistics :=
  mkStatistics (cache_len (_memory_cache self))
               (size (_memory_embeddings self))
               (match _model self with Some _ => true | None => false end)
               (match _model self with Some _ => Some "all-MiniLM-L6-v2" | None => None end).

(** ** storage/file_store.py: the remaining methods *)

(** [MemoryType.value] *)
Definition type_value (t : MemoryType) : string :=
  match t with
  | WORKING => "working"
  | SEMANTIC => "semantic"
  | EPISODIC => "episodic"
  | PROCEDURAL => "procedural"
  end.

(** [path.mkdir(parents=True, exist_ok=True)] for the directories of the
    store: the directory and its parents exist afterwards; [fault] tells
    for which directory the call raises. *)
Definition parents (x : Dir) : list Dir :=
  match x with
  | BaseDir b => [BaseDir b]
  | ScopeDir b s => [BaseDir b; ScopeDir b s]
  | TypeDir b s t => [BaseDir b; ScopeDir b s; TypeDir b s t]
  | MetaDir b s => [BaseDir b; ScopeDir b s; MetaDir b s]
  end.

Definition add_dir (x : Dir) (l : list Dir) : list Dir :=
  if bool_decide (x ∈ l) then l else l ++ [x].

Definition mkdir (fault : Dir -> option Exn) (x : Dir) : IO unit :=
  fun d =>
    match fault x with
    | Some e => (Raise e, d, [])
    | None =>
        (Ok tt, mkDisk (foldl (fun l y => add_dir y l) (dirs d) (parents x))
                       (files d) (index_files d) (io_fault d), [])
    end.

Module FileStoreAdmin.

Local Open Scope io_scope.

Section Store.

Variable config : MemoryConfig.

(** The loop over the memory types in [_setup_directory_structure]. *)
Fixpoint setup_types (fault : Dir -> option Exn) (base_path : string) (s : MemoryScope)
    (ts : list MemoryType) : IO unit :=
  match ts with
  | [] => ret tt
  | t :: rest =>
      mkdir fault (TypeDir base_path s t) ;;;
      setup_types fault base_path s rest
  end.

(** The loop over the scopes in [_setup_directory_structure]. *)
Fixpoint setup_scopes (fault : Dir -> option Exn) (ss : list MemoryScope) : IO unit :=
  match ss with
  | [] => ret tt
  | s :: rest =>
      let base_path := get_storage_path config (scope_value s) in
      setup_types fault base_path s all_memory_types ;;;
      mkdir fault (MetaDir base_path s) ;;;
      setup_scopes fault rest
  end.

(** [FileStore._setup_directory_structure]: exceptions are not caught. *)
Definition _setup_directory_structure (fault : Dir -> option Exn) : IO unit :=
  setup_scopes fault [GLOBAL; PROJECT].

(** [FileStore.update_memory] *)
Definition update_memory (now : Z) (m : Memory) : IO unit :=
  try_except
    (FileStore.store_memory config now m ;;;
     logger DEBUG (id m) None)
    (fun e => logger ERROR (id m) (Some e) ;;; raise e).

(** The loop over the scopes in [load_memories_by_type]. *)
Fixpoint load_type_scopes (t : MemoryType) (ss : list MemoryScope)
    (memories : list Memory) : IO (list Memory) :=
  match ss with
  | [] => ret memories
  | search_scope :: rest =>
      let base_path := get_storage_path config (scope_value search_scope) in
      d <- get_disk ;;
      if negb (dir_exists d (BaseDir base_path)) then load_type_scopes t rest memories
      else if negb (dir_exists d (TypeDir base_path search_scope t))
      then load_type_scopes t rest memories
      else
        memories <- FileStore.load_files (glob d base_path search_scope t) memories ;;
        load_type_scopes t rest memories
  end.

(** [FileStore.load_memories_by_type] *)
Definition load_memories_by_type (t : MemoryType) (s : option MemoryScope)
  : IO (list Memory) :=
  try_except
    (let scopes_to_search :=
       match s with Some s => [s] | None => [GLOBAL; PROJECT] end in
     load_type_scopes t scopes_to_search [])
    (fun e => logger ERROR (type_value t) (Some e) ;;; ret []).

(** The loop over the memory types in [load_memories_by_scope]. *)
Fixpoint load_scope_types (s : MemoryScope) (ts : list MemoryType)
    (memories : list Memory) : IO (list Memory) :=
  match ts with
  | [] => ret memories
  | t :: rest =>
      type_memories <- load_memories_by_type t (Some s) ;;
      load_scope_types s rest (memories ++ type_memories)
  end.

(** [FileStore.load_memories_by_scope] *)
Definition load_memories_by_scope (s : MemoryScope) : IO (list Memory) :=
  try_except
    (let base_path := get_storage_path config (scope_value s) in
     d <- get_disk ;;
     if negb (dir_exists d (BaseDir base_path)) then ret []
     else if negb (dir_exists d (ScopeDir base_path s)) then ret []
     else load_scope_types s all_memory_types [])
    (fun e => logger ERROR (scope_value s) (Some e) ;;; ret []).

(** [stats[key] += 1]: a [KeyError] for a missing key. *)
Definition dict_incr (key : string) (stats : gmap string Z) : Result (gmap string Z) :=
  match stats !! key with
  | Some n => Ok (<[key := (n + 1)%Z]> stats)
  | None => Raise (mkExn "KeyError" key)
  end.

(** The counting loop of [get_memory_stats]; the dict is updated in place,
    so an exception leaves it as far as the loop came. *)
Fixpoint count_memories (ms : list Memory) (stats : gmap string Z)
  : gmap string Z * option Exn :=
  match ms with
  | [] => (stats, None)
  | m :: rest =>
      match dict_incr (scope_value (scope m)) stats with
      | Raise e => (stats, Some e)
      | Ok stats1 =>
          match dict_incr (type_value (memory_type m)) stats1 with
          | Raise e => (stats1, Some e)
          | Ok stats2 => count_memories rest stats2
          end
      end
  end.

(** The dict [get_memory_stats] starts from. *)
Definition initial_stats : gmap string Z :=
  foldl (fun stats t => <[type_value t := 0%Z]> stats)
        (<["project" := 0%Z]> (<["global" := 0%Z]> (<["total" := 0%Z]> ∅)))
        all_memory_types.

(** [FileStore.get_memory_stats] *)
Definition get_memory_stats : IO (gmap string Z) :=
  let stats := initial_stats in
  fun d =>
    match FileStore.load_all_memories config d with
    | (Ok all_memories, d1, l1) =>
        let stats := <["total" := Z.of_nat (length all_memories)]> stats in
        match count_memories all_memories stats with
        | (stats, None) => (Ok stats, d1, l1)
        | (stats, Some e) => (Ok stats, d1, l1 ++ [mkLog ERROR "get_memory_stats" (Some e)])
        end
    | (Raise e, d1, l1) => (Ok stats, d1, l1 ++ [mkLog ERROR "get_memory_stats" (Some e)])
    end.

(** The innermost loop of [cleanup_orphaned_files]: a file that does not
    validate is unlinked and counted; an exception of [unlink] is not caught
    here. *)
Fixpoint cleanup_files (entries : list (FilePath * FileContent)) (cleaned : Z) : IO Z :=
  match entries with
  | [] => ret cleaned
  | (memory_file, _) :: rest =>
      cleaned <- try_except
                   (_ <- read_memory memory_file ;; ret cleaned)
                   (fun e => logger WARNING (path_stem memory_file) (Some e) ;;;
                             unlink memory_file ;;;
                             ret (cleaned + 1)%Z) ;;
      cleanup_files rest cleaned
  end.

Fixpoint cleanup_types (s : MemoryScope) (ts : list MemoryType) (cleaned : Z) : IO Z :=
  match ts with
  | [] => ret cleaned
  | t :: rest =>
      let base_path := get_storage_path config (scope_value s) in
      d <- get_disk ;;
      if negb (dir_exists d (TypeDir base_path s t)) then cleanup_types s rest cleaned
      else
        cleaned <- cleanup_files (glob d base_path s t) cleaned ;;
        cleanup_types s rest cleaned
  end.

Fixpoint cleanup_scopes (ss : list MemoryScope) (cleaned : Z) : IO Z :=
  match ss with
  | [] => ret cleaned
  | s :: rest =>
      let base_path := get_storage_path config (scope_value s) in
      d <- get_disk ;;
      if negb (dir_exists d (BaseDir base_path)) then cleanup_scopes rest cleaned
      else if negb (dir_exists d (ScopeDir base_path s)) then cleanup_scopes rest cleaned
      else
        cleaned <- cleanup_types s all_memory_types cleaned ;;
        cleanup_scopes rest cleaned
  end.

(** [FileStore.cleanup_orphaned_files] *)
Definition cleanup_orphaned_files : IO Z :=
  try_except
    (cleaned <- cleanup_scopes [GLOBAL; PROJECT] 0%Z ;;
     logger INFO "cleanup_orphaned_files" None ;;;
     ret cleaned)
    (fun e => logger ERROR "cleanup_orphaned_files" (Some e) ;;; ret 0%Z).

End Store.

End FileStoreAdmin.

(** ** Queries *)

(** The query with every empty filter list replaced by no filter. *)
Definition without_empty_filters (q : MemoryQuery) : MemoryQuery :=
  let norm {A} (f : option (list A)) : option (list A) :=
    match f with Some [] => None | _ => f end in
  mkQuery (query q) (norm (memory_types q)) (norm (scopes q)) (locations q)
          (norm (query_tags q)) (max_results q) (min_relevance q) (include_context q)
          (sort_by q) (include_archived q).

(** ** More sample data *)

Module MoreSamples.

(** An index holding a global and a project record. *)
Definition m_project_note : Memory :=
  Sample.record "pn" "project copy of the notes" "local knowledge" ["notes"] 5 2 PROJECT.
Definition m_global_note : Memory :=
  Sample.record "gn" "global copy of the notes" "shared knowledge" ["notes"] 5 1 GLOBAL.
Definition vs_mixed : VectorStore :=
  store_memory Sample.no_api
    (store_memory Sample.no_api (VectorStore_init None) m_global_note) m_project_note.

(** A query for "copy" restricted to the project scope. *)
Definition q_project_only : MemoryQuery :=
  mkQuery "copy" None (Some [PROJECT]) None None 5 (1 # 10) true "relevance" false.

(** The result the query gives for the project record. *)
Definition r_project_note : MemoryResult :=
  mkResult m_project_note
    (_calculate_relevance Sample.cosine_1d vs_mixed m_project_note q_project_only None)
    (_get_match_reasons vs_mixed m_project_note q_project_only)
    (_get_context_snippet m_project_note q_project_only).

End MoreSamples.

(** A manager whose index holds an older copy of the record "dup" than the
    disk. *)
Module StaleSample.

Definition m_dup_stale : Memory :=
  Sample.record "dup" "stale copy" "outdated knowledge" [] 5 0 GLOBAL.
Definition stale : MemoryManager :=
  mkManager Sample.disk (store_memory Sample.no_api (VectorStore_init None) m_dup_stale).

End StaleSample.

(** ** Records as JSON reads them back *)

(** What loading gives for a record that [store_memory] has written: the
    record as it comes back from JSON, or the exception of the [Memory]
    constructor; or the exception of [json.dump]. *)
Definition reloaded (m : Memory) : Result Memory :=
  match json_data m with
  | Ok data => new_Memory data
  | Raise e => Raise e
  end.

(** A value that JSON represents exactly. *)
Definition json_exact (v : PyValue) : bool :=
  match v with
  | PyStr _ | PyJson _ => true
  | PyObject _ _ => false
  end.

(** A record that survives the round trip: content and context values
    are JSON-exact, importance and success rate are within their ranges. *)
Definition roundtrips (m : Memory) : Prop :=
  json_exact (content_value m) = true
  /\ forallb (fun kv => json_exact kv.2) (context_items m) = true
  /\ new_Memory m = Ok m.

(** ** Identifiers on disk *)

(** The identifier has no file on disk except, possibly, at [p]. *)
Definition only_file (config : MemoryConfig) (d : Disk) (memory_id : string)
    (p : FilePath) : Prop :=
  forall s t, FileStore.memory_file config s t memory_id <> p ->
              file_exists d (FileStore.memory_file config s t memory_id) = false.

(** A store in which the global file of "dup" is corrupt and the project
    file is sound. *)
Module ShadowSample.

Definition disk : Disk :=
  mkDisk (dirs Sample.disk)
         [(Sample.p_dup_global, Unreadable Sample.corrupt);
          (Sample.p_dup_project, MemoryJson Sample.m_dup_project 11)]
         [] Sample.no_fault.

End ShadowSample.

(** ** Enumeration by type and by scope *)

(** The entries [load_memories_by_type] visits for one scope: it tests the
    storage path and the type directory. *)
Definition visit_type_in (config : MemoryConfig) (d : Disk) (t : MemoryType)
    (s : MemoryScope) : list (FilePath * FileContent) :=
  let base_path := get_storage_path config (scope_value s) in
  if (dir_exists d (BaseDir base_path) && dir_exists d (TypeDir base_path s t))%bool
  then glob d base_path s t else [].

(** Every memory file that deserialises lies where [store_memory] would
    put its record: under the storage path, scope, type and identifier of
    the record it holds. *)
Definition consistent (config : MemoryConfig) (d : Disk) : Prop :=
  forall p m stored_at,
    file_get p (files d) = Some (MemoryJson m stored_at) ->
    p = FileStore.memory_file config (scope m) (memory_type m) (id m).

(** ** Counting records *)

Definition count_scope (s : MemoryScope) (ms : list Memory) : Z :=
  Z.of_nat (length (filter (fun m => scope m = s) ms)).

Definition count_type (t : MemoryType) (ms : list Memory) : Z :=
  Z.of_nat (length (filter (fun m => memory_type m = t) ms)).

(** ** Relations between disks *)

(** A computation whose final disk is always related to the initial one. *)
Definition stays {A} (R : Disk -> Disk -> Prop) (c : IO A) : Prop :=
  forall d, R d (c d).1.2.

(** [d'] has the directories and faults of [d], and every file that
    deserialises on [d] deserialises to the same record on [d']. *)
Definition keeps_readable (d d' : Disk) : Prop :=
  dirs d' = dirs d /\ io_fault d' = io_fault d
  /\ forall p m, parse d p = Ok m -> parse d' p = Ok m.

(** [d'] has the files, index files and faults of [d] and at least its
    directories. *)
Definition more_dirs (d d' : Disk) : Prop :=
  files d' = files d /\ index_files d' = index_files d /\ io_fault d' = io_fault d
  /\ dirs d ⊆ dirs d'.

(** Every directory of both scopes exists. *)
Definition all_dirs_exist (config : MemoryConfig) (d : Disk) : Prop :=
  forall s,
    let base_path := get_storage_path config (scope_value s) in
    dir_exists d (BaseDir base_path) = true
    /\ dir_exists d (ScopeDir base_path s) = true
    /\ dir_exists d (MetaDir base_path s) = true
    /\ forall t, dir_exists d (TypeDir base_path s t) = true.

(** A store in which every file deserialises. *)
Module CleanSample.

Definition disk : Disk :=
  mkDisk (dirs Sample.disk)
         [(Sample.p_dup_global, MemoryJson Sample.m_dup_global 10);
          (Sample.p_dup_project, MemoryJson Sample.m_dup_project 11)]
         [] Sample.no_fault.

(** A disk on which nothing has been created yet. *)
Definition empty_disk : Disk := mkDisk [] [] [] Sample.no_fault.

Definition no_mkdir_fault : Dir -> option Exn := fun _ => None.

End CleanSample.

(** ** The lookup index *)

(** The entry [_update_index] writes for a record. *)
Definition entry_of (m : Memory) : IndexEntry :=
  mkIndexEntry (memory_type m) (title m) (tags m) (importance m)
               (created_at m) (last_accessed m).

(** The entries of the lookup index of one scope as [_update_index] reads
    them: none for a missing file, [None] for a file that does not load. *)
Definition index_entries (d : Disk) (base : string) (s : MemoryScope)
  : option (gmap string IndexEntry) :=
  match index_get base s (index_files d) with
  | Some (IndexJson ix) => Some ix
  | Some (IndexUnreadable _) => None
  | None => Some ∅
  end.

(** The lookup index of the scope can be rewritten. *)
Definition index_writable (d : Disk) (base : string) (s : MemoryScope) : Prop :=
  is_Some (index_entries d base s)
  /\ dir_exists d (MetaDir base s) = true
  /\ io_fault d (WriteIndex base s) = None.

(** A store whose two lookup indexes both list the identifier "dup". *)
Module IndexSample.

Definition global_index : gmap string IndexEntry :=
  {[ "dup" := entry_of Sample.m_dup_global ]}.

Definition project_index : gmap string IndexEntry :=
  {[ "dup" := entry_of Sample.m_dup_project ]}.

Definition disk : Disk :=
  mkDisk (dirs Sample.disk) (files Sample.disk)
         [(Sample.base_g, GLOBAL, IndexJson global_index);
          (Sample.base_p, PROJECT, IndexJson project_index)]
         Sample.no_fault.

End IndexSample.

(** ** Files the clean-up removes *)

(** The file at [p] exists and does not deserialise. *)
Definition unreadable (d : Disk) (p : FilePath) : bool :=
  match file_get p (files d) with
  | Some (Unreadable _) => true
  | _ => false
  end.

(** The paths of the unreadable files among some directory entries. *)
Definition bad (d : Disk) (es : list (FilePath * FileContent)) : list FilePath :=
  map fst (filter (fun e => unreadable d e.1 = true) es).

(** The unreadable files the enumeration reaches. *)
Definition orphans (config : MemoryConfig) (d : Disk) : list FilePath :=
  bad d (enumerated config d).

(** A directory listing without the files at the paths [B]. *)
Definition without (B : list FilePath) (l : list (FilePath * FileContent))
  : list (FilePath * FileContent) :=
  filter (fun e => e.1 ∉ B) l.

(** No unlink hits an I/O fault. *)
Definition no_unlink_fault (d : Disk) : Prop :=
  forall p, io_fault d (UnlinkFile p) = None.

(** A well-formed directory listing: no path occurs twice. *)
Definition unique_paths (d : Disk) : Prop := NoDup (map fst (files d)).

(** * Properties *)

(** ** Text primitives *)

Example lower_ex : Text.lower "Python Async 3" = "python async 3".
Proof. reflexivity. Qed.

Example split_ex :
  Text.split "  python   async	io " = ["python"; "async"; "io"].
Proof. reflexivity. Qed.

Example contains_ex :
  Text.contains "async" "python async" = true
  /\ Text.contains "" "x" = true
  /\ Text.contains "asyncs" "python async" = false.
Proof. repeat split; reflexivity. Qed.

(** ** Lexical score *)

Lemma min1_Qmin (x : Q) : min1 x == Qmin 1 x.
Proof.
  unfold min1. destruct (Qlt_le_dec x 1) as [H | H].
  - symmetry. apply Q.min_r. apply Qlt_le_weak, H.
  - symmetry. apply Q.min_l. exact H.
Qed.

Lemma min1_le_1 (x : Q) : min1 x <= 1.
Proof.
  unfold min1. destruct (Qlt_le_dec x 1) as [H | H]; [apply Qlt_le_weak, H | apply Qle_refl].
Qed.

Lemma min1_nonneg (x : Q) : 0 <= x -> 0 <= min1 x.
Proof. intros H. unfold min1. destruct (Qlt_le_dec x 1); [exact H | discriminate]. Qed.

Lemma tag_loop_indicator (ql : string) (ts : list string) (score : Q) :
  tag_loop ql ts score
  == score + LexicalSpec.indicator
               (existsb (fun t => Text.contains ql (Text.lower t)) ts) (2 # 10).
Proof.
  induction ts as [| t r IH]; simpl.
  - unfold LexicalSpec.indicator. ring.
  - destruct (Text.contains ql (Text.lower t)); simpl.
    + reflexivity.
    + exact IH.
Qed.

Lemma context_loop_indicator (ql : string) (items : list (string * string)) (score : Q) :
  context_loop ql items score
  == score + LexicalSpec.indicator
               (existsb (fun kv => Text.contains ql (Text.lower kv.2)) items) (1 # 10).
Proof.
  induction items as [| [k v] r IH]; simpl.
  - unfold LexicalSpec.indicator. ring.
  - destruct (Text.contains ql (Text.lower v)); simpl.
    + reflexivity.
    + exact IH.
Qed.

Lemma overlap_shared_ratio (a b : gset string) :
  overlap a b == LexicalSpec.shared_ratio a b.
Proof.
  unfold overlap, LexicalSpec.shared_ratio.
  destruct (decide (size a = 0%nat)) as [Hz | Hnz].
  - apply size_empty_inv in Hz. apply leibniz_equiv in Hz. subst a.
    rewrite (left_absorb_L ∅ (∩)).
    rewrite size_empty. reflexivity.
  - rewrite Z.max_l by lia. reflexivity.
Qed.

Lemma tag_loop_case (ql : string) (ts ts' : list string) (score : Q) :
  map Text.lower ts' = map Text.lower ts ->
  tag_loop ql ts' score = tag_loop ql ts score.
Proof.
  revert ts'. induction ts as [| t r IH]; intros [| t' r'] H; simpl in *;
    try discriminate; [reflexivity |].
  injection H; intros Hr Ht. rewrite Ht.
  destruct (Text.contains ql (Text.lower t)); [reflexivity | apply IH, Hr].
Qed.

Lemma context_loop_case (ql : string) (cs cs' : list (string * string)) (score : Q) :
  map (fun kv => Text.lower kv.2) cs' = map (fun kv => Text.lower kv.2) cs ->
  context_loop ql cs' score = context_loop ql cs score.
Proof.
  revert cs'. induction cs as [| [k v] r IH]; intros [| [k' v'] r'] H; simpl in *;
    try discriminate; [reflexivity |].
  injection H; intros Hr Hv. rewrite Hv.
  destruct (Text.contains ql (Text.lower v)); [reflexivity | apply IH, Hr].
Qed.

Lemma keyword_relevance_lexical_score (m : Memory) (q : MemoryQuery) :
  _calculate_keyword_relevance m q == LexicalSpec.lexical_score m (query q).
Proof.
  unfold _calculate_keyword_relevance, LexicalSpec.lexical_score.
  rewrite min1_Qmin. apply Q.min_compat; [reflexivity |].
  rewrite context_loop_indicator, tag_loop_indicator, !overlap_shared_ratio.
  unfold LexicalSpec.ci_contains, LexicalSpec.indicator.
  destruct (Text.contains (Text.lower (query q)) (Text.lower (title m)));
    destruct (Text.contains (Text.lower (query q)) (Text.lower (content m)));
    ring.
Qed.

(** C4. The keyword score of [_calculate_keyword_relevance] is the capped
    sum min(1, 0.4 [query in title] + 0.3 [query in content] + 0.2 [query in
    some tag] + 0.1 [query in some context value] + 0.1 * shared(title) +
    0.05 * shared(content)), where shared(x) = |query words ∩ x words| /
    |query words| (0 for a query without words); and it does not depend on
    the letter case of the query or of any compared text. *)
Theorem keyword_relevance_formula (m : Memory) (q : MemoryQuery) :
  _calculate_keyword_relevance m q == LexicalSpec.lexical_score m (query q)
  /\ forall m' q', LexicalSpec.same_up_to_case m q m' q' ->
       _calculate_keyword_relevance m' q' = _calculate_keyword_relevance m q.
Proof.
  split; [apply keyword_relevance_lexical_score |].
  intros m' q' (Hq & Ht & Hc & Htags & Hctx).
  unfold _calculate_keyword_relevance. rewrite Hq, Ht, Hc.
  rewrite (tag_loop_case _ _ _ _ Htags), (context_loop_case _ _ _ _ Hctx).
  reflexivity.
Qed.

Lemma keyword_relevance_formula_witness :
  LexicalSpec.same_up_to_case Sample.m_python Sample.q_python
    Sample.m_python_upper Sample.q_python_upper
  /\ _calculate_keyword_relevance Sample.m_python_upper Sample.q_python_upper
     = _calculate_keyword_relevance Sample.m_python Sample.q_python
  /\ _calculate_keyword_relevance Sample.m_python Sample.q_python
     == LexicalSpec.lexical_score Sample.m_python "Python async".
Proof.
  assert (H : LexicalSpec.same_up_to_case Sample.m_python Sample.q_python
                Sample.m_python_upper Sample.q_python_upper)
    by (repeat split; vm_compute; reflexivity).
  split; [exact H |]. split.
  - exact (proj2 (keyword_relevance_formula Sample.m_python Sample.q_python) _ _ H).
  - exact (proj1 (keyword_relevance_formula Sample.m_python Sample.q_python)).
Defined.

Example keyword_relevance_python :
  _calculate_keyword_relevance Sample.m_python Sample.q_python == 525 # 1000.
Proof. vm_compute. reflexivity. Qed.

(** ** Relevance score *)

Lemma min1_compat (x y : Q) : x == y -> min1 x == min1 y.
Proof. intros H. rewrite !min1_Qmin. apply Q.min_compat; [reflexivity | exact H]. Qed.

Lemma indicator_nonneg (b : bool) (w : Q) : 0 <= w -> 0 <= LexicalSpec.indicator b w.
Proof. intros H. destruct b; simpl; [exact H | apply Qle_refl]. Qed.

Lemma shared_ratio_nonneg (a b : gset string) : 0 <= LexicalSpec.shared_ratio a b.
Proof.
  unfold LexicalSpec.shared_ratio. destruct (decide (size a = 0%nat)); [apply Qle_refl |].
  apply Qle_shift_div_l.
  - unfold Qlt. simpl. lia.
  - rewrite Qmult_0_l. unfold Qle. simpl. lia.
Qed.

Lemma keyword_relevance_bounds (m : Memory) (q : MemoryQuery) :
  0 <= _calculate_keyword_relevance m q /\ _calculate_keyword_relevance m q <= 1.
Proof.
  split.
  - rewrite keyword_relevance_lexical_score.
    unfold LexicalSpec.lexical_score. apply Q.min_glb; [discriminate |].
    pose proof (indicator_nonneg (LexicalSpec.ci_contains (query q) (title m)) (4 # 10)).
    pose proof (indicator_nonneg (LexicalSpec.ci_contains (query q) (content m)) (3 # 10)).
    pose proof (indicator_nonneg
                  (existsb (LexicalSpec.ci_contains (query q)) (tags m)) (2 # 10)).
    pose proof (indicator_nonneg
                  (existsb (fun kv => LexicalSpec.ci_contains (query q) kv.2) (context m))
                  (1 # 10)).
    pose proof (shared_ratio_nonneg (word_set (Text.lower (query q)))
                  (word_set (Text.lower (title m)))).
    pose proof (shared_ratio_nonneg (word_set (Text.lower (query q)))
                  (word_set (Text.lower (content m)))).
    assert (0 <= 4 # 10) by discriminate. assert (0 <= 3 # 10) by discriminate.
    assert (0 <= 2 # 10) by discriminate. assert (0 <= 1 # 10) by discriminate.
    nra.
  - apply min1_le_1.
Qed.

Lemma relevance_weighted_sum cos (vs : VectorStore) (m : Memory) (q : MemoryQuery)
    (qe : option Embedding) :
  _calculate_relevance cos vs m q qe == min1 (weighted_sum cos vs m q qe).
Proof.
  unfold _calculate_relevance, weighted_sum, semantic_similarity_of.
  apply min1_compat.
  destruct qe as [e |]; [| ring].
  destruct (_memory_embeddings vs !! id m) as [me |]; [| ring].
  destruct (cos e me); ring.
Qed.

(** ** Scan, sort and truncation *)

Lemma new_MemoryResult_ok (m : Memory) (rel : Q) (reasons : list string)
    (snippet : option string) (r : MemoryResult) :
  new_MemoryResult m rel reasons snippet = Ok r ->
  r = mkResult m rel reasons snippet /\ 0 <= rel /\ rel <= 1.
Proof.
  unfold new_MemoryResult.
  destruct (Qle_bool 0 rel) eqn:E0; [| discriminate].
  destruct (Qle_bool rel 1) eqn:E1; [| discriminate]. simpl.
  intros [= <-]. apply Qle_bool_iff in E0, E1. auto.
Qed.

Lemma scan_entry_ok cos (vs : VectorStore) (q : MemoryQuery) (qe : option Embedding)
    (m : Memory) (r : MemoryResult) :
  scan_entry cos vs q qe m = Some (Ok r) ->
  memory r = m
  /\ relevance_score r = _calculate_relevance cos vs m q qe
  /\ 0 <= relevance_score r /\ relevance_score r <= 1.
Proof.
  unfold scan_entry.
  destruct (Qle_bool (min_relevance q) _); [| discriminate].
  destruct (truthy (memory_types q) && _)%bool; [discriminate |].
  destruct (truthy (scopes q) && _)%bool; [discriminate |].
  destruct (truthy (query_tags q) && _)%bool; [discriminate |].
  intros [= H]. apply new_MemoryResult_ok in H as (-> & H0 & H1). simpl. auto.
Qed.

Lemma scan_scanned cos (vs : VectorStore) (q : MemoryQuery) (qe : option Embedding)
    (items : list (string * Memory)) (acc : list MemoryResult) :
  scan cos vs q qe items acc
  = match scanned cos vs q qe items with
    | Ok new => Ok (acc ++ new)
    | Raise e => Raise e
    end.
Proof.
  revert acc. induction items as [| [k m] rest IH]; intros acc; simpl.
  - rewrite app_nil_r. reflexivity.
  - destruct (scan_entry cos vs q qe m) as [[r | e] |]; [| reflexivity | apply IH].
    rewrite IH. destruct (scanned cos vs q qe rest); [| reflexivity].
    rewrite <- app_assoc. reflexivity.
Qed.

Lemma scanned_entries cos (vs : VectorStore) (q : MemoryQuery) (qe : option Embedding)
    (items : list (string * Memory)) (res : list MemoryResult) :
  scanned cos vs q qe items = Ok res ->
  Forall (fun r => scan_entry cos vs q qe (memory r) = Some (Ok r)) res
  /\ map memory res `sublist_of` map snd items.
Proof.
  revert res. induction items as [| [k m] rest IH]; intros res; simpl.
  - intros [= <-]. split; constructor.
  - destruct (scan_entry cos vs q qe m) as [[r | e] |] eqn:E; [| discriminate |].
    + destruct (scanned cos vs q qe rest) as [l | e]; [| discriminate].
      intros [= <-]. destruct (IH l eq_refl) as [Hall Hsub].
      pose proof (scan_entry_ok _ _ _ _ _ _ E) as (Hm & _).
      split.
      * constructor; [rewrite Hm; exact E | exact Hall].
      * simpl. rewrite Hm. apply sublist_skip, Hsub.
    + intros H. destruct (IH res H) as [Hall Hsub].
      split; [exact Hall | apply sublist_cons, Hsub].
Qed.

(** An entry that passes is among the scanned results. *)
Lemma scanned_complete cos (vs : VectorStore) (q : MemoryQuery) (qe : option Embedding)
    (items : list (string * Memory)) (res : list MemoryResult) (k : string)
    (m : Memory) (r : MemoryResult) :
  scanned cos vs q qe items = Ok res ->
  (k, m) ∈ items -> scan_entry cos vs q qe m = Some (Ok r) -> r ∈ res.
Proof.
  revert res. induction items as [| [k0 m0] rest IH]; intros res Hs Hin Hr.
  - apply not_elem_of_nil in Hin. contradiction.
  - simpl in Hs. apply elem_of_cons in Hin as [[= <- <-] | Hin].
    + rewrite Hr in Hs. destruct (scanned cos vs q qe rest); [| discriminate].
      injection Hs as <-. apply list_elem_of_here.
    + destruct (scan_entry cos vs q qe m0) as [[r0 | e] |]; [| discriminate |].
      * destruct (scanned cos vs q qe rest) as [l |]; [| discriminate].
        injection Hs as <-. apply list_elem_of_further. apply (IH l eq_refl Hin Hr).
      * apply (IH res Hs Hin Hr).
Qed.

Lemma insert_by_score_perm (r : MemoryResult) (l : list MemoryResult) :
  Permutation (insert_by_score r l) (r :: l).
Proof.
  induction l as [| x t IH]; simpl; [reflexivity |].
  destruct (Qle_bool (relevance_score x) (relevance_score r)); [reflexivity |].
  rewrite IH. apply perm_swap.
Qed.

Lemma sort_by_relevance_perm (l : list MemoryResult) :
  Permutation (sort_by_relevance l) l.
Proof.
  induction l as [| r t IH]; simpl; [reflexivity |].
  rewrite insert_by_score_perm. apply perm_skip, IH.
Qed.

Lemma insert_by_score_descending (r : MemoryResult) (l : list MemoryResult) :
  descending l -> descending (insert_by_score r l).
Proof.
  unfold descending. induction l as [| x t IH]; intros Hs; simpl.
  - repeat constructor.
  - apply StronglySorted_inv in Hs as [Ht Hx].
    destruct (Qle_bool (relevance_score x) (relevance_score r)) eqn:E.
    + apply Qle_bool_iff in E. constructor.
      * constructor; assumption.
      * constructor; [exact E |].
        eapply Forall_impl; [exact Hx |]. simpl. intros y Hy. eapply Qle_trans; eassumption.
    + assert (Hlt : relevance_score r <= relevance_score x).
      { destruct (Qlt_le_dec (relevance_score r) (relevance_score x)) as [H | H].
        - apply Qlt_le_weak, H.
        - apply Qle_bool_iff in H. congruence. }
      constructor; [apply IH, Ht |].
      apply Forall_forall. intros y Hy.
      rewrite insert_by_score_perm in Hy.
      apply elem_of_cons in Hy as [-> | Hy]; [exact Hlt |].
      rewrite Forall_forall in Hx. apply Hx, Hy.
Qed.

Lemma sort_by_relevance_descending (l : list MemoryResult) :
  descending (sort_by_relevance l).
Proof.
  induction l as [| r t IH]; simpl; [constructor | apply insert_by_score_descending, IH].
Qed.

(** Stability: inserting never moves a result past one of the same score. *)
Lemma insert_by_score_with_score (s : Q) (r : MemoryResult) (l : list MemoryResult) :
  with_score s (insert_by_score r l) = with_score s (r :: l).
Proof.
  unfold with_score. induction l as [| x t IH]; [reflexivity |].
  cbn [insert_by_score].
  destruct (Qle_bool (relevance_score x) (relevance_score r)) eqn:E; [reflexivity |].
  cbn [List.filter] in *. rewrite IH.
  destruct (Qeq_bool (relevance_score r) s) eqn:Er; [| reflexivity].
  destruct (Qeq_bool (relevance_score x) s) eqn:Ex; [| reflexivity].
  apply Qeq_bool_iff in Er, Ex.
  assert (H : relevance_score x <= relevance_score r) by (rewrite Er, Ex; apply Qle_refl).
  apply Qle_bool_iff in H. congruence.
Qed.

Lemma sort_by_relevance_stable (s : Q) (l : list MemoryResult) :
  with_score s (sort_by_relevance l) = with_score s l.
Proof.
  induction l as [| r t IH]; [reflexivity |].
  cbn [sort_by_relevance foldr]. rewrite insert_by_score_with_score.
  unfold with_score in *. cbn [List.filter]. fold (sort_by_relevance t). rewrite IH.
  reflexivity.
Qed.

Lemma descending_firstn (n : nat) (l : list MemoryResult) :
  descending l -> descending (firstn n l).
Proof.
  unfold descending. revert n. induction l as [| x t IH]; intros [| n] Hs; simpl;
    try constructor.
  - apply StronglySorted_inv in Hs as [Ht _]. apply IH, Ht.
  - apply StronglySorted_inv in Hs as [_ Hx].
    apply Forall_forall. intros y Hy. rewrite Forall_forall in Hx.
    apply Hx. apply (subseteq_take n t), Hy.
Qed.

Lemma slice_to_subseteq {A} (n : Z) (l : list A) : slice_to n l ⊆ l.
Proof. unfold slice_to. destruct (0 <=? n)%Z; apply subseteq_take. Qed.

Lemma slice_to_descending (n : Z) (l : list MemoryResult) :
  descending l -> descending (slice_to n l).
Proof. unfold slice_to. destruct (0 <=? n)%Z; apply descending_firstn. Qed.

Lemma slice_to_length {A} (n : Z) (l : list A) :
  (0 <= n)%Z -> (length (slice_to n l) <= Z.to_nat n)%nat.
Proof.
  intros H. unfold slice_to. rewrite (proj2 (Z.leb_le 0 n) H).
  rewrite length_take. lia.
Qed.

Lemma slice_to_all {A} (n : Z) (l : list A) :
  (Z.of_nat (length l) <= n)%Z -> slice_to n l = l.
Proof.
  intros H. unfold slice_to. rewrite (proj2 (Z.leb_le 0 n)) by lia.
  apply take_ge. lia.
Qed.

Lemma slice_to_nil {A} (n : Z) : slice_to n ([] : list A) = [].
Proof. unfold slice_to. destruct (0 <=? n)%Z; apply take_nil. Qed.

(** The shape of every answer of [search_memories]. *)
Lemma search_memories_shape cos api (vs : VectorStore) (q : MemoryQuery) :
  exists results,
    search_memories cos api vs q = slice_to (max_results q) (sort_by_relevance results)
    /\ (scanned cos vs q (query_embedding_of api vs q) (_memory_cache vs) = Ok results
        \/ results = [])
    /\ Forall (fun r => scan_entry cos vs q (query_embedding_of api vs q) (memory r)
                        = Some (Ok r)) results
    /\ map memory results `sublist_of` map snd (_memory_cache vs).
Proof.
  unfold search_memories.
  destruct (_memory_cache vs) as [| e rest] eqn:Ec.
  - exists []. cbn [sort_by_relevance foldr]. rewrite slice_to_nil.
    repeat split; auto; constructor.
  - rewrite scan_scanned.
    destruct (scanned cos vs q (query_embedding_of api vs q) (e :: rest)) as [res | ex] eqn:Es.
    + exists res. destruct (scanned_entries _ _ _ _ _ _ Es) as [Hall Hsub].
      simpl app. auto.
    + exists []. cbn [sort_by_relevance foldr]. rewrite slice_to_nil.
      repeat split; auto; try constructor; apply sublist_nil_l.
Qed.

(** ** Bounds of the relevance score *)

Lemma search_memories_results_valid cos api (vs : VectorStore) (q : MemoryQuery)
    (r : MemoryResult) :
  r ∈ search_memories cos api vs q ->
  scan_entry cos vs q (query_embedding_of api vs q) (memory r) = Some (Ok r).
Proof.
  destruct (search_memories_shape cos api vs q) as (results & -> & _ & Hall & _).
  intros Hin. apply slice_to_subseteq in Hin.
  rewrite sort_by_relevance_perm in Hin.
  rewrite Forall_forall in Hall. apply Hall, Hin.
Qed.

Lemma relevance_nonneg cos (vs : VectorStore) (m : Memory) (q : MemoryQuery)
    (qe : option Embedding) :
  0 <= importance m -> 0 <= semantic_similarity_of cos vs m qe ->
  0 <= _calculate_relevance cos vs m q qe.
Proof.
  intros Hi Hs. rewrite relevance_weighted_sum. apply min1_nonneg.
  unfold weighted_sum.
  destruct (keyword_relevance_bounds m q) as [Hk _].
  assert (0 <= importance m / 10).
  { apply Qle_shift_div_l; [reflexivity | rewrite Qmult_0_l; exact Hi]. }
  nra.
Qed.

(** C2 (as the code has it). The relevance score is
    min(1, 0.7 * similarity + 0.3 * keyword score + importance/10 * 0.1):
    it is capped at 1 and has no lower cap.  It is at least 0 when the
    importance is at least 0 and the semantic term is absent or not
    negative.  Every result [search_memories] returns carries a score in
    [0, 1]. *)
Theorem relevance_capped_above cos api (vs : VectorStore) :
  (forall m q qe,
     _calculate_relevance cos vs m q qe == min1 (weighted_sum cos vs m q qe)
     /\ _calculate_relevance cos vs m q qe <= 1)
  /\ (forall m q qe,
        0 <= importance m -> 0 <= semantic_similarity_of cos vs m qe ->
        0 <= _calculate_relevance cos vs m q qe)
  /\ (forall q r, r ∈ search_memories cos api vs q ->
        0 <= relevance_score r /\ relevance_score r <= 1).
Proof.
  split; [| split].
  - intros m q qe. split; [apply relevance_weighted_sum | apply min1_le_1].
  - intros m q qe. apply relevance_nonneg.
  - intros q r Hin. apply search_memories_results_valid in Hin.
    apply scan_entry_ok in Hin as (_ & _ & H0 & H1). auto.
Qed.

(** ** Ranking *)

(** C3 (as the code has it). For a query with a non-negative
    [max_results], [search_memories] returns the first [max_results]
    entries of the stable descending sort, by relevance score alone, of the
    results collected in cache order: the answer is descending by score,
    results of equal score keep the order of the cache, and the answer has
    at most [max_results] entries. *)
Theorem search_memories_ranking cos api (vs : VectorStore) (q : MemoryQuery) :
  (0 <= max_results q)%Z ->
  exists results,
    search_memories cos api vs q = slice_to (max_results q) (sort_by_relevance results)
    /\ map memory results `sublist_of` map snd (_memory_cache vs)
    /\ descending (search_memories cos api vs q)
    /\ (forall s, with_score s (sort_by_relevance results) = with_score s results)
    /\ (length (search_memories cos api vs q) <= Z.to_nat (max_results q))%nat.
Proof.
  intros Hn. destruct (search_memories_shape cos api vs q) as (results & E & _ & _ & Hsub).
  exists results. rewrite E. repeat split.
  - exact Hsub.
  - apply slice_to_descending, sort_by_relevance_descending.
  - intros s. apply sort_by_relevance_stable.
  - apply slice_to_length, Hn.
Qed.

(** The record "n1" was embedded as [-1], the query "up" as [1]: their
    cosine is -1, nothing matches lexically and the importance is 0, so
    [_calculate_relevance] returns -0.7, below the interval [0, 1]. *)
Lemma relevance_negative_counterexample :
  valid_memory Sample.m_notes
  /\ _memory_embeddings Sample.vs_notes !! "n1" = Some [-1]
  /\ query_embedding_of Sample.api_updown Sample.vs_notes Sample.q_up = Some [1]
  /\ _calculate_relevance Sample.cosine_1d Sample.vs_notes Sample.m_notes Sample.q_up
       (query_embedding_of Sample.api_updown Sample.vs_notes Sample.q_up) == - (7 # 10)
  /\ ~ (0 <= _calculate_relevance Sample.cosine_1d Sample.vs_notes Sample.m_notes
               Sample.q_up
               (query_embedding_of Sample.api_updown Sample.vs_notes Sample.q_up)).
Proof.
  split; [split; vm_compute; discriminate |].
  split; [vm_compute; reflexivity |].
  split; [vm_compute; reflexivity |].
  split; [vm_compute; reflexivity |].
  vm_compute. intros H. apply H. reflexivity.
Qed.

Lemma relevance_capped_above_witness :
  0 <= importance Sample.m_old
  /\ 0 <= semantic_similarity_of Sample.cosine_1d Sample.vs_ties Sample.m_old None
  /\ 0 <= _calculate_relevance Sample.cosine_1d Sample.vs_ties Sample.m_old Sample.q_sync None
  /\ Forall (fun r => 0 <= relevance_score r /\ relevance_score r <= 1)
       (search_memories Sample.cosine_1d Sample.no_api Sample.vs_ties Sample.q_sync).
Proof.
  assert (Hi : 0 <= importance Sample.m_old) by (vm_compute; discriminate).
  assert (Hs : 0 <= semantic_similarity_of Sample.cosine_1d Sample.vs_ties Sample.m_old None)
    by (vm_compute; discriminate).
  split; [exact Hi |]. split; [exact Hs |]. split.
  - exact (proj1 (proj2 (relevance_capped_above Sample.cosine_1d Sample.no_api Sample.vs_ties))
             Sample.m_old Sample.q_sync None Hi Hs).
  - apply Forall_forall. intros r Hr.
    exact (proj2 (proj2 (relevance_capped_above Sample.cosine_1d Sample.no_api Sample.vs_ties))
             Sample.q_sync r Hr).
Defined.

(** Three cached records score 0.12 for the query "sync".  The answer lists
    them in cache order "a", "c", "b": the record of importance 0 stands
    before the one of importance 3, and of the two records of importance 0
    the one accessed earlier stands first.  Breaking ties by importance and recency would
    give "b", "c", "a". *)
Lemma ranking_ties_counterexample :
  let answer :=
    search_memories Sample.cosine_1d Sample.no_api Sample.vs_ties Sample.q_sync in
  map (fun r => id (memory r)) answer = ["a"; "c"; "b"]
  /\ forallb (fun r => Qeq_bool (relevance_score r) (12 # 100)) answer = true
  /\ importance Sample.m_old < importance Sample.m_important
  /\ (last_accessed Sample.m_old < last_accessed Sample.m_new)%Z
  /\ ranked answer = false.
Proof.
  cbv zeta. repeat split; vm_compute; reflexivity.
Qed.

Lemma search_memories_ranking_witness :
  (0 <= max_results Sample.q_sync)%Z
  /\ exists results,
       search_memories Sample.cosine_1d Sample.no_api Sample.vs_ties Sample.q_sync
       = slice_to (max_results Sample.q_sync) (sort_by_relevance results)
       /\ map memory results `sublist_of` map snd (_memory_cache Sample.vs_ties)
       /\ descending
            (search_memories Sample.cosine_1d Sample.no_api Sample.vs_ties Sample.q_sync)
       /\ (forall s, with_score s (sort_by_relevance results) = with_score s results)
       /\ (length (search_memories Sample.cosine_1d Sample.no_api Sample.vs_ties Sample.q_sync)
           <= Z.to_nat (max_results Sample.q_sync))%nat.
Proof.
  assert (H : (0 <= max_results Sample.q_sync)%Z) by (vm_compute; discriminate).
  split; [exact H |].
  exact (search_memories_ranking Sample.cosine_1d Sample.no_api Sample.vs_ties Sample.q_sync H).
Defined.

(** ** The cache of the search index *)

Lemma cache_get_set_same (k : string) (v : Memory) (d : list (string * Memory)) :
  cache_get k (cache_set k v d) = Some v.
Proof.
  induction d as [| [k' v'] r IH]; simpl.
  - rewrite String.eqb_refl. reflexivity.
  - destruct (String.eqb k k') eqn:E; simpl.
    + rewrite String.eqb_refl. reflexivity.
    + rewrite E. exact IH.
Qed.

Lemma cache_get_set_other (k k' : string) (v : Memory) (d : list (string * Memory)) :
  k <> k' -> cache_get k' (cache_set k v d) = cache_get k' d.
Proof.
  intros Hne. induction d as [| [k0 v0] r IH]; simpl.
  - destruct (String.eqb_spec k' k) as [-> | _]; [contradiction | reflexivity].
  - destruct (String.eqb_spec k k0) as [-> | Hk]; simpl.
    + destruct (String.eqb_spec k' k0) as [-> | _]; [contradiction | reflexivity].
    + destruct (String.eqb k' k0); [reflexivity | exact IH].
Qed.

Lemma cache_mem_set (k k' : string) (v : Memory) (d : list (string * Memory)) :
  cache_mem k' (cache_set k v d) = (String.eqb k k' || cache_mem k' d)%bool.
Proof.
  unfold cache_mem. destruct (String.eqb_spec k k') as [-> | Hne]; simpl.
  - rewrite cache_get_set_same. reflexivity.
  - rewrite cache_get_set_other by exact Hne. reflexivity.
Qed.

Lemma cache_set_keys (k : string) (v : Memory) (d : list (string * Memory)) :
  (list_to_set (map fst (cache_set k v d)) : gset string)
  = {[ k ]} ∪ list_to_set (map fst d).
Proof.
  induction d as [| [k' v'] r IH]; simpl.
  - reflexivity.
  - destruct (String.eqb_spec k k') as [-> | Hne]; simpl.
    + set_solver.
    + rewrite IH. set_solver.
Qed.

Lemma cache_set_present (k : string) (v : Memory) (d : list (string * Memory)) :
  cache_get k d = Some v -> cache_set k v d = d.
Proof.
  induction d as [| [k' v'] r IH]; simpl; [discriminate |].
  destruct (String.eqb_spec k k') as [-> | Hne].
  - intros [= ->]. reflexivity.
  - intros H. rewrite (IH H). reflexivity.
Qed.

Lemma store_memory_cache (api : string -> option Embedding) (vs : VectorStore) (m : Memory) :
  _memory_cache (store_memory api vs m) = cache_set (id m) m (_memory_cache vs).
Proof.
  unfold store_memory. destruct (_generate_embedding api (cache_write vs m) m); reflexivity.
Qed.


Lemma cache_write_keeps_invariant (vs : VectorStore) (m : Memory) :
  embeddings_cached vs -> embeddings_cached (cache_write vs m).
Proof.
  unfold embeddings_cached, cache_keys, cache_write. simpl. intros H.
  rewrite cache_set_keys. set_solver.
Qed.

Lemma store_memory_keeps_invariant (api : string -> option Embedding)
    (vs : VectorStore) (m : Memory) :
  embeddings_cached vs -> embeddings_cached (store_memory api vs m).
Proof.
  intros H. apply (cache_write_keeps_invariant vs m) in H.
  unfold store_memory. destruct (_generate_embedding api (cache_write vs m) m); [| exact H].
  revert H. unfold embeddings_cached, cache_keys, embedding_write, cache_write. simpl.
  rewrite cache_set_keys, dom_insert_L. set_solver.
Qed.

Lemma run_call_keeps_invariant cos (vs : VectorStore) (c : IndexCall) :
  embeddings_cached vs -> embeddings_cached (run_call cos vs c).1.
Proof.
  destruct c as [api m | api q]; simpl; [apply store_memory_keeps_invariant | tauto].
Qed.

Lemma run_call_keeps_keys cos (vs : VectorStore) (c : IndexCall) :
  cache_keys vs ⊆ cache_keys (run_call cos vs c).1.
Proof.
  destruct c as [api m | api q]; simpl; [| reflexivity].
  unfold cache_keys. rewrite store_memory_cache, cache_set_keys. set_solver.
Qed.

Lemma run_calls_keeps_invariant cos (cs : list IndexCall) (vs : VectorStore) :
  embeddings_cached vs -> embeddings_cached (run_calls cos vs cs).
Proof.
  revert vs. induction cs as [| c r IH]; intros vs H; simpl; [exact H |].
  apply IH, run_call_keeps_invariant, H.
Qed.

(** C10. In every state of the search index reached from [__init__] by
    calls of [store_memory] and [search_memories], every identifier with a
    cached embedding has a cached record; this also holds between the two
    writes of [store_memory] (the cache is written first); and no call
    removes a key from the cache. *)
Theorem embeddings_subset_of_cache cos (model : option SentenceModel)
    (calls : list IndexCall) :
  let vs := run_calls cos (VectorStore_init model) calls in
  embeddings_cached vs
  /\ (forall m, embeddings_cached (cache_write vs m))
  /\ (forall c, cache_keys vs ⊆ cache_keys (run_call cos vs c).1).
Proof.
  assert (H : embeddings_cached (run_calls cos (VectorStore_init model) calls)).
  { apply run_calls_keeps_invariant. unfold embeddings_cached, VectorStore_init. simpl.
    rewrite dom_empty_L. set_solver. }
  simpl. split; [exact H |]. split.
  - intros m. apply cache_write_keeps_invariant, H.
  - intros c. apply run_call_keeps_keys.
Qed.

(** ** Enumeration of the durable store *)

Lemma load_files_spec (es : list (FilePath * FileContent)) (acc : list Memory) (d : Disk) :
  FileStore.load_files es acc d
  = (Ok (acc ++ omap (record_of d) es), d, omap (warning_of d) es).
Proof.
  revert acc. induction es as [| [p c] r IH]; intros acc; simpl.
  - unfold ret. rewrite app_nil_r. reflexivity.
  - unfold bind, try_except, read_memory, record_of, warning_of in *. simpl.
    destruct (parse d p) as [m | ex]; simpl.
    + rewrite IH. simpl. rewrite <- app_assoc. reflexivity.
    + rewrite IH. reflexivity.
Qed.

Lemma load_types_spec (config : MemoryConfig) (s : MemoryScope) (ts : list MemoryType)
    (acc : list Memory) (d : Disk) :
  FileStore.load_types config s ts acc d
  = (Ok (acc ++ omap (record_of d) (flat_map (visit_type config d s) ts)), d,
     omap (warning_of d) (flat_map (visit_type config d s) ts)).
Proof.
  revert acc. induction ts as [| t r IH]; intros acc.
  - simpl. unfold ret. rewrite app_nil_r. reflexivity.
  - cbn [FileStore.load_types flat_map]. unfold bind, get_disk at 1, visit_type at 1 3.
    cbn beta iota zeta.
    destruct (dir_exists d (TypeDir (get_storage_path config (scope_value s)) s t));
      cbn [negb].
    + rewrite load_files_spec, IH, !omap_app, <- app_assoc. reflexivity.
    + rewrite IH. reflexivity.
Qed.

Lemma load_scopes_spec (config : MemoryConfig) (ss : list MemoryScope)
    (acc : list Memory) (d : Disk) :
  FileStore.load_scopes config ss acc d
  = (Ok (acc ++ omap (record_of d) (flat_map (visit_scope config d) ss)), d,
     omap (warning_of d) (flat_map (visit_scope config d) ss)).
Proof.
  revert acc. induction ss as [| s r IH]; intros acc.
  - simpl. unfold ret. rewrite app_nil_r. reflexivity.
  - cbn [FileStore.load_scopes flat_map]. unfold bind, get_disk at 1, visit_scope at 1 3.
    cbn beta iota zeta.
    destruct (dir_exists d (BaseDir (get_storage_path config (scope_value s)))); cbn [negb andb].
    + destruct (dir_exists d (ScopeDir (get_storage_path config (scope_value s)) s));
        cbn [negb].
      * rewrite load_types_spec, IH, !omap_app, <- app_assoc. reflexivity.
      * rewrite IH. reflexivity.
    + rewrite IH. reflexivity.
Qed.

Lemma load_all_memories_spec (config : MemoryConfig) (d : Disk) :
  FileStore.load_all_memories config d
  = (Ok (well_formed_records config d), d,
     skipped_warnings config d ++ [mkLog DEBUG "load_all_memories" None]).
Proof.
  unfold FileStore.load_all_memories, try_except, bind.
  rewrite load_scopes_spec. reflexivity.
Qed.

Lemma file_get_In (p : FilePath) (c : FileContent) (l : list (FilePath * FileContent)) :
  file_get p l = Some c -> (p, c) ∈ l.
Proof.
  induction l as [| [p' c'] r IH]; simpl; [discriminate |].
  case_bool_decide as Hp.
  - intros [= ->]. subst. apply list_elem_of_here.
  - intros H. apply list_elem_of_further, IH, H.
Qed.

Lemma enumerated_visible (config : MemoryConfig) (d : Disk) (e : FilePath * FileContent) :
  e ∈ enumerated config d <-> e ∈ files d /\ visible config d e.1.
Proof.
  unfold enumerated, visible. rewrite !list_elem_of_In, in_flat_map. split.
  - intros (s & _ & H). unfold visit_scope in H.
    destruct (dir_exists d (BaseDir _)) eqn:Hb; [| destruct H].
    destruct (dir_exists d (ScopeDir _ s)) eqn:Hs; [| destruct H].
    cbn [andb] in H. apply in_flat_map in H as (t & _ & H). unfold visit_type, glob in H.
    destruct (dir_exists d (TypeDir _ s t)) eqn:Ht; [| destruct H].
    apply list_elem_of_In, list_elem_of_filter in H as [(Hpb & Hps & Hpt) H].
    apply list_elem_of_In in H. subst s t. rewrite Hpb. auto.
  - intros (Hin & Hbase & Hb & Hs & Ht).
    exists (path_scope e.1). split.
    { destruct (path_scope e.1); simpl; auto. }
    unfold visit_scope. rewrite <- Hbase, Hb, Hs. cbn [andb]. apply in_flat_map.
    exists (path_type e.1). split.
    { destruct (path_type e.1); simpl; auto 10. }
    unfold visit_type, glob. rewrite <- Hbase, Ht.
    apply list_elem_of_In, list_elem_of_filter. split; [auto |].
    apply list_elem_of_In, Hin.
Qed.

(** C8. [load_all_memories] never raises: it returns the records of all
    entries that deserialise, in enumeration order, leaves the disk as it
    is, and logs one warning for every entry that fails to deserialise.
    Hence every readable visible file is returned, every returned record
    comes from such a file, and every unreadable visible file is reported
    by a warning. *)
Theorem load_all_memories_skips_malformed (config : MemoryConfig) (d : Disk) :
  FileStore.load_all_memories config d
  = (Ok (well_formed_records config d), d,
     skipped_warnings config d ++ [mkLog DEBUG "load_all_memories" None])
  /\ (forall p m stored_at,
        file_get p (files d) = Some (MemoryJson m stored_at) -> visible config d p ->
        m ∈ well_formed_records config d)
  /\ (forall m, m ∈ well_formed_records config d ->
        exists p stored_at,
          file_get p (files d) = Some (MemoryJson m stored_at) /\ visible config d p)
  /\ (forall p ex,
        file_get p (files d) = Some (Unreadable ex) -> visible config d p ->
        mkLog WARNING (path_stem p) (Some ex) ∈ skipped_warnings config d).
Proof.
  split; [apply load_all_memories_spec |]. split; [| split].
  - intros p m st Hget Hvis. unfold well_formed_records.
    apply list_elem_of_omap. exists (p, MemoryJson m st). split.
    + apply enumerated_visible. split; [apply file_get_In, Hget | exact Hvis].
    + unfold record_of, parse. simpl. rewrite Hget. reflexivity.
  - intros m Hm. unfold well_formed_records in Hm.
    apply list_elem_of_omap in Hm as ([p c] & Hin & Hrec).
    apply enumerated_visible in Hin as [Hin Hvis]. simpl in Hvis.
    unfold record_of, parse in Hrec. simpl in Hrec.
    destruct (file_get p (files d)) as [[m' st | ex] |] eqn:Hget; try discriminate.
    injection Hrec as ->. exists p, st. split; [exact Hget | exact Hvis].
  - intros p ex Hget Hvis. unfold skipped_warnings.
    apply list_elem_of_omap. exists (p, Unreadable ex). split.
    + apply enumerated_visible. split; [apply file_get_In, Hget | exact Hvis].
    + unfold warning_of, parse. simpl. rewrite Hget. reflexivity.
Qed.

Lemma load_all_memories_skips_malformed_witness :
  (FileStore.load_all_memories Sample.config Sample.disk).1.1
  = Ok [Sample.m_dup_global; Sample.m_dup_project]
  /\ Sample.m_dup_project ∈ well_formed_records Sample.config Sample.disk
  /\ mkLog WARNING "broken" (Some Sample.corrupt)
     ∈ skipped_warnings Sample.config Sample.disk.
Proof.
  pose proof (load_all_memories_skips_malformed Sample.config Sample.disk)
    as (Hall & Hgood & _ & Hbad).
  split; [rewrite Hall; vm_compute; reflexivity |]. split.
  - apply (Hgood Sample.p_dup_project Sample.m_dup_project 11%Z).
    + vm_compute. reflexivity.
    + repeat split; vm_compute; reflexivity.
  - apply (Hbad Sample.p_broken Sample.corrupt).
    + vm_compute. reflexivity.
    + repeat split; vm_compute; reflexivity.
Defined.

(** ** Reconciliation *)

Lemma store_memory_cache_mem (api : string -> option Embedding) (vs : VectorStore)
    (m : Memory) (k : string) :
  cache_mem k (_memory_cache (store_memory api vs m))
  = (String.eqb (id m) k || cache_mem k (_memory_cache vs))%bool.
Proof. rewrite store_memory_cache. apply cache_mem_set. Qed.

Lemma sync_loop_keeps_cached (api : string -> option Embedding) (ms : list Memory)
    (vs : VectorStore) (n : Z) (k : string) :
  cache_mem k (_memory_cache vs) = true ->
  cache_mem k (_memory_cache (sync_loop api vs ms n).1) = true.
Proof.
  revert vs n. induction ms as [| m r IH]; intros vs n H; simpl; [exact H |].
  destruct (cache_mem (id m) (_memory_cache vs)); simpl.
  - apply IH, H.
  - apply IH. rewrite store_memory_cache_mem, H. apply orb_true_r.
Qed.

Lemma sync_loop_covers (api : string -> option Embedding) (ms : list Memory)
    (vs : VectorStore) (n : Z) (m : Memory) :
  m ∈ ms -> cache_mem (id m) (_memory_cache (sync_loop api vs ms n).1) = true.
Proof.
  revert vs n. induction ms as [| m0 r IH]; intros vs n Hin.
  - apply not_elem_of_nil in Hin. contradiction.
  - apply elem_of_cons in Hin as [-> | Hin]; simpl.
    + destruct (cache_mem (id m0) (_memory_cache vs)) eqn:E; simpl.
      * apply sync_loop_keeps_cached, E.
      * apply sync_loop_keeps_cached. rewrite store_memory_cache_mem, String.eqb_refl.
        reflexivity.
    + destruct (cache_mem (id m0) (_memory_cache vs)); simpl; apply IH, Hin.
Qed.

Lemma sync_loop_noop (api : string -> option Embedding) (ms : list Memory)
    (vs : VectorStore) (n : Z) :
  (forall m, m ∈ ms -> cache_mem (id m) (_memory_cache vs) = true) ->
  sync_loop api vs ms n = (vs, n).
Proof.
  induction ms as [| m r IH]; intros H; simpl; [reflexivity |].
  rewrite (H m) by apply list_elem_of_here. simpl.
  apply IH. intros m' Hm'. apply H, list_elem_of_further, Hm'.
Qed.

(** C6. The index-sync loop of [awaken] is idempotent: the first call
    returns, and a second call right after it, whatever the embedding
    provider answers then, syncs 0 records and returns the same manager
    state; so every cached entry, every cached embedding and every
    relevance score is as the first call left it.  After the first call
    the identifier of every enumerated record is in the cache. *)
Theorem awaken_sync_idempotent (config : MemoryConfig)
    (api1 api2 : string -> option Embedding) (self : MemoryManager) :
  exists self1 n1 self2,
    awaken_sync config api1 self = Ok (self1, n1)
    /\ awaken_sync config api2 self1 = Ok (self2, 0%Z)
    /\ self2 = self1
    /\ Forall (fun m => cache_mem (id m) (_memory_cache (_vector_store self1)) = true)
              (well_formed_records config (_file_store self))
    /\ forall cos m q qe,
         _calculate_relevance cos (_vector_store self2) m q qe
         = _calculate_relevance cos (_vector_store self1) m q qe.
Proof.
  unfold awaken_sync. rewrite load_all_memories_spec.
  destruct (sync_loop api1 (_vector_store self)
              (well_formed_records config (_file_store self)) 0%Z) as [vs1 n1] eqn:E1.
  assert (Hcov : forall m, m ∈ well_formed_records config (_file_store self) ->
                   cache_mem (id m) (_memory_cache vs1) = true).
  { intros m Hm.
    pose proof (sync_loop_covers api1 _ (_vector_store self) 0%Z m Hm) as H.
    rewrite E1 in H. exact H. }
  exists (mkManager (_file_store self) vs1), n1, (mkManager (_file_store self) vs1).
  split; [reflexivity |]. split.
  { simpl. rewrite load_all_memories_spec.
    rewrite (sync_loop_noop api2 _ vs1 0%Z Hcov). reflexivity. }
  split; [reflexivity |]. split; [| reflexivity].
  apply Forall_forall. exact Hcov.
Qed.

(** ** The durable store *)

Lemma same_files_refl (d : Disk) : same_files d d.
Proof. repeat split. Qed.

Lemma same_files_trans (d1 d2 d3 : Disk) :
  same_files d1 d2 -> same_files d2 d3 -> same_files d1 d3.
Proof.
  intros (Hf & Hd & Hi) (Hf' & Hd' & Hi'). repeat split; congruence.
Qed.

Lemma keeps_ret {A} (a : A) : keeps_files (ret a).
Proof. intros d. apply same_files_refl. Qed.

Lemma keeps_raise {A} (e : Exn) : keeps_files (raise e : IO A).
Proof. intros d. apply same_files_refl. Qed.

Lemma keeps_logger (lvl : Level) (what : string) (e : option Exn) :
  keeps_files (logger lvl what e).
Proof. intros d. apply same_files_refl. Qed.

Lemma keeps_bind {A B} (c : IO A) (k : A -> IO B) :
  keeps_files c -> (forall a, keeps_files (k a)) -> keeps_files (bind c k).
Proof.
  intros Hc Hk d. unfold bind. specialize (Hc d).
  destruct (c d) as [[[a | e] d1] l1]; simpl in *; [| exact Hc].
  specialize (Hk a d1). destruct (k a d1) as [[r d2] l2]. simpl in *.
  eapply same_files_trans; eassumption.
Qed.

Lemma keeps_try_except {A} (c : IO A) (h : Exn -> IO A) :
  keeps_files c -> (forall e, keeps_files (h e)) -> keeps_files (try_except c h).
Proof.
  intros Hc Hh d. unfold try_except. specialize (Hc d).
  destruct (c d) as [[[a | e] d1] l1]; simpl in *; [exact Hc |].
  specialize (Hh e d1). destruct (h e d1) as [[r d2] l2]. simpl in *.
  eapply same_files_trans; eassumption.
Qed.

Lemma keeps_get_disk_bind {B} (k : Disk -> IO B) :
  (forall d, keeps_files (k d)) -> keeps_files (bind get_disk k).
Proof. intros Hk. apply keeps_bind; [intros d; apply same_files_refl | exact Hk]. Qed.

Lemma keeps_read_index (base : string) (s : MemoryScope) : keeps_files (read_index base s).
Proof.
  intros d. unfold read_index.
  destruct (index_get base s (index_files d)) as [[ix | e] |]; apply same_files_refl.
Qed.

Lemma keeps_write_index (base : string) (s : MemoryScope) (ix : gmap string IndexEntry) :
  keeps_files (write_index base s ix).
Proof.
  intros d. unfold write_index. destruct (io_fault d (WriteIndex base s)).
  - apply same_files_refl.
  - destruct (dir_exists d (MetaDir base s)); [repeat split | apply same_files_refl].
Qed.

Lemma try_except_never_raises {A} (c : IO A) (h : Exn -> IO A) :
  (forall e, never_raises (h e)) -> never_raises (try_except c h).
Proof.
  intros Hh d. unfold try_except.
  destruct (c d) as [[[a | e] d1] l1]; simpl; [eauto |].
  destruct (Hh e d1) as [a Ha]. destruct (h e d1) as [[r d2] l2]. simpl in *. eauto.
Qed.

Lemma logger_never_raises (lvl : Level) (what : string) (e : option Exn) :
  never_raises (logger lvl what e).
Proof. intros d. exists tt. reflexivity. Qed.

(** [_update_index] never raises and touches no memory file. *)
Lemma update_index_total (config : MemoryConfig) (m : Memory) :
  never_raises (FileStore._update_index config m)
  /\ keeps_files (FileStore._update_index config m).
Proof.
  unfold FileStore._update_index. split.
  - apply try_except_never_raises. intros e. apply logger_never_raises.
  - apply keeps_try_except; [| intros e; apply keeps_logger].
    apply keeps_get_disk_bind. intros d. apply keeps_bind.
    + destruct (index_get _ _ _); [apply keeps_read_index | apply keeps_ret].
    + intros ix. apply keeps_write_index.
Qed.

Lemma keeps_remove_from_index_loop (config : MemoryConfig) (memory_id : string)
    (ss : list MemoryScope) :
  keeps_files (FileStore.remove_from_index_loop config memory_id ss).
Proof.
  induction ss as [| s rest IH]; simpl; [apply keeps_ret |].
  apply keeps_get_disk_bind. intros d.
  destruct (index_get _ _ _); [| exact IH].
  apply keeps_bind; [apply keeps_read_index |].
  intros ix. destruct (ix !! memory_id); [apply keeps_write_index | exact IH].
Qed.

(** [_remove_from_index] never raises and touches no memory file. *)
Lemma remove_from_index_total (config : MemoryConfig) (memory_id : string) :
  never_raises (FileStore._remove_from_index config memory_id)
  /\ keeps_files (FileStore._remove_from_index config memory_id).
Proof.
  unfold FileStore._remove_from_index. split.
  - apply try_except_never_raises. intros e. apply logger_never_raises.
  - apply keeps_try_except; [apply keeps_remove_from_index_loop |].
    intros e. apply keeps_logger.
Qed.

Lemma file_get_remove (p p' : FilePath) (l : list (FilePath * FileContent)) :
  file_get p' (file_remove p l) = if decide (p' = p) then None else file_get p' l.
Proof.
  unfold file_remove. induction l as [| [p0 c0] r IH]; simpl.
  - destruct (decide (p' = p)); reflexivity.
  - rewrite filter_cons. simpl. destruct (decide (p ≠ p0)) as [Hne | Heq]; simpl.
    + case_bool_decide; [| exact IH].
      subst p0. destruct (decide (p' = p)); [congruence | reflexivity].
    + apply dec_stable in Heq. subst p0. rewrite IH.
      destruct (decide (p' = p)) as [-> | Hn]; [reflexivity |].
      rewrite bool_decide_eq_false_2 by exact Hn. reflexivity.
Qed.

Lemma file_get_set_same (p : FilePath) (c : FileContent) (l : list (FilePath * FileContent)) :
  file_get p (file_set p c l) = Some c.
Proof.
  induction l as [| [p' c'] r IH]; simpl.
  - rewrite bool_decide_eq_true_2 by reflexivity. reflexivity.
  - case_bool_decide as Hp; simpl.
    + rewrite bool_decide_eq_true_2 by reflexivity. reflexivity.
    + rewrite bool_decide_eq_false_2 by exact Hp. exact IH.
Qed.

Lemma file_set_set (p : FilePath) (c1 c2 : FileContent)
    (l : list (FilePath * FileContent)) :
  file_set p c2 (file_set p c1 l) = file_set p c2 l.
Proof.
  induction l as [| [p' c'] r IH]; simpl.
  - rewrite bool_decide_eq_true_2 by reflexivity. reflexivity.
  - case_bool_decide as Hp; simpl.
    + rewrite bool_decide_eq_true_2 by reflexivity. reflexivity.
    + rewrite bool_decide_eq_false_2 by exact Hp. rewrite IH. reflexivity.
Qed.

(** A failed write fails at [open], with the disk as it was, or after it,
    with the file empty or partial. *)
Lemma write_file_raises (p : FilePath) (m : Memory) (now : Z) (d : Disk) (e : Exn) :
  (write_file p m now d).1.1 = Raise e ->
  write_file p m now d = (Raise e, d, [])
  \/ write_file p m now d = (Raise e, opened p d, []).
Proof.
  unfold write_file, bind, open_for_writing.
  destruct (io_fault d (OpenFile p)); [simpl; intros [= ->]; left; reflexivity |].
  destruct (dir_exists d _); [| simpl; intros [= <-]; left; reflexivity].
  unfold json_dump. fold (opened p d). destruct (json_data m) as [data | e1].
  - change (io_fault (opened p d)) with (io_fault d).
    destruct (io_fault d (DumpFile p)); [| discriminate].
    simpl. intros [= ->]. right. reflexivity.
  - simpl. intros [= ->]. right. reflexivity.
Qed.

Lemma write_file_ok (p : FilePath) (m : Memory) (now : Z) (d : Disk) :
  (write_file p m now d).1.1 = Ok tt ->
  exists data, json_data m = Ok data
               /\ write_file p m now d = (Ok tt, dumped p data now d, []).
Proof.
  unfold write_file, bind, open_for_writing.
  destruct (io_fault d (OpenFile p)); [discriminate |].
  destruct (dir_exists d _); [| discriminate].
  unfold json_dump. fold (opened p d). destruct (json_data m) as [data | e1]; [| discriminate].
  change (io_fault (opened p d)) with (io_fault d).
  destruct (io_fault d (DumpFile p)); [discriminate |].
  intros _. exists data. split; [reflexivity |].
  unfold dumped, opened. simpl. rewrite file_set_set. reflexivity.
Qed.

(** C7 (as the code has it). When writing the record file fails, at
    [open] or while the JSON text is written, [store_memory] logs the
    failure at level ERROR and re-raises the very exception of the failed
    write (whatever its class); nothing is done after the failed write:
    the lookup index is not updated.  When the record file is written,
    [store_memory] returns normally and the file holds the data written,
    even if updating the lookup index failed: that failure is logged, not
    raised. *)
Theorem store_memory_reraises (config : MemoryConfig) (now : Z) (m : Memory) (d : Disk) :
  let p := FileStore.memory_file config (scope m) (memory_type m) (id m) in
  (forall e, (write_file p m now d).1.1 = Raise e ->
     FileStore.store_memory config now m d
     = (Raise e, (write_file p m now d).1.2, [mkLog ERROR (id m) (Some e)])
     /\ index_files (write_file p m now d).1.2 = index_files d)
  /\ ((write_file p m now d).1.1 = Ok tt ->
      (FileStore.store_memory config now m d).1.1 = Ok tt
      /\ exists data,
           json_data m = Ok data
           /\ file_get p (files (FileStore.store_memory config now m d).1.2)
              = Some (written data now)).
Proof.
  cbv zeta. split.
  - intros e He. unfold FileStore.store_memory, try_except, bind.
    destruct (write_file_raises _ m now d e He) as [Hw | Hw]; rewrite Hw; split; reflexivity.
  - intros Hok. apply write_file_ok in Hok as (data & Hdata & Hok).
    unfold FileStore.store_memory, try_except, bind. rewrite Hok.
    destruct (update_index_total config m) as [Hn Hk].
    set (d1 := dumped _ data now d).
    specialize (Hn d1). specialize (Hk d1).
    destruct (FileStore._update_index config m d1) as [[r d2] l2]. simpl in *.
    destruct Hn as [[] ->]. simpl. destruct Hk as (Hf & _). rewrite Hf.
    split; [reflexivity |]. exists data. split; [exact Hdata | apply file_get_set_same].
Qed.

(** On a full disk the write of the record file fails with an [OSError];
    [store_memory] raises that [OSError], not a [PersistenceError].  With a
    lookup index that cannot be written, [store_memory] returns normally
    and only a warning is logged. *)
Lemma store_memory_error_class_counterexample :
  (write_file (FileStore.memory_file Sample.config GLOBAL SEMANTIC "p1")
     Sample.m_python 7 Sample.disk_full).1.1 = Raise Sample.disk_full_error
  /\ (FileStore.store_memory Sample.config 7 Sample.m_python Sample.disk_full).1.1
     = Raise (mkExn "OSError" "No space left on device")
  /\ exn_class Sample.disk_full_error <> "PersistenceError"
  /\ (FileStore.store_memory Sample.config 7 Sample.m_python Sample.disk_index_readonly).1.1
     = Ok tt
  /\ (FileStore.store_memory Sample.config 7 Sample.m_python Sample.disk_index_readonly).2
     = [mkLog WARNING "index" (Some Sample.index_error); mkLog DEBUG "p1" None].
Proof.
  repeat split; try (vm_compute; reflexivity). vm_compute. discriminate.
Qed.

Lemma store_memory_reraises_witness :
  (write_file (FileStore.memory_file Sample.config GLOBAL SEMANTIC "p1")
     Sample.m_python 7 Sample.disk_full).1.1 = Raise Sample.disk_full_error
  /\ (FileStore.store_memory Sample.config 7 Sample.m_python Sample.disk_full).1.1
     = Raise Sample.disk_full_error
  /\ (FileStore.store_memory Sample.config 7 Sample.m_python Sample.disk_full).2
     = [mkLog ERROR "p1" (Some Sample.disk_full_error)]
  /\ (write_file (FileStore.memory_file Sample.config GLOBAL SEMANTIC "p1")
        Sample.m_python 7 Sample.disk).1.1 = Ok tt
  /\ (FileStore.store_memory Sample.config 7 Sample.m_python Sample.disk).1.1 = Ok tt.
Proof.
  assert (H1 : (write_file (FileStore.memory_file Sample.config GLOBAL SEMANTIC "p1")
                  Sample.m_python 7 Sample.disk_full).1.1
               = Raise Sample.disk_full_error) by (vm_compute; reflexivity).
  assert (H2 : (write_file (FileStore.memory_file Sample.config GLOBAL SEMANTIC "p1")
                  Sample.m_python 7 Sample.disk).1.1 = Ok tt)
    by (vm_compute; reflexivity).
  split; [exact H1 |]. split.
  - rewrite (proj1 (proj1 (store_memory_reraises Sample.config 7 Sample.m_python
                             Sample.disk_full) Sample.disk_full_error H1)).
    reflexivity.
  - split.
    { rewrite (proj1 (proj1 (store_memory_reraises Sample.config 7 Sample.m_python
                               Sample.disk_full) Sample.disk_full_error H1)).
      reflexivity. }
    split; [exact H2 |].
    exact (proj1 (proj2 (store_memory_reraises Sample.config 7 Sample.m_python Sample.disk)
                    H2)).
Defined.

(** ** Lookup and deletion by identifier *)

Lemma for_first_map {A B C} (l : list A) (f : A -> option B) (g : B -> C) :
  for_first l (fun x => option_map g (f x)) = option_map g (for_first l f).
Proof.
  induction l as [| x r IH]; simpl; [reflexivity |].
  destruct (f x); simpl; [reflexivity | exact IH].
Qed.

Lemma for_first_ext {A B} (l : list A) (f g : A -> option B) :
  (forall x, f x = g x) -> for_first l f = for_first l g.
Proof.
  intros H. induction l as [| x r IH]; simpl; [reflexivity |]. rewrite H, IH. reflexivity.
Qed.

Lemma for_first_some {A B} (l : list A) (f : A -> option B) (x : A) :
  x ∈ l -> is_Some (f x) -> is_Some (for_first l f).
Proof.
  intros Hin Hx. induction l as [| y r IH]; simpl.
  - apply not_elem_of_nil in Hin. contradiction.
  - destruct (f y) eqn:E; [eauto |].
    apply elem_of_cons in Hin as [-> | Hin]; [| apply IH, Hin].
    rewrite E in Hx. destruct Hx. discriminate.
Qed.

Lemma for_first_found {A B} (l : list A) (f : A -> option B) (b : B) :
  for_first l f = Some b -> exists x, x ∈ l /\ f x = Some b.
Proof.
  induction l as [| y r IH]; simpl; [discriminate |].
  destruct (f y) eqn:E.
  - intros [= ->]. exists y. split; [apply list_elem_of_here | exact E].
  - intros H. destruct (IH H) as (x & Hin & Hx).
    exists x. split; [apply list_elem_of_further, Hin | exact Hx].
Qed.

Lemma all_memory_types_complete (t : MemoryType) : t ∈ all_memory_types.
Proof. unfold all_memory_types. destruct t; set_solver. Qed.

Lemma first_type_exists (config : MemoryConfig) (d : Disk) (s : MemoryScope)
    (memory_id : string) (t : MemoryType) :
  file_exists d (FileStore.memory_file config s t memory_id) = true ->
  exists t0, first_type_with_file config d s memory_id = Some t0
             /\ file_exists d (FileStore.memory_file config s t0 memory_id) = true.
Proof.
  intros H. unfold first_type_with_file.
  destruct (for_first_some all_memory_types
              (fun t => if file_exists d (FileStore.memory_file config s t memory_id)
                        then Some t else None) t) as [t0 E].
  - apply all_memory_types_complete.
  - rewrite H. eauto.
  - exists t0. split; [exact E |].
    apply for_first_found in E as (x & _ & Hx).
    destruct (file_exists d (FileStore.memory_file config s x memory_id)) eqn:Ex;
      [| discriminate].
    injection Hx as <-. exact Ex.
Qed.

Lemma locate_global (config : MemoryConfig) (d : Disk) (memory_id : string)
    (t0 : MemoryType) :
  dir_exists d (BaseDir (get_storage_path config (scope_value GLOBAL))) = true ->
  first_type_with_file config d GLOBAL memory_id = Some t0 ->
  FileStore.locate config d memory_id
  = Some (FileStore.memory_file config GLOBAL t0 memory_id).
Proof.
  intros Hdir Hfirst. unfold FileStore.locate. cbn [for_first]. rewrite Hdir. cbn [negb].
  rewrite (for_first_ext _ _
             (fun t => option_map (fun t => FileStore.memory_file config GLOBAL t memory_id)
                         (if file_exists d (FileStore.memory_file config GLOBAL t memory_id)
                          then Some t else None))).
  - rewrite for_first_map. fold (first_type_with_file config d GLOBAL memory_id).
    rewrite Hfirst. reflexivity.
  - intros t. destruct (file_exists d _); reflexivity.
Qed.

Lemma unlink_ok (p : FilePath) (d : Disk) :
  io_fault d (UnlinkFile p) = None -> file_exists d p = true ->
  unlink p d
  = (Ok tt, mkDisk (dirs d) (file_remove p (files d)) (index_files d) (io_fault d), []).
Proof. intros Hf He. unfold unlink. rewrite Hf, He. reflexivity. Qed.

(** Deleting a located file: the file is gone, every other file is as it
    was. *)
Lemma delete_memory_located (config : MemoryConfig) (d : Disk) (memory_id : string)
    (p : FilePath) :
  FileStore.locate config d memory_id = Some p ->
  io_fault d (UnlinkFile p) = None -> file_exists d p = true ->
  exists d' log,
    FileStore.delete_memory config memory_id d = (Ok true, d', log)
    /\ files d' = file_remove p (files d).
Proof.
  intros Hloc Hfault Hex.
  unfold FileStore.delete_memory, try_except, bind, get_disk. rewrite Hloc.
  rewrite (unlink_ok p d Hfault Hex).
  destruct (remove_from_index_total config memory_id) as [Hn Hk].
  set (d1 := mkDisk (dirs d) _ (index_files d) (io_fault d)).
  specialize (Hn d1). specialize (Hk d1).
  destruct (FileStore._remove_from_index config memory_id d1) as [[r d2] l2]. simpl in *.
  destruct Hn as [[] ->]. simpl. destruct Hk as (Hf & _).
  eexists _, _. split; [reflexivity | exact Hf].
Qed.

(** C9. When an identifier has a file in the global scope and a file in
    the project scope (and the global storage path exists), the probe
    stops at the global file of the first memory type that has one:
    [load_memory] returns the record that file holds, and [delete_memory],
    when the unlink does not fail, returns true, removes that file only,
    and leaves the project-scope file on disk. *)
Theorem global_copy_shadows_project (config : MemoryConfig) (d : Disk)
    (memory_id : string) (tg tp : MemoryType) :
  dir_exists d (BaseDir (get_storage_path config (scope_value GLOBAL))) = true ->
  file_exists d (FileStore.memory_file config GLOBAL tg memory_id) = true ->
  file_exists d (FileStore.memory_file config PROJECT tp memory_id) = true ->
  exists t0,
    let pg := FileStore.memory_file config GLOBAL t0 memory_id in
    first_type_with_file config d GLOBAL memory_id = Some t0
    /\ FileStore.locate config d memory_id = Some pg
    /\ (forall m, parse d pg = Ok m ->
          FileStore.load_memory config memory_id d = (Ok (Some m), d, []))
    /\ (io_fault d (UnlinkFile pg) = None ->
        exists d' log,
          FileStore.delete_memory config memory_id d = (Ok true, d', log)
          /\ file_exists d' pg = false
          /\ (forall p, p <> pg -> file_get p (files d') = file_get p (files d))
          /\ file_exists d' (FileStore.memory_file config PROJECT tp memory_id) = true).
Proof.
  intros Hdir Hg Hp.
  destruct (first_type_exists config d GLOBAL memory_id tg Hg) as (t0 & Hfirst & Hex).
  pose proof (locate_global config d memory_id t0 Hdir Hfirst) as Hloc.
  exists t0. cbv zeta. split; [exact Hfirst |]. split; [exact Hloc |]. split.
  - intros m Hm.
    unfold FileStore.load_memory, try_except, bind, get_disk, read_memory, ret.
    rewrite Hloc, Hm. reflexivity.
  - intros Hfault.
    destruct (delete_memory_located config d memory_id _ Hloc Hfault Hex)
      as (d' & log & Hdel & Hfiles).
    exists d', log. split; [exact Hdel |].
    assert (Hother : forall p, p <> FileStore.memory_file config GLOBAL t0 memory_id ->
                       file_get p (files d') = file_get p (files d)).
    { intros p Hne. rewrite Hfiles, file_get_remove.
      destruct (decide _); [contradiction | reflexivity]. }
    split; [| split; [exact Hother |]].
    + unfold file_exists. rewrite Hfiles, file_get_remove.
      destruct (decide _); [reflexivity | contradiction].
    + unfold file_exists in *. rewrite Hother; [exact Hp |]. discriminate.
Qed.

Lemma global_copy_shadows_project_witness :
  FileStore.load_memory Sample.config "dup" Sample.disk
  = (Ok (Some Sample.m_dup_global), Sample.disk, [])
  /\ exists d' log,
       FileStore.delete_memory Sample.config "dup" Sample.disk = (Ok true, d', log)
       /\ file_exists d' Sample.p_dup_global = false
       /\ file_exists d' Sample.p_dup_project = true.
Proof.
  assert (Hdir : dir_exists Sample.disk
                   (BaseDir (get_storage_path Sample.config (scope_value GLOBAL))) = true)
    by (vm_compute; reflexivity).
  assert (Hg : file_exists Sample.disk
                 (FileStore.memory_file Sample.config GLOBAL SEMANTIC "dup") = true)
    by (vm_compute; reflexivity).
  assert (Hp : file_exists Sample.disk
                 (FileStore.memory_file Sample.config PROJECT SEMANTIC "dup") = true)
    by (vm_compute; reflexivity).
  destruct (global_copy_shadows_project Sample.config Sample.disk "dup" SEMANTIC SEMANTIC
              Hdir Hg Hp) as (t0 & Hfirst & _ & Hload & Hdel).
  assert (Ht0 : t0 = SEMANTIC).
  { assert (E : first_type_with_file Sample.config Sample.disk GLOBAL "dup" = Some SEMANTIC)
      by (vm_compute; reflexivity).
    rewrite E in Hfirst. injection Hfirst as <-. reflexivity. }
  subst t0. split.
  - apply Hload. vm_compute. reflexivity.
  - destruct Hdel as (d' & log & Hd & Hgone & _ & Hkept); [vm_compute; reflexivity |].
    exists d', log. split; [exact Hd |]. split; [exact Hgone | exact Hkept].
Defined.

(** ** Deletion and the search index *)




Lemma cache_set_keyed (m : Memory) (d : list (string * Memory)) :
  Forall (fun km => km.1 = id km.2) d ->
  Forall (fun km => km.1 = id km.2) (cache_set (id m) m d).
Proof.
  induction d as [| [k v] r IH]; simpl; intros H.
  - constructor; [reflexivity | constructor].
  - apply Forall_cons in H as [Hk Hr]. destruct (String.eqb (id m) k).
    + constructor; [reflexivity | exact Hr].
    + constructor; [exact Hk | apply IH, Hr].
Qed.

Lemma store_memory_keyed (api : string -> option Embedding) (vs : VectorStore) (m : Memory) :
  keyed_by_id vs -> keyed_by_id (store_memory api vs m).
Proof.
  unfold keyed_by_id. rewrite store_memory_cache. apply cache_set_keyed.
Qed.

(** Every state of the index reached from [__init__] by calls of
    [store_memory] and [search_memories] is keyed by identifier. *)
Lemma run_calls_keyed cos (model : option SentenceModel) (calls : list IndexCall) :
  keyed_by_id (run_calls cos (VectorStore_init model) calls).
Proof.
  unfold run_calls.
  assert (H : keyed_by_id (VectorStore_init model)) by constructor.
  revert H. generalize (VectorStore_init model) as vs.
  induction calls as [| c rest IH]; intros vs H; [exact H |].
  simpl. apply IH. destruct c as [api m | api q]; simpl; [| exact H].
  apply store_memory_keyed, H.
Qed.

Lemma sync_loop_keyed (api : string -> option Embedding) (ms : list Memory)
    (vs : VectorStore) (n : Z) :
  keyed_by_id vs -> keyed_by_id (sync_loop api vs ms n).1.
Proof.
  revert vs n. induction ms as [| m rest IH]; intros vs n H; [exact H |].
  simpl. destruct (negb _); apply IH; [apply store_memory_keyed |]; exact H.
Qed.





(** After [awaken] the query "global copy" returns the record "dup"; the
    engine's delete returns true for it, and the same query then returns
    nothing. *)
Example delete_hides_dup :
  map (fun r => id (memory r))
    (Engine.query Sample.cosine_1d Sample.no_api Sample.engine Sample.q_global_copy)
  = ["dup"]
  /\ (Engine.delete Sample.config "dup" Sample.engine).1 = Ok true
  /\ Engine.query Sample.cosine_1d Sample.no_api
       (Engine.delete Sample.config "dup" Sample.engine).2 Sample.q_global_copy = [].
Proof. repeat split; vm_compute; reflexivity. Qed.

(** ** Degraded mode *)











Lemma cache_set_length (k : string) (v : Memory) (d : list (string * Memory)) :
  (length d <= length (cache_set k v d))%nat.
Proof.
  induction d as [| [k' v'] r IH]; simpl; [lia |].
  destruct (String.eqb k k'); simpl; lia.
Qed.

(** An entry over the threshold that passes the filters yields a result,
    unless its score is negative. *)
Lemma scan_entry_passes cos (vs : VectorStore) (q : MemoryQuery) (qe : option Embedding)
    (m : Memory) :
  min_relevance q <= _calculate_relevance cos vs m q qe ->
  passes_filters q m = true ->
  0 <= _calculate_relevance cos vs m q qe ->
  scan_entry cos vs q qe m
  = Some (Ok (mkResult m (_calculate_relevance cos vs m q qe)
                (_get_match_reasons vs m q) (_get_context_snippet m q))).
Proof.
  intros Hthr Hpass H0. unfold scan_entry.
  apply Qle_bool_iff in Hthr. rewrite Hthr.
  unfold passes_filters in Hpass.
  apply andb_true_iff in Hpass as [Hpass Htags].
  apply andb_true_iff in Hpass as [Htypes Hscopes].
  apply negb_true_iff in Htypes, Hscopes, Htags. rewrite Htypes, Hscopes, Htags.
  unfold new_MemoryResult.
  apply Qle_bool_iff in H0. rewrite H0.
  assert (H1 : Qle_bool (_calculate_relevance cos vs m q qe) 1 = true).
  { apply Qle_bool_iff. apply min1_le_1. }
  rewrite H1. reflexivity.
Qed.



Lemma search_memories_scanned cos api (vs : VectorStore) (q : MemoryQuery)
    (res : list MemoryResult) :
  scanned cos vs q (query_embedding_of api vs q) (_memory_cache vs) = Ok res ->
  search_memories cos api vs q = slice_to (max_results q) (sort_by_relevance res).
Proof.
  unfold search_memories. destruct (_memory_cache vs) as [| e rest].
  - simpl. intros [= <-]. simpl. rewrite slice_to_nil. reflexivity.
  - intros H. rewrite scan_scanned, H. reflexivity.
Qed.




(** * Further properties *)

(** ** The methods of [Memory] *)

Lemma py_min_Qmin (a b : Q) : py_min a b == Qmin a b.
Proof.
  unfold py_min. destruct (Qlt_le_dec b a) as [H | H].
  - symmetry. apply Q.min_r, Qlt_le_weak, H.
  - symmetry. apply Q.min_l, H.
Qed.

Lemma py_max_Qmax (a b : Q) : py_max a b == Qmax a b.
Proof.
  unfold py_max. destruct (Qlt_le_dec a b) as [H | H].
  - symmetry. apply Q.max_r, Qlt_le_weak, H.
  - symmetry. apply Q.max_l, H.
Qed.

(** X1. [update_importance] clamps: whatever the new value, the stored
    importance is max(0, min(10, new)), so the record satisfies the range
    constraint of the model afterwards; a value within [0, 10] is stored as
    it is, and identifier, title, content and tags are untouched. *)
Theorem update_importance_clamps (now : Z) (x : Q) (m : Memory) :
  let m' := update_importance now x m in
  valid_memory m'
  /\ importance m' == Qmax 0 (Qmin 10 x)
  /\ (0 <= x -> x <= 10 -> importance m' == x)
  /\ updated_at m' = Some now
  /\ (id m', title m', content m', tags m') = (id m, title m, content m, tags m).
Proof.
  cbv zeta. unfold valid_memory. simpl.
  assert (E : py_max 0 (py_min 10 x) == Qmax 0 (Qmin 10 x)).
  { rewrite py_max_Qmax. apply Q.max_compat; [reflexivity | apply py_min_Qmin]. }
  split; [| split; [exact E | split; [| split; reflexivity]]].
  - rewrite E. split.
    + apply Q.le_max_l.
    + apply Q.max_lub; [discriminate | apply Q.le_min_l].
  - intros H0 H10. rewrite E, Q.min_r by exact H10. apply Q.max_r, H0.
Qed.

Lemma update_importance_clamps_witness :
  0 <= 7 # 2 /\ 7 # 2 <= 10
  /\ importance (update_importance 5 (7 # 2) Sample.m_python) == 7 # 2.
Proof.
  assert (H0 : 0 <= 7 # 2) by discriminate.
  assert (H1 : 7 # 2 <= 10) by discriminate.
  split; [exact H0 |]. split; [exact H1 |].
  exact (proj1 (proj2 (proj2 (update_importance_clamps 5 (7 # 2) Sample.m_python))) H0 H1).
Defined.

Lemma append_if_absent_NoDup (x : string) (l : list string) :
  x ∉ l -> NoDup l -> NoDup (l ++ [x]).
Proof.
  intros Hx Hl. apply NoDup_app. split; [exact Hl |]. split.
  - intros y Hy Hy'. apply list_elem_of_singleton in Hy'. subst y. contradiction.
  - apply NoDup_singleton.
Qed.

(** X2. [add_tag] and [add_relation] insert without duplicating: the new
    element is present afterwards, every earlier element is kept in place,
    a list without duplicates stays without duplicates, and adding the same
    element a second time changes nothing. *)
Theorem add_tag_deduplicates (x : string) (m : Memory) :
  (x ∈ tags (add_tag x m)
   /\ tags m `prefix_of` tags (add_tag x m)
   /\ (NoDup (tags m) -> NoDup (tags (add_tag x m)))
   /\ add_tag x (add_tag x m) = add_tag x m)
  /\ (x ∈ relations (add_relation x m)
      /\ relations m `prefix_of` relations (add_relation x m)
      /\ (NoDup (relations m) -> NoDup (relations (add_relation x m)))
      /\ add_relation x (add_relation x m) = add_relation x m).
Proof.
  split.
  - unfold add_tag, py_in. case_bool_decide as Hin.
    + rewrite bool_decide_eq_true_2 by exact Hin.
      repeat split; auto; try reflexivity.
    + simpl. rewrite bool_decide_eq_true_2 by set_solver.
      repeat split; [set_solver | apply prefix_app_r; reflexivity |].
      intros Hnd. apply append_if_absent_NoDup; assumption.
  - unfold add_relation, py_in. case_bool_decide as Hin.
    + rewrite bool_decide_eq_true_2 by exact Hin.
      repeat split; auto; try reflexivity.
    + simpl. rewrite bool_decide_eq_true_2 by set_solver.
      repeat split; [set_solver | apply prefix_app_r; reflexivity |].
      intros Hnd. apply append_if_absent_NoDup; assumption.
Qed.

Lemma add_tag_deduplicates_witness :
  NoDup (tags Sample.m_python)
  /\ NoDup (tags (add_tag "asyncio" Sample.m_python))
  /\ NoDup (relations Sample.m_python)
  /\ NoDup (relations (add_relation "k1" Sample.m_python)).
Proof.
  assert (Ht : NoDup (tags Sample.m_python)).
  { apply NoDup_singleton. }
  assert (Hr : NoDup (relations Sample.m_python)).
  { apply NoDup_nil_2. }
  split; [exact Ht |]. split.
  - exact (proj1 (proj2 (proj2 (proj1 (add_tag_deduplicates "asyncio" Sample.m_python)))) Ht).
  - split; [exact Hr |].
    exact (proj1 (proj2 (proj2 (proj2 (add_tag_deduplicates "k1" Sample.m_python)))) Hr).
Defined.

(** ** Queries on the search index *)

Lemma scan_entry_sound cos (vs : VectorStore) (q : MemoryQuery) (qe : option Embedding)
    (m : Memory) (r : MemoryResult) :
  scan_entry cos vs q qe m = Some (Ok r) ->
  r = mkResult m (_calculate_relevance cos vs m q qe)
        (_get_match_reasons vs m q) (_get_context_snippet m q)
  /\ min_relevance q <= _calculate_relevance cos vs m q qe
  /\ passes_filters q m = true.
Proof.
  unfold scan_entry, passes_filters.
  destruct (Qle_bool (min_relevance q) _) eqn:Ethr; [| discriminate].
  destruct (truthy (memory_types q) && _)%bool; [discriminate |].
  destruct (truthy (scopes q) && _)%bool; [discriminate |].
  destruct (truthy (query_tags q) && _)%bool; [discriminate |].
  intros [= H]. apply new_MemoryResult_ok in H as (-> & _ & _).
  apply Qle_bool_iff in Ethr. auto.
Qed.

Lemma passes_filters_scopes (q : MemoryQuery) (m : Memory) (s : MemoryScope)
    (ss : list MemoryScope) :
  passes_filters q m = true -> scopes q = Some (s :: ss) -> scope m ∈ s :: ss.
Proof.
  unfold passes_filters. intros H E. rewrite E in H. simpl in H.
  apply andb_true_iff in H as [H _]. apply andb_true_iff in H as [_ H].
  apply negb_true_iff, negb_false_iff in H. unfold py_in in H.
  apply bool_decide_eq_true in H. exact H.
Qed.

Lemma passes_filters_types (q : MemoryQuery) (m : Memory) (t : MemoryType)
    (ts : list MemoryType) :
  passes_filters q m = true -> memory_types q = Some (t :: ts) -> memory_type m ∈ t :: ts.
Proof.
  unfold passes_filters. intros H E. rewrite E in H. simpl in H.
  apply andb_true_iff in H as [H _]. apply andb_true_iff in H as [H _].
  apply negb_true_iff, negb_false_iff in H. unfold py_in in H.
  apply bool_decide_eq_true in H. exact H.
Qed.

Lemma passes_filters_tags (q : MemoryQuery) (m : Memory) (t : string) (ts : list string) :
  passes_filters q m = true -> query_tags q = Some (t :: ts) ->
  exists tag, tag ∈ t :: ts /\ tag ∈ tags m.
Proof.
  unfold passes_filters. intros H E. rewrite E in H. simpl in H.
  apply andb_true_iff in H as [_ H].
  apply negb_true_iff, negb_false_iff in H.
  change (existsb (fun tag => py_in tag (tags m)) (t :: ts) = true) in H.
  apply existsb_exists in H as (tag & Hin & Htag).
  exists tag. split; [apply list_elem_of_In, Hin |].
  unfold py_in in Htag. apply bool_decide_eq_true in Htag. exact Htag.
Qed.

(** X3. Every result of [search_memories] is sound: its score is the
    relevance of its record for the query and reaches the threshold, and
    its record passes every non-empty filter: its type is among the
    requested types, its scope among the requested scopes, and it carries at
    least one of the requested tags. *)
Theorem search_results_sound cos api (vs : VectorStore) (q : MemoryQuery)
    (r : MemoryResult) :
  r ∈ search_memories cos api vs q ->
  relevance_score r
  = _calculate_relevance cos vs (memory r) q (query_embedding_of api vs q)
  /\ min_relevance q <= relevance_score r
  /\ match_reasons r = _get_match_reasons vs (memory r) q
  /\ (forall t ts, memory_types q = Some (t :: ts) -> memory_type (memory r) ∈ t :: ts)
  /\ (forall s ss, scopes q = Some (s :: ss) -> scope (memory r) ∈ s :: ss)
  /\ (forall t ts, query_tags q = Some (t :: ts) ->
        exists tag, tag ∈ t :: ts /\ tag ∈ tags (memory r)).
Proof.
  intros Hin. apply search_memories_results_valid in Hin.
  apply scan_entry_sound in Hin as (E & Hthr & Hpass).
  assert (Es : relevance_score r
               = _calculate_relevance cos vs (memory r) q (query_embedding_of api vs q))
    by (rewrite E at 1; reflexivity).
  assert (Er : match_reasons r = _get_match_reasons vs (memory r) q)
    by (rewrite E at 1; reflexivity).
  split; [exact Es |]. split; [rewrite Es; exact Hthr |]. split; [exact Er |].
  split; [| split].
  - intros t ts. apply passes_filters_types, Hpass.
  - intros s ss. apply passes_filters_scopes, Hpass.
  - intros t ts. apply passes_filters_tags, Hpass.
Qed.

Lemma scan_entry_without_empty_filters cos (vs : VectorStore) (q : MemoryQuery)
    (qe : option Embedding) (m : Memory) :
  scan_entry cos vs (without_empty_filters q) qe m = scan_entry cos vs q qe m.
Proof.
  unfold scan_entry, without_empty_filters, _calculate_relevance,
    _calculate_keyword_relevance, _get_match_reasons, _get_context_snippet.
  cbn [query memory_types scopes query_tags min_relevance include_context].
  destruct (memory_types q) as [[| t ts] |];
    destruct (scopes q) as [[| s ss] |];
    destruct (query_tags q) as [[| g gs] |]; reflexivity.
Qed.

Lemma scanned_without_empty_filters cos (vs : VectorStore) (q : MemoryQuery)
    (qe : option Embedding) (items : list (string * Memory)) :
  scanned cos vs (without_empty_filters q) qe items = scanned cos vs q qe items.
Proof.
  induction items as [| [k m] rest IH]; simpl; [reflexivity |].
  rewrite scan_entry_without_empty_filters, IH. reflexivity.
Qed.

(** X4. An empty filter list is no filter: a query whose type, scope or tag
    filter is the empty list gets the same answer as the query without that
    filter (it does not exclude every record). *)
Theorem empty_filter_is_no_filter cos api (vs : VectorStore) (q : MemoryQuery) :
  search_memories cos api vs (without_empty_filters q) = search_memories cos api vs q.
Proof.
  unfold search_memories. destruct (_memory_cache vs) as [| e rest]; [reflexivity |].
  rewrite !scan_scanned.
  change (query_embedding_of api vs (without_empty_filters q))
    with (query_embedding_of api vs q).
  rewrite scanned_without_empty_filters. reflexivity.
Qed.

Lemma scan_entry_never_raises_valid cos (vs : VectorStore) (q : MemoryQuery)
    (qe : option Embedding) (m : Memory) (e : Exn) :
  0 <= min_relevance q -> scan_entry cos vs q qe m <> Some (Raise e).
Proof.
  intros Hq. unfold scan_entry.
  destruct (Qle_bool (min_relevance q) _) eqn:Ethr; [| discriminate].
  destruct (truthy (memory_types q) && _)%bool; [discriminate |].
  destruct (truthy (scopes q) && _)%bool; [discriminate |].
  destruct (truthy (query_tags q) && _)%bool; [discriminate |].
  apply Qle_bool_iff in Ethr. unfold new_MemoryResult.
  assert (H0 : Qle_bool 0 (_calculate_relevance cos vs m q qe) = true).
  { apply Qle_bool_iff. eapply Qle_trans; eassumption. }
  assert (H1 : Qle_bool (_calculate_relevance cos vs m q qe) 1 = true).
  { apply Qle_bool_iff, min1_le_1. }
  rewrite H0, H1. discriminate.
Qed.

Lemma scanned_total_valid cos (vs : VectorStore) (q : MemoryQuery) (qe : option Embedding)
    (items : list (string * Memory)) :
  0 <= min_relevance q -> exists res, scanned cos vs q qe items = Ok res.
Proof.
  intros Hq. induction items as [| [k m] rest [res Hres]]; simpl; [eauto |].
  rewrite Hres. destruct (scan_entry cos vs q qe m) as [[r | e] |] eqn:E; eauto.
  exfalso. exact (scan_entry_never_raises_valid cos vs q qe m e Hq E).
Qed.

(** X5. No recall loss: for a query with a non-negative threshold whose
    [max_results] is at least the number of cached records, every cached
    record that reaches the threshold and passes the filters is returned,
    with its relevance as score. *)
Theorem search_complete cos api (vs : VectorStore) (q : MemoryQuery)
    (k : string) (m : Memory) :
  0 <= min_relevance q ->
  (Z.of_nat (length (_memory_cache vs)) <= max_results q)%Z ->
  (k, m) ∈ _memory_cache vs ->
  min_relevance q <= _calculate_relevance cos vs m q (query_embedding_of api vs q) ->
  passes_filters q m = true ->
  exists r, r ∈ search_memories cos api vs q
            /\ memory r = m
            /\ relevance_score r
               = _calculate_relevance cos vs m q (query_embedding_of api vs q).
Proof.
  intros Hq Hlen Hin Hthr Hpass.
  destruct (scanned_total_valid cos vs q (query_embedding_of api vs q)
              (_memory_cache vs) Hq) as [res Hres].
  assert (H0 : 0 <= _calculate_relevance cos vs m q (query_embedding_of api vs q)).
  { eapply Qle_trans; eassumption. }
  pose proof (scan_entry_passes cos vs q _ m Hthr Hpass H0) as Hentry.
  pose proof (scanned_complete _ _ _ _ _ _ _ _ _ Hres Hin Hentry) as Hr.
  destruct (scanned_entries _ _ _ _ _ _ Hres) as [_ Hsub].
  apply sublist_length in Hsub. rewrite !length_map in Hsub.
  exists (mkResult m (_calculate_relevance cos vs m q (query_embedding_of api vs q))
            (_get_match_reasons vs m q) (_get_context_snippet m q)).
  split; [| split; reflexivity].
  rewrite (search_memories_scanned cos api vs q res Hres), slice_to_all.
  - rewrite sort_by_relevance_perm. exact Hr.
  - rewrite (Permutation_length (sort_by_relevance_perm res)). lia.
Qed.

Lemma search_results_sound_witness :
  MoreSamples.r_project_note
    ∈ search_memories Sample.cosine_1d Sample.no_api MoreSamples.vs_mixed
        MoreSamples.q_project_only
  /\ scope (memory MoreSamples.r_project_note) ∈ [PROJECT]
  /\ min_relevance MoreSamples.q_project_only <= relevance_score MoreSamples.r_project_note.
Proof.
  assert (H : MoreSamples.r_project_note
                ∈ search_memories Sample.cosine_1d Sample.no_api MoreSamples.vs_mixed
                    MoreSamples.q_project_only).
  { vm_compute. apply list_elem_of_here. }
  destruct (search_results_sound Sample.cosine_1d Sample.no_api MoreSamples.vs_mixed
              MoreSamples.q_project_only MoreSamples.r_project_note H)
    as (_ & Hthr & _ & _ & Hscope & _).
  split; [exact H |]. split; [apply (Hscope PROJECT []); reflexivity | exact Hthr].
Defined.

Example project_only_query :
  map (fun r => id (memory r))
    (search_memories Sample.cosine_1d Sample.no_api MoreSamples.vs_mixed
       MoreSamples.q_project_only) = ["pn"].
Proof. vm_compute. reflexivity. Qed.

Lemma search_complete_witness :
  exists r,
    r ∈ search_memories Sample.cosine_1d Sample.no_api MoreSamples.vs_mixed
          MoreSamples.q_project_only
    /\ memory r = MoreSamples.m_project_note.
Proof.
  destruct (search_complete Sample.cosine_1d Sample.no_api MoreSamples.vs_mixed
              MoreSamples.q_project_only "pn" MoreSamples.m_project_note)
    as (r & Hr & Hm & _).
  - vm_compute. discriminate.
  - vm_compute. discriminate.
  - vm_compute. apply list_elem_of_further, list_elem_of_here.
  - vm_compute. discriminate.
  - vm_compute. reflexivity.
  - exists r. split; [exact Hr | exact Hm].
Defined.

(** ** Upserts, statistics and reconciliation of the search index *)

Lemma cache_set_length_eq (k : string) (v : Memory) (d : list (string * Memory)) :
  length (cache_set k v d) = if cache_mem k d then length d else S (length d).
Proof.
  unfold cache_mem. induction d as [| [k' v'] r IH]; simpl; [reflexivity |].
  destruct (String.eqb k k'); simpl; [reflexivity |].
  rewrite IH. destruct (cache_get k r); reflexivity.
Qed.

Lemma generate_embedding_cache_write api (vs : VectorStore) (m m' : Memory) :
  _generate_embedding api (cache_write vs m') m = _generate_embedding api vs m.
Proof. reflexivity. Qed.

Lemma store_memory_embeddings api (vs : VectorStore) (m : Memory) (k : string) :
  _memory_embeddings (store_memory api vs m) !! k
  = if decide (k = id m)
    then match _generate_embedding api vs m with
         | Some e => Some e
         | None => _memory_embeddings vs !! k
         end
    else _memory_embeddings vs !! k.
Proof.
  unfold store_memory. rewrite generate_embedding_cache_write.
  destruct (_generate_embedding api vs m) as [e |]; simpl.
  - destruct (decide (k = id m)) as [-> | Hne].
    + apply lookup_insert_eq.
    + apply lookup_insert_ne. congruence.
  - destruct (decide (k = id m)); reflexivity.
Qed.

(** X6. [store_memory] is an upsert on one identifier: afterwards the
    cache holds the record under its identifier (in place when the
    identifier was cached, appended otherwise), and when no embedding could
    be generated the previous embedding of that identifier stays.  Nothing
    changes for any other identifier: its cached record, its embedding and
    its relevance for every query are as before. *)
Theorem store_memory_upsert api (vs : VectorStore) (m : Memory) :
  let vs' := store_memory api vs m in
  cache_get (id m) (_memory_cache vs') = Some m
  /\ length (_memory_cache vs')
     = (if cache_mem (id m) (_memory_cache vs) then length (_memory_cache vs)
        else S (length (_memory_cache vs)))
  /\ _memory_embeddings vs' !! id m
     = match _generate_embedding api vs m with
       | Some e => Some e
       | None => _memory_embeddings vs !! id m
       end
  /\ (forall k, k <> id m ->
        cache_get k (_memory_cache vs') = cache_get k (_memory_cache vs)
        /\ _memory_embeddings vs' !! k = _memory_embeddings vs !! k)
  /\ (forall cos m' q qe, id m' <> id m ->
        _calculate_relevance cos vs' m' q qe = _calculate_relevance cos vs m' q qe).
Proof.
  cbv zeta. rewrite store_memory_cache. split; [apply cache_get_set_same |].
  split; [apply cache_set_length_eq |]. split.
  { rewrite store_memory_embeddings. destruct (decide _); [reflexivity | contradiction]. }
  split.
  - intros k Hk. split.
    + apply cache_get_set_other. congruence.
    + rewrite store_memory_embeddings. destruct (decide _); [contradiction | reflexivity].
  - intros cos m' q qe Hne. unfold _calculate_relevance.
    rewrite store_memory_embeddings. destruct (decide _); [contradiction | reflexivity].
Qed.

Lemma store_memory_upsert_witness :
  "gn" <> id MoreSamples.m_project_note
  /\ cache_get "gn" (_memory_cache MoreSamples.vs_mixed) = Some MoreSamples.m_global_note
  /\ id MoreSamples.m_global_note <> id MoreSamples.m_project_note
  /\ _calculate_relevance Sample.cosine_1d MoreSamples.vs_mixed MoreSamples.m_global_note
       MoreSamples.q_project_only None
     = _calculate_relevance Sample.cosine_1d
         (store_memory Sample.no_api (VectorStore_init None) MoreSamples.m_global_note)
         MoreSamples.m_global_note MoreSamples.q_project_only None.
Proof.
  assert (Hne : "gn" <> id MoreSamples.m_project_note) by discriminate.
  assert (Hne' : id MoreSamples.m_global_note <> id MoreSamples.m_project_note)
    by discriminate.
  destruct (store_memory_upsert Sample.no_api
              (store_memory Sample.no_api (VectorStore_init None) MoreSamples.m_global_note)
              MoreSamples.m_project_note) as (_ & _ & _ & Hother & Hrel).
  split; [exact Hne |]. split.
  - unfold MoreSamples.vs_mixed. rewrite (proj1 (Hother "gn" Hne)).
    vm_compute. reflexivity.
  - split; [exact Hne' |].
    exact (Hrel Sample.cosine_1d MoreSamples.m_global_note MoreSamples.q_project_only
             None Hne').
Defined.

Lemma cache_set_NoDup (k : string) (v : Memory) (d : list (string * Memory)) :
  NoDup (map fst d) -> NoDup (map fst (cache_set k v d)).
Proof.
  induction d as [| [k' v'] r IH]; simpl; intros H.
  - apply NoDup_singleton.
  - apply NoDup_cons in H as [Hk' Hr].
    destruct (String.eqb_spec k k') as [-> | Hne]; simpl.
    + apply NoDup_cons. split; assumption.
    + apply NoDup_cons. split; [| apply IH, Hr].
      intros Hin. apply Hk'.
      assert (Hset : k' ∈ (list_to_set (map fst (cache_set k v r)) : gset string))
        by (apply elem_of_list_to_set, Hin).
      rewrite cache_set_keys in Hset.
      apply elem_of_union in Hset as [Hs | Hs].
      * apply elem_of_singleton in Hs. congruence.
      * apply elem_of_list_to_set in Hs. exact Hs.
Qed.

Lemma run_calls_NoDup cos (cs : list IndexCall) (vs : VectorStore) :
  NoDup (map fst (_memory_cache vs)) ->
  NoDup (map fst (_memory_cache (run_calls cos vs cs))).
Proof.
  revert vs. induction cs as [| c r IH]; intros vs H; simpl; [exact H |].
  apply IH. destruct c as [api m | api q]; simpl; [| exact H].
  rewrite store_memory_cache. apply cache_set_NoDup, H.
Qed.

(** X7. In every state of the index reached from [__init__] by calls of
    [store_memory] and [search_memories], the statistics are consistent:
    the cache holds each identifier once, [total_memories] is the number of
    cached records, and [embeddings_generated] never exceeds
    [total_memories]. *)
Theorem statistics_consistent cos (model : option SentenceModel)
    (calls : list IndexCall) :
  let vs := run_calls cos (VectorStore_init model) calls in
  NoDup (map fst (_memory_cache vs))
  /\ total_memories (get_statistics vs) = length (_memory_cache vs)
  /\ (embeddings_generated (get_statistics vs) <= total_memories (get_statistics vs))%nat.
Proof.
  cbv zeta.
  assert (Hnd : NoDup (map fst (_memory_cache
                                 (run_calls cos (VectorStore_init model) calls)))).
  { apply run_calls_NoDup. simpl. apply NoDup_nil_2. }
  assert (Hinv : embeddings_cached (run_calls cos (VectorStore_init model) calls)).
  { apply run_calls_keeps_invariant. unfold embeddings_cached, VectorStore_init. simpl.
    rewrite dom_empty_L. set_solver. }
  split; [exact Hnd |]. unfold get_statistics, cache_len. simpl. split.
  - rewrite size_list_to_set by exact Hnd. apply length_map.
  - rewrite <- size_dom. apply subseteq_size, Hinv.
Qed.

Lemma sync_loop_count api (ms : list Memory) (vs : VectorStore) (n : Z) :
  let out := sync_loop api vs ms n in
  Z.of_nat (length (_memory_cache out.1))
  = (Z.of_nat (length (_memory_cache vs)) + (out.2 - n))%Z
  /\ (n <= out.2 <= n + Z.of_nat (length ms))%Z.
Proof.
  cbv zeta. revert vs n. induction ms as [| m r IH]; intros vs n; simpl.
  - lia.
  - destruct (cache_mem (id m) (_memory_cache vs)) eqn:E; simpl.
    + destruct (IH vs n) as [H1 H2]. lia.
    + destruct (IH (store_memory api vs m) (n + 1)%Z) as [H1 H2].
      rewrite store_memory_cache, cache_set_length_eq, E in H1. lia.
Qed.

Lemma sync_loop_keeps_entries api (ms : list Memory) (vs : VectorStore) (n : Z)
    (k : string) :
  cache_mem k (_memory_cache vs) = true ->
  cache_get k (_memory_cache (sync_loop api vs ms n).1) = cache_get k (_memory_cache vs)
  /\ _memory_embeddings (sync_loop api vs ms n).1 !! k = _memory_embeddings vs !! k.
Proof.
  revert vs n. induction ms as [| m r IH]; intros vs n Hk; simpl; [auto |].
  destruct (cache_mem (id m) (_memory_cache vs)) eqn:E; simpl; [apply IH, Hk |].
  assert (Hne : k <> id m) by (intros ->; congruence).
  destruct (IH (store_memory api vs m) (n + 1)%Z) as [H1 H2].
  { rewrite store_memory_cache_mem, Hk. apply orb_true_r. }
  rewrite H1, H2, store_memory_cache, store_memory_embeddings.
  split; [apply cache_get_set_other; congruence |].
  destruct (decide _); [contradiction | reflexivity].
Qed.

(** X8. The index-sync loop of [awaken] only adds: [synced_count] is the
    number of records by which the cache grew, it lies between 0 and the
    number of records loaded from disk, and a record that was already
    cached keeps its cached copy and its embedding, whatever the disk holds
    for its identifier. *)
Theorem awaken_sync_only_adds (config : MemoryConfig) (api : string -> option Embedding)
    (self : MemoryManager) :
  exists self' n,
    awaken_sync config api self = Ok (self', n)
    /\ Z.of_nat (length (_memory_cache (_vector_store self')))
       = (Z.of_nat (length (_memory_cache (_vector_store self))) + n)%Z
    /\ (0 <= n <= Z.of_nat (length (well_formed_records config (_file_store self))))%Z
    /\ (forall k, cache_mem k (_memory_cache (_vector_store self)) = true ->
          cache_get k (_memory_cache (_vector_store self'))
          = cache_get k (_memory_cache (_vector_store self))
          /\ _memory_embeddings (_vector_store self') !! k
             = _memory_embeddings (_vector_store self) !! k).
Proof.
  unfold awaken_sync. rewrite load_all_memories_spec.
  pose proof (sync_loop_count api (well_formed_records config (_file_store self))
                (_vector_store self) 0%Z) as [Hlen Hn].
  pose proof (sync_loop_keeps_entries api (well_formed_records config (_file_store self))
                (_vector_store self) 0%Z) as Hkeep.
  destruct (sync_loop api (_vector_store self)
              (well_formed_records config (_file_store self)) 0%Z) as [vs1 n1].
  simpl in *. exists (mkManager (_file_store self) vs1), n1.
  split; [reflexivity |]. split; [simpl; lia |]. split; [lia |].
  intros k Hk. simpl. apply Hkeep, Hk.
Qed.

Lemma awaken_sync_only_adds_witness :
  cache_mem "dup" (_memory_cache (_vector_store StaleSample.stale)) = true
  /\ exists self' n,
       awaken_sync Sample.config Sample.no_api StaleSample.stale = Ok (self', n)
       /\ cache_get "dup" (_memory_cache (_vector_store self'))
          = Some StaleSample.m_dup_stale.
Proof.
  assert (H : cache_mem "dup" (_memory_cache (_vector_store StaleSample.stale)) = true)
    by (vm_compute; reflexivity).
  split; [exact H |].
  destruct (awaken_sync_only_adds Sample.config Sample.no_api StaleSample.stale)
    as (self' & n & Hrun & _ & _ & Hkeep).
  exists self', n. split; [exact Hrun |].
  rewrite (proj1 (Hkeep "dup" H)). vm_compute. reflexivity.
Defined.

(** ** Writing, reading and deleting records in the durable store *)

Lemma file_get_set (p p' : FilePath) (c : FileContent) (l : list (FilePath * FileContent)) :
  file_get p' (file_set p c l) = if decide (p' = p) then Some c else file_get p' l.
Proof.
  induction l as [| [p0 c0] r IH]; simpl.
  - case_bool_decide; destruct (decide (p' = p)); congruence.
  - case_bool_decide as Hp; simpl.
    + subst p0. case_bool_decide; destruct (decide (p' = p)); congruence.
    + case_bool_decide as Hp'.
      * subst p0. destruct (decide (p' = p)); congruence.
      * exact IH.
Qed.

Lemma memory_file_inj (config : MemoryConfig) (s s' : MemoryScope) (t t' : MemoryType)
    (i i' : string) :
  FileStore.memory_file config s t i = FileStore.memory_file config s' t' i' ->
  s = s' /\ t = t' /\ i = i'.
Proof. unfold FileStore.memory_file. intros [= _ -> -> ->]. auto. Qed.

(** What [store_memory] does to the disk. *)
Lemma store_memory_disk (config : MemoryConfig) (now : Z) (m : Memory) (d : Disk) :
  let p := FileStore.memory_file config (scope m) (memory_type m) (id m) in
  let out := FileStore.store_memory config now m d in
  dirs out.1.2 = dirs d
  /\ io_fault out.1.2 = io_fault d
  /\ ((exists data, json_data m = Ok data /\ out.1.1 = Ok tt
                    /\ files out.1.2 = file_set p (written data now) (files d))
      \/ (exists e, out.1.1 = Raise e) /\ (out.1.2 = d \/ out.1.2 = opened p d)).
Proof.
  cbv zeta. unfold FileStore.store_memory, try_except, bind.
  destruct ((write_file (FileStore.memory_file config (scope m) (memory_type m) (id m))
               m now d).1.1) as [[] | e] eqn:Hw.
  - apply write_file_ok in Hw as (data & Hdata & Hw). rewrite Hw.
    destruct (update_index_total config m) as [Hn Hk].
    set (d1 := dumped _ data now d).
    specialize (Hn d1). specialize (Hk d1).
    destruct (FileStore._update_index config m d1) as [[r d2] l2]. simpl in *.
    destruct Hn as [[] ->]. simpl. destruct Hk as (Hf & Hd & Hi).
    split; [exact Hd |]. split; [exact Hi |]. left. exists data. auto.
  - destruct (write_file_raises _ m now d e Hw) as [H | H]; rewrite H; simpl; eauto 8.
Qed.

(** X9. For a record with a plain identifier, [store_memory] and
    [update_memory] touch one memory file only: whether they succeed or
    raise, every other memory file and every directory is as before (a
    record that changes its type or scope leaves its old file behind).  A
    call that raises leaves the lookup index as it was, and the file of
    the record either as it was (the open failed) or unreadable (the write
    failed after the open: what the file held is lost).  [update_memory]
    has the result and the effect of [store_memory]. *)
Theorem store_memory_frame (config : MemoryConfig) (now : Z) (m : Memory) (d : Disk) :
  plain_id (id m) = true ->
  let target := FileStore.memory_file config (scope m) (memory_type m) (id m) in
  let out := FileStore.store_memory config now m d in
  dirs out.1.2 = dirs d
  /\ (forall p, p <> target -> file_get p (files out.1.2) = file_get p (files d))
  /\ (forall e, out.1.1 = Raise e ->
        index_files out.1.2 = index_files d
        /\ (file_get target (files out.1.2) = file_get target (files d)
            \/ unreadable out.1.2 target = true))
  /\ (FileStoreAdmin.update_memory config now m d).1 = out.1.
Proof.
  intros _. cbv zeta. destruct (store_memory_disk config now m d) as (Hd & _ & Hcases).
  split; [exact Hd |]. split; [| split].
  - intros p Hp. destruct Hcases as [(data & _ & _ & Hf) | [_ [-> | ->]]];
      [| reflexivity |].
    + rewrite Hf, file_get_set. destruct (decide _); [contradiction | reflexivity].
    + unfold opened. simpl. rewrite file_get_set.
      destruct (decide _); [contradiction | reflexivity].
  - intros e He. destruct Hcases as [(data & _ & Hok & _) | [_ [-> | ->]]];
      [congruence | auto |].
    split; [reflexivity |]. right. unfold unreadable, opened. simpl.
    rewrite file_get_set_same. reflexivity.
  - unfold FileStoreAdmin.update_memory, try_except, bind.
    destruct (FileStore.store_memory config now m d) as [[[[] | e] d1] l1]; reflexivity.
Qed.

Lemma store_memory_frame_witness :
  Sample.p_dup_project
  <> FileStore.memory_file Sample.config (scope Sample.m_python)
       (memory_type Sample.m_python) (id Sample.m_python)
  /\ file_get Sample.p_dup_project
       (files (FileStore.store_memory Sample.config 7 Sample.m_python Sample.disk).1.2)
     = Some (MemoryJson Sample.m_dup_project 11)
  /\ (FileStore.store_memory Sample.config 7 Sample.m_python Sample.disk_full).1.1
     = Raise Sample.disk_full_error
  /\ index_files (FileStore.store_memory Sample.config 7 Sample.m_python
                    Sample.disk_full).1.2
     = index_files Sample.disk_full.
Proof.
  assert (Hplain : plain_id (id Sample.m_python) = true) by reflexivity.
  assert (Hne : Sample.p_dup_project
                <> FileStore.memory_file Sample.config (scope Sample.m_python)
                     (memory_type Sample.m_python) (id Sample.m_python))
    by discriminate.
  assert (Hr : (FileStore.store_memory Sample.config 7 Sample.m_python
                  Sample.disk_full).1.1 = Raise Sample.disk_full_error)
    by (vm_compute; reflexivity).
  split; [exact Hne |]. split.
  - rewrite (proj1 (proj2 (store_memory_frame Sample.config 7 Sample.m_python Sample.disk
                             Hplain)) _ Hne).
    vm_compute. reflexivity.
  - split; [exact Hr |].
    exact (proj1 (proj1 (proj2 (proj2
             (store_memory_frame Sample.config 7 Sample.m_python Sample.disk_full Hplain)))
             _ Hr)).
Defined.

(** On a full disk, storing a new version of the record "dup" raises and
    leaves its file empty: the record that was there can no longer be
    loaded. *)
Example failed_update_destroys_record :
  (FileStore.load_memory Sample.config "dup" Sample.disk_full).1.1
  = Ok (Some Sample.m_dup_global)
  /\ (FileStore.store_memory Sample.config 7 Sample.m_dup_global Sample.disk_full).1.1
     = Raise Sample.disk_full_error
  /\ (FileStore.load_memory Sample.config "dup"
        (FileStore.store_memory Sample.config 7 Sample.m_dup_global
           Sample.disk_full).1.2).1.1
     = Ok None.
Proof. repeat split; vm_compute; reflexivity. Qed.

(** On a read-only file system the open fails: [store_memory] raises and
    the disk is as it was. *)
Example failed_open_changes_nothing :
  FileStore.store_memory Sample.config 7 Sample.m_dup_global Sample.disk_read_only
  = (Raise Sample.read_only_error, Sample.disk_read_only,
     [mkLog ERROR "dup" (Some Sample.read_only_error)]).
Proof. vm_compute. reflexivity. Qed.

Lemma for_first_unique {A B} `{EqDecision A} (l : list A) (f : A -> option B) (x0 : A) (b : B) :
  x0 ∈ l -> f x0 = Some b -> (forall x, x <> x0 -> f x = None) ->
  for_first l f = Some b.
Proof.
  intros Hin Hx0 Hother. induction l as [| y r IH]; simpl.
  - apply not_elem_of_nil in Hin. contradiction.
  - destruct (f y) as [b' |] eqn:E.
    + destruct (decide (y = x0)) as [-> | Hne]; [congruence |].
      rewrite (Hother y Hne) in E. discriminate.
    + apply IH. apply elem_of_cons in Hin as [-> | Hin]; [congruence | exact Hin].
Qed.

Lemma for_first_none {A B} (l : list A) (f : A -> option B) :
  (forall x, f x = None) -> for_first l f = None.
Proof.
  intros H. induction l as [| y r IH]; simpl; [reflexivity |]. rewrite H. exact IH.
Qed.

Lemma locate_found (config : MemoryConfig) (d : Disk) (memory_id : string) (p : FilePath) :
  FileStore.locate config d memory_id = Some p ->
  (exists s t, p = FileStore.memory_file config s t memory_id) /\ file_exists d p = true.
Proof.
  unfold FileStore.locate. intros H.
  apply for_first_found in H as (s & _ & H).
  destruct (negb (dir_exists d _)); [discriminate |].
  apply for_first_found in H as (t & _ & H).
  destruct (file_exists d (FileStore.memory_file config s t memory_id)) eqn:E;
    [| discriminate].
  injection H as <-. eauto.
Qed.

Lemma locate_none (config : MemoryConfig) (d : Disk) (memory_id : string) :
  (forall s t, file_exists d (FileStore.memory_file config s t memory_id) = false) ->
  FileStore.locate config d memory_id = None.
Proof.
  intros H. unfold FileStore.locate. apply for_first_none. intros s.
  destruct (negb (dir_exists d _)); [reflexivity |].
  apply for_first_none. intros t. rewrite H. reflexivity.
Qed.

Lemma locate_only_file (config : MemoryConfig) (d : Disk) (memory_id : string)
    (s0 : MemoryScope) (t0 : MemoryType) :
  dir_exists d (BaseDir (get_storage_path config (scope_value s0))) = true ->
  file_exists d (FileStore.memory_file config s0 t0 memory_id) = true ->
  only_file config d memory_id (FileStore.memory_file config s0 t0 memory_id) ->
  FileStore.locate config d memory_id = Some (FileStore.memory_file config s0 t0 memory_id).
Proof.
  intros Hdir Hex Honly. unfold FileStore.locate.
  apply (for_first_unique _ _ s0).
  - destruct s0; set_solver.
  - rewrite Hdir. cbn [negb]. apply (for_first_unique _ _ t0).
    + apply all_memory_types_complete.
    + rewrite Hex. reflexivity.
    + intros t Ht. rewrite Honly; [reflexivity |].
      intros E. apply memory_file_inj in E as (_ & E & _). contradiction.
  - intros s Hs. destruct (negb (dir_exists d _)); [reflexivity |].
    apply for_first_none. intros t. rewrite Honly; [reflexivity |].
    intros E. apply memory_file_inj in E as (E & _). contradiction.
Qed.

Lemma json_items_exact (items : list (string * PyValue)) :
  forallb (fun kv => json_exact kv.2) items = true -> json_items items = Ok items.
Proof.
  induction items as [| [k v] r IH]; [reflexivity |].
  simpl. intros H. apply andb_true_iff in H as [Hv Hr].
  rewrite (IH Hr). destruct v; try discriminate; reflexivity.
Qed.

Lemma roundtrips_reloaded (m : Memory) : roundtrips m -> reloaded m = Ok m.
Proof.
  intros (Hc & Hi & Hv). unfold reloaded, json_data.
  rewrite (json_items_exact _ Hi).
  destruct m as [i t c ty sc lo tg imp ca la ua ac sr re de cx em fp ch].
  simpl in *. destruct c; try discriminate; exact Hv.
Qed.

(** X10. Write-then-read on the durable store, for a record with a plain
    identifier: when [store_memory] returns normally, the storage path of
    the record's scope exists and the identifier has no file elsewhere
    (under another type or scope), [load_memory] of the identifier gives
    the record as JSON reads it back.  That is exactly the stored record
    when its content and context values are JSON-exact and its importance
    and success rate are within their ranges; a record outside these
    ranges is written and then fails to load: [load_memory] logs the
    error and returns [None]. *)
Theorem store_then_load (config : MemoryConfig) (now : Z) (m : Memory) (d : Disk) :
  let target := FileStore.memory_file config (scope m) (memory_type m) (id m) in
  let d' := (FileStore.store_memory config now m d).1.2 in
  plain_id (id m) = true ->
  (FileStore.store_memory config now m d).1.1 = Ok tt ->
  dir_exists d (BaseDir (get_storage_path config (scope_value (scope m)))) = true ->
  only_file config d (id m) target ->
  (roundtrips m -> FileStore.load_memory config (id m) d' = (Ok (Some m), d', []))
  /\ (forall m', reloaded m = Ok m' ->
        FileStore.load_memory config (id m) d' = (Ok (Some m'), d', []))
  /\ (forall e, reloaded m = Raise e ->
        FileStore.load_memory config (id m) d'
        = (Ok None, d', [mkLog ERROR (id m) (Some e)])).
Proof.
  cbv zeta. intros _ Hok Hdir Honly.
  destruct (store_memory_disk config now m d) as (Hd & _ & Hcases).
  destruct Hcases as [(data & Hdata & _ & Hf) | [[e He] _]]; [| congruence].
  set (d' := (FileStore.store_memory config now m d).1.2) in *.
  set (target := FileStore.memory_file config (scope m) (memory_type m) (id m)) in *.
  assert (Hget : file_get target (files d') = Some (written data now)).
  { rewrite Hf. apply file_get_set_same. }
  assert (Hloc : FileStore.locate config d' (id m) = Some target).
  { apply locate_only_file.
    - unfold dir_exists in *. rewrite Hd. exact Hdir.
    - unfold file_exists. fold target. rewrite Hget. reflexivity.
    - intros s t Hne. fold target in Hne. unfold file_exists.
      rewrite Hf, file_get_set. destruct (decide _); [contradiction |].
      apply (Honly s t Hne). }
  assert (Hload : forall m', reloaded m = Ok m' ->
            FileStore.load_memory config (id m) d' = (Ok (Some m'), d', [])).
  { intros m' Hm'. unfold reloaded in Hm'. rewrite Hdata in Hm'.
    unfold FileStore.load_memory, try_except, bind, get_disk, read_memory, ret, parse.
    rewrite Hloc, Hget. unfold written. rewrite Hm'. reflexivity. }
  split; [| split].
  - intros Hrt. apply Hload, roundtrips_reloaded, Hrt.
  - exact Hload.
  - intros e He. unfold reloaded in He. rewrite Hdata in He.
    unfold FileStore.load_memory, try_except, bind, get_disk, read_memory, ret, parse.
    rewrite Hloc, Hget. unfold written. rewrite He. reflexivity.
Qed.

Lemma store_then_load_witness :
  FileStore.load_memory Sample.config "p1"
    (FileStore.store_memory Sample.config 7 Sample.m_python Sample.disk).1.2
  = (Ok (Some Sample.m_python),
     (FileStore.store_memory Sample.config 7 Sample.m_python Sample.disk).1.2, []).
Proof.
  apply (store_then_load Sample.config 7 Sample.m_python Sample.disk).
  - reflexivity.
  - vm_compute. reflexivity.
  - vm_compute. reflexivity.
  - intros s t _. destruct s, t; vm_compute; reflexivity.
  - repeat split; vm_compute; reflexivity.
Defined.

(** A tuple comes back as a list; a record with importance 11 is written
    and cannot be loaded. *)
Example store_then_load_changes :
  (FileStore.load_memory Sample.config "t1"
     (FileStore.store_memory Sample.config 7 Sample.m_tuple Sample.disk).1.2).1.1
  = Ok (Some Sample.m_tuple_reloaded)
  /\ (FileStore.store_memory Sample.config 7 Sample.m_eleven Sample.disk).1.1 = Ok tt
  /\ (FileStore.load_memory Sample.config "e1"
        (FileStore.store_memory Sample.config 7 Sample.m_eleven Sample.disk).1.2).1.1
     = Ok None.
Proof. repeat split; vm_compute; reflexivity. Qed.

(** X11. [load_memory] never raises and never changes the disk.  It
    returns the record of the first file found in probe order when that
    file deserialises; when that file does not deserialise it logs an error
    and returns [None], without trying any later copy; when no file is
    found it returns [None] without logging. *)
Theorem load_memory_outcome (config : MemoryConfig) (memory_id : string) (d : Disk) :
  (FileStore.locate config d memory_id = None ->
   FileStore.load_memory config memory_id d = (Ok None, d, []))
  /\ (forall p m, FileStore.locate config d memory_id = Some p -> parse d p = Ok m ->
        FileStore.load_memory config memory_id d = (Ok (Some m), d, []))
  /\ (forall p e, FileStore.locate config d memory_id = Some p -> parse d p = Raise e ->
        FileStore.load_memory config memory_id d
        = (Ok None, d, [mkLog ERROR memory_id (Some e)]))
  /\ (forall t0 e,
        dir_exists d (BaseDir (get_storage_path config (scope_value GLOBAL))) = true ->
        first_type_with_file config d GLOBAL memory_id = Some t0 ->
        parse d (FileStore.memory_file config GLOBAL t0 memory_id) = Raise e ->
        (FileStore.load_memory config memory_id d).1.1 = Ok None).
Proof.
  assert (Hbad : forall p e, FileStore.locate config d memory_id = Some p ->
                   parse d p = Raise e ->
                   FileStore.load_memory config memory_id d
                   = (Ok None, d, [mkLog ERROR memory_id (Some e)])).
  { intros p e Hloc Hp.
    unfold FileStore.load_memory, try_except, bind, get_disk, read_memory, ret.
    rewrite Hloc, Hp. reflexivity. }
  split; [| split; [| split; [exact Hbad |]]].
  - intros Hloc. unfold FileStore.load_memory, try_except, bind, get_disk, ret.
    rewrite Hloc. reflexivity.
  - intros p m Hloc Hp.
    unfold FileStore.load_memory, try_except, bind, get_disk, read_memory, ret.
    rewrite Hloc, Hp. reflexivity.
  - intros t0 e Hdir Hfirst Hp.
    rewrite (Hbad _ e (locate_global config d memory_id t0 Hdir Hfirst) Hp). reflexivity.
Qed.

(** X12. [delete_memory] never raises.  For an identifier without a file
    it returns false, logs nothing and leaves the disk as it is; whenever
    it returns false the disk is unchanged (a failing unlink is logged and
    swallowed); it never creates or removes a directory. *)
Theorem delete_memory_outcome (config : MemoryConfig) (memory_id : string) (d : Disk) :
  exists b,
    (FileStore.delete_memory config memory_id d).1.1 = Ok b
    /\ dirs (FileStore.delete_memory config memory_id d).1.2 = dirs d
    /\ (b = false -> (FileStore.delete_memory config memory_id d).1.2 = d)
    /\ (FileStore.locate config d memory_id = None ->
        FileStore.delete_memory config memory_id d = (Ok false, d, []))
    /\ (forall p e, FileStore.locate config d memory_id = Some p ->
          io_fault d (UnlinkFile p) = Some e ->
          FileStore.delete_memory config memory_id d
          = (Ok false, d, [mkLog ERROR memory_id (Some e)])).
Proof.
  unfold FileStore.delete_memory, try_except, bind, get_disk.
  destruct (FileStore.locate config d memory_id) as [p |] eqn:Hloc.
  - unfold unlink. destruct (io_fault d (UnlinkFile p)) as [e |] eqn:Hfault.
    + exists false. simpl. repeat split; auto; try discriminate.
      intros p' e' [= <-] He'. rewrite Hfault in He'. injection He' as <-. reflexivity.
    + destruct (file_exists d p) eqn:Hex.
      * destruct (remove_from_index_total config memory_id) as [Hn Hk].
        set (d1 := mkDisk (dirs d) _ (index_files d) (io_fault d)).
        specialize (Hn d1). specialize (Hk d1).
        destruct (FileStore._remove_from_index config memory_id d1) as [[r d2] l2].
        simpl in *. destruct Hn as [[] ->]. simpl. destruct Hk as (_ & Hd & _).
        exists true. repeat split; auto; intros; congruence.
      * exists false. simpl. repeat split; auto; intros; congruence.
  - exists false. simpl. repeat split; auto; intros; congruence.
Qed.

(** X13. Deleting the only file of an identifier makes it unknown: when
    [delete_memory] finds the file, the unlink does not fail and the
    identifier has no other file, it returns true, and afterwards
    [load_memory] returns [None] and a second [delete_memory] returns
    false. *)
Theorem delete_then_gone (config : MemoryConfig) (memory_id : string) (d : Disk)
    (p : FilePath) :
  let d' := (FileStore.delete_memory config memory_id d).1.2 in
  FileStore.locate config d memory_id = Some p ->
  io_fault d (UnlinkFile p) = None ->
  only_file config d memory_id p ->
  (FileStore.delete_memory config memory_id d).1.1 = Ok true
  /\ FileStore.load_memory config memory_id d' = (Ok None, d', [])
  /\ FileStore.delete_memory config memory_id d' = (Ok false, d', []).
Proof.
  cbv zeta. intros Hloc Hfault Honly.
  destruct (locate_found config d memory_id p Hloc) as [_ Hex].
  destruct (delete_memory_located config d memory_id p Hloc Hfault Hex)
    as (d' & log & Hdel & Hfiles).
  rewrite Hdel. simpl.
  assert (Hnone : FileStore.locate config d' memory_id = None).
  { apply locate_none. intros s t. unfold file_exists. rewrite Hfiles, file_get_remove.
    destruct (decide _) as [_ | Hne]; [reflexivity |]. apply (Honly s t Hne). }
  split; [reflexivity |]. split.
  - unfold FileStore.load_memory, try_except, bind, get_disk, ret. rewrite Hnone.
    reflexivity.
  - unfold FileStore.delete_memory, try_except, bind, get_disk, ret. rewrite Hnone.
    reflexivity.
Qed.

Lemma load_memory_outcome_witness :
  parse ShadowSample.disk Sample.p_dup_project = Ok Sample.m_dup_project
  /\ FileStore.load_memory Sample.config "dup" ShadowSample.disk
     = (Ok None, ShadowSample.disk, [mkLog ERROR "dup" (Some Sample.corrupt)])
  /\ FileStore.load_memory Sample.config "absent" ShadowSample.disk
     = (Ok None, ShadowSample.disk, [])
  /\ FileStore.load_memory Sample.config "dup" Sample.disk
     = (Ok (Some Sample.m_dup_global), Sample.disk, []).
Proof.
  split; [vm_compute; reflexivity |]. split; [| split].
  - apply (proj1 (proj2 (proj2 (load_memory_outcome Sample.config "dup" ShadowSample.disk)))
             Sample.p_dup_global Sample.corrupt); vm_compute; reflexivity.
  - apply (proj1 (load_memory_outcome Sample.config "absent" ShadowSample.disk)).
    vm_compute. reflexivity.
  - apply (proj1 (proj2 (load_memory_outcome Sample.config "dup" Sample.disk))
             Sample.p_dup_global Sample.m_dup_global); vm_compute; reflexivity.
Defined.

Lemma delete_memory_outcome_witness :
  FileStore.locate Sample.config Sample.disk "absent" = None
  /\ FileStore.delete_memory Sample.config "absent" Sample.disk = (Ok false, Sample.disk, []).
Proof.
  assert (H : FileStore.locate Sample.config Sample.disk "absent" = None)
    by (vm_compute; reflexivity).
  split; [exact H |].
  destruct (delete_memory_outcome Sample.config "absent" Sample.disk)
    as (b & _ & _ & _ & Hnone & _).
  exact (Hnone H).
Defined.

Lemma delete_then_gone_witness :
  (FileStore.delete_memory Sample.config "broken" Sample.disk).1.1 = Ok true
  /\ (FileStore.load_memory Sample.config "broken"
        (FileStore.delete_memory Sample.config "broken" Sample.disk).1.2).1.1 = Ok None.
Proof.
  destruct (delete_then_gone Sample.config "broken" Sample.disk Sample.p_broken)
    as (Hdel & Hload & _).
  - vm_compute. reflexivity.
  - vm_compute. reflexivity.
  - intros s t Hne. destruct s, t; try (vm_compute; reflexivity).
    exfalso. apply Hne. vm_compute. reflexivity.
  - split; [exact Hdel |]. rewrite Hload. reflexivity.
Defined.

(** ** Enumeration by type and by scope *)

Lemma load_type_scopes_spec (config : MemoryConfig) (t : MemoryType)
    (ss : list MemoryScope) (acc : list Memory) (d : Disk) :
  FileStoreAdmin.load_type_scopes config t ss acc d
  = (Ok (acc ++ omap (record_of d) (flat_map (visit_type_in config d t) ss)), d,
     omap (warning_of d) (flat_map (visit_type_in config d t) ss)).
Proof.
  revert acc. induction ss as [| s r IH]; intros acc.
  - simpl. unfold ret. rewrite app_nil_r. reflexivity.
  - cbn [FileStoreAdmin.load_type_scopes flat_map].
    unfold bind, get_disk at 1, visit_type_in at 1 3. cbn beta iota zeta.
    destruct (dir_exists d (BaseDir (get_storage_path config (scope_value s))));
      cbn [negb andb].
    + destruct (dir_exists d (TypeDir (get_storage_path config (scope_value s)) s t));
        cbn [negb].
      * rewrite load_files_spec, IH, !omap_app, <- app_assoc. reflexivity.
      * rewrite IH. reflexivity.
    + rewrite IH. reflexivity.
Qed.

Lemma load_memories_by_type_spec (config : MemoryConfig) (t : MemoryType)
    (s : option MemoryScope) (d : Disk) :
  let ss := match s with Some s => [s] | None => [GLOBAL; PROJECT] end in
  FileStoreAdmin.load_memories_by_type config t s d
  = (Ok (omap (record_of d) (flat_map (visit_type_in config d t) ss)), d,
     omap (warning_of d) (flat_map (visit_type_in config d t) ss)).
Proof.
  cbv zeta. unfold FileStoreAdmin.load_memories_by_type, try_except.
  rewrite load_type_scopes_spec. reflexivity.
Qed.

Lemma visit_type_in_base (config : MemoryConfig) (d : Disk) (t : MemoryType)
    (s : MemoryScope) :
  dir_exists d (BaseDir (get_storage_path config (scope_value s))) = true ->
  visit_type_in config d t s = visit_type config d s t.
Proof. intros H. unfold visit_type_in, visit_type. rewrite H. reflexivity. Qed.

Lemma load_scope_types_spec (config : MemoryConfig) (s : MemoryScope)
    (ts : list MemoryType) (acc : list Memory) (d : Disk) :
  dir_exists d (BaseDir (get_storage_path config (scope_value s))) = true ->
  exists log,
    FileStoreAdmin.load_scope_types config s ts acc d
    = (Ok (acc ++ omap (record_of d) (flat_map (visit_type config d s) ts)), d, log).
Proof.
  intros Hb. revert acc. induction ts as [| t r IH]; intros acc.
  - simpl. unfold ret. rewrite app_nil_r. eauto.
  - cbn [FileStoreAdmin.load_scope_types flat_map]. unfold bind.
    rewrite load_memories_by_type_spec. cbn [flat_map]. rewrite app_nil_r.
    rewrite (visit_type_in_base config d t s Hb).
    destruct (IH (acc ++ omap (record_of d) (visit_type config d s t))) as [log ->].
    rewrite omap_app, <- app_assoc. eauto.
Qed.

Lemma load_memories_by_scope_spec (config : MemoryConfig) (s : MemoryScope) (d : Disk) :
  exists log,
    FileStoreAdmin.load_memories_by_scope config s d
    = (Ok (omap (record_of d) (visit_scope config d s)), d, log).
Proof.
  unfold FileStoreAdmin.load_memories_by_scope, try_except, bind, get_disk, visit_scope.
  cbn beta iota zeta.
  destruct (dir_exists d (BaseDir (get_storage_path config (scope_value s)))) eqn:Hb;
    cbn [negb andb]; [| unfold ret; eauto].
  destruct (dir_exists d (ScopeDir (get_storage_path config (scope_value s)) s));
    cbn [negb]; [| unfold ret; eauto].
  destruct (load_scope_types_spec config s all_memory_types [] d Hb) as [log ->].
  simpl app. eauto.
Qed.

(** X14. The enumerations agree: [load_all_memories] returns the records
    of [load_memories_by_scope] for the global scope followed by those for
    the project scope, and [load_memories_by_type] without a scope returns
    the records of that type in the global scope followed by those in the
    project scope.  None of them raises or changes the disk. *)
Theorem enumerations_agree (config : MemoryConfig) (d : Disk) :
  (exists g p,
     (FileStoreAdmin.load_memories_by_scope config GLOBAL d).1 = (Ok g, d)
     /\ (FileStoreAdmin.load_memories_by_scope config PROJECT d).1 = (Ok p, d)
     /\ (FileStore.load_all_memories config d).1 = (Ok (g ++ p), d))
  /\ forall t, exists g p,
       (FileStoreAdmin.load_memories_by_type config t (Some GLOBAL) d).1 = (Ok g, d)
       /\ (FileStoreAdmin.load_memories_by_type config t (Some PROJECT) d).1 = (Ok p, d)
       /\ (FileStoreAdmin.load_memories_by_type config t None d).1 = (Ok (g ++ p), d).
Proof.
  split.
  - destruct (load_memories_by_scope_spec config GLOBAL d) as [lg ->].
    destruct (load_memories_by_scope_spec config PROJECT d) as [lp ->].
    eexists _, _. split; [reflexivity |]. split; [reflexivity |].
    rewrite load_all_memories_spec. unfold well_formed_records, enumerated.
    cbn [flat_map fst]. rewrite app_nil_r, omap_app. reflexivity.
  - intros t. rewrite !load_memories_by_type_spec. cbn [flat_map fst].
    eexists _, _. split; [reflexivity |]. split; [reflexivity |].
    rewrite !app_nil_r, omap_app. reflexivity.
Qed.

(** ** Records and their paths *)

Lemma delete_memory_files (config : MemoryConfig) (memory_id : string) (d : Disk) :
  files (FileStore.delete_memory config memory_id d).1.2 = files d
  \/ exists p, files (FileStore.delete_memory config memory_id d).1.2
               = file_remove p (files d).
Proof.
  unfold FileStore.delete_memory, try_except, bind, get_disk.
  destruct (FileStore.locate config d memory_id) as [p |]; [| left; reflexivity].
  unfold unlink. destruct (io_fault d (UnlinkFile p)); [left; reflexivity |].
  destruct (file_exists d p); [| left; reflexivity].
  destruct (remove_from_index_total config memory_id) as [Hn Hk].
  set (d1 := mkDisk (dirs d) _ (index_files d) (io_fault d)).
  specialize (Hn d1). specialize (Hk d1).
  destruct (FileStore._remove_from_index config memory_id d1) as [[r d2] l2]. simpl in *.
  destruct Hn as [[] ->]. simpl. destruct Hk as (Hf & _). right. exists p. exact Hf.
Qed.

Lemma new_Memory_Ok (data m : Memory) : new_Memory data = Ok m -> m = data.
Proof.
  unfold new_Memory. destruct (_ && _)%bool; [| discriminate].
  intros [= <-]. reflexivity.
Qed.

Lemma json_data_keys (m data : Memory) :
  json_data m = Ok data ->
  id data = id m /\ scope data = scope m /\ memory_type data = memory_type m.
Proof.
  unfold json_data. destruct (json_roundtrip _); [| discriminate].
  destruct (json_items _); [| discriminate]. intros [= <-]. auto.
Qed.

(** X15. Files stay where their records belong: if every readable file
    lies at the path of the record it holds, this is still so after
    [store_memory] of a record with a plain identifier and after
    [delete_memory], whether they succeed or fail. *)
Theorem consistent_preserved (config : MemoryConfig) (d : Disk) :
  consistent config d ->
  (forall now m, plain_id (id m) = true ->
     consistent config (FileStore.store_memory config now m d).1.2)
  /\ (forall memory_id, consistent config (FileStore.delete_memory config memory_id d).1.2).
Proof.
  intros Hc. split.
  - intros now m _ p m' st.
    destruct (store_memory_disk config now m d)
      as (_ & _ & [(data & Hdata & _ & Hf) | [_ [-> | ->]]]); [| apply Hc |].
    + rewrite Hf, file_get_set. destruct (decide _) as [-> | _]; [| apply Hc].
      unfold written. destruct (new_Memory data) as [m1 |] eqn:Hv; [| discriminate].
      intros [= <- _]. apply new_Memory_Ok in Hv. subst m1.
      apply json_data_keys in Hdata as (-> & -> & ->). reflexivity.
    + unfold opened. simpl. rewrite file_get_set.
      destruct (decide _) as [-> | _]; [discriminate | apply Hc].
  - intros memory_id p m st.
    destruct (delete_memory_files config memory_id d) as [-> | [p0 ->]]; [apply Hc |].
    rewrite file_get_remove. destruct (decide _); [discriminate | apply Hc].
Qed.

Lemma glob_path (d : Disk) (base : string) (s : MemoryScope) (t : MemoryType)
    (e : FilePath * FileContent) :
  e ∈ glob d base s t -> path_scope e.1 = s /\ path_type e.1 = t.
Proof.
  unfold glob. intros H. apply list_elem_of_filter in H as [(_ & Hs & Ht) _]. auto.
Qed.

(** X16. On a store whose files lie at the paths of their records,
    lookups return what was asked for: [load_memory] of a plain
    identifier returns a record with that identifier, and every record
    [load_memories_by_type] returns has the requested type and, when a
    scope is given, that scope. *)
Theorem consistent_lookups (config : MemoryConfig) (d : Disk) :
  consistent config d ->
  (forall memory_id m,
     plain_id memory_id = true ->
     (FileStore.load_memory config memory_id d).1.1 = Ok (Some m) -> id m = memory_id)
  /\ (forall t s ms m,
        (FileStoreAdmin.load_memories_by_type config t s d).1.1 = Ok ms -> m ∈ ms ->
        memory_type m = t /\ (forall s0, s = Some s0 -> scope m = s0)).
Proof.
  intros Hc. split.
  - intros memory_id m _.
    unfold FileStore.load_memory, try_except, bind, get_disk, read_memory, ret.
    destruct (FileStore.locate config d memory_id) as [p |] eqn:Hloc; [| discriminate].
    destruct (locate_found config d memory_id p Hloc) as [(s & t & Hp) _].
    unfold parse. destruct (file_get p (files d)) as [[m' st | e] |] eqn:Hget;
      simpl; try discriminate.
    intros [= <-]. apply Hc in Hget. rewrite Hp in Hget.
    apply memory_file_inj in Hget as (_ & _ & Hid). congruence.
  - intros t s ms m. rewrite load_memories_by_type_spec. simpl. intros [= <-] Hm.
    apply list_elem_of_omap in Hm as ([p c] & Hin & Hrec).
    unfold record_of, parse in Hrec. simpl in Hrec.
    destruct (file_get p (files d)) as [[m' st | e] |] eqn:Hget; try discriminate.
    injection Hrec as ->. apply Hc in Hget.
    apply list_elem_of_In, in_flat_map in Hin as (s1 & Hs1 & Hin).
    unfold visit_type_in in Hin.
    destruct (_ && _)%bool; [| destruct Hin].
    apply list_elem_of_In, glob_path in Hin as [Hps Hpt]. simpl in *.
    rewrite Hget in Hps, Hpt. simpl in *. split; [congruence |].
    intros s0 ->. destruct Hs1 as [<- | []]. congruence.
Qed.

Lemma sample_disk_consistent : consistent Sample.config Sample.disk.
Proof.
  intros p m st. unfold Sample.disk. cbn [files file_get].
  repeat case_bool_decide; intros Hget; try discriminate;
    injection Hget as <- _; subst p; reflexivity.
Defined.

Lemma consistent_preserved_witness :
  consistent Sample.config Sample.disk
  /\ consistent Sample.config
       (FileStore.store_memory Sample.config 7 Sample.m_python Sample.disk).1.2
  /\ consistent Sample.config (FileStore.delete_memory Sample.config "dup" Sample.disk).1.2.
Proof.
  split; [exact sample_disk_consistent |]. split.
  - exact (proj1 (consistent_preserved Sample.config Sample.disk sample_disk_consistent)
             7%Z Sample.m_python eq_refl).
  - exact (proj2 (consistent_preserved Sample.config Sample.disk sample_disk_consistent)
             "dup").
Defined.

Lemma consistent_lookups_witness :
  (FileStore.load_memory Sample.config "dup" Sample.disk).1.1 = Ok (Some Sample.m_dup_global)
  /\ id Sample.m_dup_global = "dup"
  /\ (FileStoreAdmin.load_memories_by_type Sample.config SEMANTIC (Some PROJECT)
        Sample.disk).1.1 = Ok [Sample.m_dup_project]
  /\ memory_type Sample.m_dup_project = SEMANTIC.
Proof.
  destruct (consistent_lookups Sample.config Sample.disk sample_disk_consistent)
    as [Hload Htype].
  assert (H1 : (FileStore.load_memory Sample.config "dup" Sample.disk).1.1
               = Ok (Some Sample.m_dup_global)) by (vm_compute; reflexivity).
  assert (H2 : (FileStoreAdmin.load_memories_by_type Sample.config SEMANTIC (Some PROJECT)
                  Sample.disk).1.1 = Ok [Sample.m_dup_project])
    by (vm_compute; reflexivity).
  split; [exact H1 |]. split; [exact (Hload "dup" Sample.m_dup_global eq_refl H1) |].
  split; [exact H2 |].
  exact (proj1 (Htype SEMANTIC (Some PROJECT) [Sample.m_dup_project] Sample.m_dup_project
                  H2 (list_elem_of_here _ _))).
Defined.

(** ** Statistics of the durable store *)

Lemma dict_incr_lookup (k : string) (stats stats1 : gmap string Z) :
  FileStoreAdmin.dict_incr k stats = Ok stats1 ->
  forall k', stats1 !! k'
             = if decide (k = k') then Z.succ <$> stats !! k' else stats !! k'.
Proof.
  unfold FileStoreAdmin.dict_incr. destruct (stats !! k) as [n |] eqn:E; [| discriminate].
  intros [= <-] k'. rewrite lookup_insert. destruct (decide (k = k')) as [<- | _].
  - rewrite E. reflexivity.
  - reflexivity.
Qed.

Lemma dict_incr_present (k : string) (stats : gmap string Z) :
  is_Some (stats !! k) -> exists stats1, FileStoreAdmin.dict_incr k stats = Ok stats1.
Proof. intros [n E]. unfold FileStoreAdmin.dict_incr. rewrite E. eauto. Qed.

Lemma scope_value_inj (s s' : MemoryScope) : scope_value s = scope_value s' -> s = s'.
Proof. destruct s, s'; simpl; congruence. Qed.

Lemma type_value_inj (t t' : MemoryType) : type_value t = type_value t' -> t = t'.
Proof. destruct t, t'; simpl; congruence. Qed.

Lemma scope_type_value (s : MemoryScope) (t : MemoryType) : scope_value s <> type_value t.
Proof. destruct s, t; discriminate. Qed.

Lemma count_scope_cons (s : MemoryScope) (m : Memory) (ms : list Memory) :
  count_scope s (m :: ms)
  = ((if decide (scope m = s) then 1 else 0) + count_scope s ms)%Z.
Proof.
  unfold count_scope. rewrite filter_cons.
  destruct (decide (scope m = s)); simpl length; lia.
Qed.

Lemma count_type_cons (t : MemoryType) (m : Memory) (ms : list Memory) :
  count_type t (m :: ms)
  = ((if decide (memory_type m = t) then 1 else 0) + count_type t ms)%Z.
Proof.
  unfold count_type. rewrite filter_cons.
  destruct (decide (memory_type m = t)); simpl length; lia.
Qed.

Lemma count_memories_spec (ms : list Memory) (stats : gmap string Z) :
  (forall s, is_Some (stats !! scope_value s)) ->
  (forall t, is_Some (stats !! type_value t)) ->
  exists stats',
    FileStoreAdmin.count_memories ms stats = (stats', None)
    /\ stats' !! "total" = stats !! "total"
    /\ (forall s, stats' !! scope_value s
                  = (fun n => (n + count_scope s ms)%Z) <$> stats !! scope_value s)
    /\ (forall t, stats' !! type_value t
                  = (fun n => (n + count_type t ms)%Z) <$> stats !! type_value t).
Proof.
  revert stats. induction ms as [| m r IH]; intros stats Hs Ht.
  - exists stats. simpl. split; [reflexivity |]. split; [reflexivity |]. split.
    + intros s. destruct (Hs s) as [n ->]. simpl. f_equal. unfold count_scope. simpl. lia.
    + intros t. destruct (Ht t) as [n ->]. simpl. f_equal. unfold count_type. simpl. lia.
  - cbn [FileStoreAdmin.count_memories].
    destruct (dict_incr_present _ stats (Hs (scope m))) as [stats1 E1]. rewrite E1.
    pose proof (dict_incr_lookup _ _ _ E1) as L1.
    assert (Ht1 : forall t, is_Some (stats1 !! type_value t)).
    { intros t. rewrite L1. destruct (decide _) as [E | _]; [| apply Ht].
      exfalso. exact (scope_type_value _ _ E). }
    destruct (dict_incr_present _ stats1 (Ht1 (memory_type m))) as [stats2 E2]. rewrite E2.
    pose proof (dict_incr_lookup _ _ _ E2) as L2.
    destruct (IH stats2) as (stats' & Hrun & Htot & Hsc & Hty).
    { intros s. rewrite L2. destruct (decide _) as [E | _].
      - exfalso. exact (scope_type_value _ _ (eq_sym E)).
      - rewrite L1. destruct (decide _); [| apply Hs].
        destruct (Hs s) as [n ->]. simpl. eauto. }
    { intros t. rewrite L2. destruct (decide _); [| apply Ht1].
      destruct (Ht1 t) as [n ->]. simpl. eauto. }
    exists stats'. split; [exact Hrun |]. split; [| split].
    + rewrite Htot, L2, L1.
      destruct (decide (type_value (memory_type m) = "total")) as [E | _].
      { destruct (memory_type m); discriminate. }
      destruct (decide (scope_value (scope m) = "total")) as [E | _]; [| reflexivity].
      destruct (scope m); discriminate.
    + intros s. rewrite Hsc, L2, L1, count_scope_cons.
      destruct (decide (type_value (memory_type m) = scope_value s)) as [E | _].
      { exfalso. exact (scope_type_value _ _ (eq_sym E)). }
      destruct (Hs s) as [n ->]. simpl.
      destruct (decide (scope_value (scope m) = scope_value s)) as [E | Hne];
        destruct (decide (scope m = s)) as [E' | Hne']; simpl; f_equal; try lia.
      * apply scope_value_inj in E. contradiction.
      * subst s. contradiction.
    + intros t. rewrite Hty, L2, L1, count_type_cons.
      destruct (decide (scope_value (scope m) = type_value t)) as [E | _].
      { exfalso. exact (scope_type_value _ _ E). }
      destruct (Ht t) as [n ->].
      destruct (decide (type_value (memory_type m) = type_value t)) as [E | Hne];
        destruct (decide (memory_type m = t)) as [E' | Hne']; simpl; f_equal; try lia.
      * apply type_value_inj in E. contradiction.
      * subst t. contradiction.
Qed.

Lemma count_scope_total (ms : list Memory) :
  (count_scope GLOBAL ms + count_scope PROJECT ms)%Z = Z.of_nat (length ms).
Proof.
  induction ms as [| m r IH]; [reflexivity |].
  rewrite !count_scope_cons. simpl length.
  destruct (scope m); repeat (destruct (decide _); try congruence); lia.
Qed.

Lemma count_type_total (ms : list Memory) :
  (count_type WORKING ms + count_type SEMANTIC ms + count_type EPISODIC ms
   + count_type PROCEDURAL ms)%Z = Z.of_nat (length ms).
Proof.
  induction ms as [| m r IH]; [reflexivity |].
  rewrite !count_type_cons. simpl length.
  destruct (memory_type m); repeat (destruct (decide _); try congruence); lia.
Qed.

(** X17. [get_memory_stats] never fails and counts every enumerated record
    once per dimension: "total" is the number of records
    [load_all_memories] returns, the entries "global" and "project" are the
    numbers of records of each scope and add up to "total", and the four
    type entries are the numbers of records of each type and add up to
    "total". *)
Theorem get_memory_stats_totals (config : MemoryConfig) (d : Disk) :
  let ms := well_formed_records config d in
  exists stats log,
    FileStoreAdmin.get_memory_stats config d = (Ok stats, d, log)
    /\ stats !! "total" = Some (Z.of_nat (length ms))
    /\ (forall s, stats !! scope_value s = Some (count_scope s ms))
    /\ (forall t, stats !! type_value t = Some (count_type t ms))
    /\ (count_scope GLOBAL ms + count_scope PROJECT ms)%Z = Z.of_nat (length ms)
    /\ (count_type WORKING ms + count_type SEMANTIC ms + count_type EPISODIC ms
        + count_type PROCEDURAL ms)%Z = Z.of_nat (length ms).
Proof.
  cbv zeta. unfold FileStoreAdmin.get_memory_stats. rewrite load_all_memories_spec.
  set (ms := well_formed_records config d).
  set (stats0 := <["total" := Z.of_nat (length ms)]> FileStoreAdmin.initial_stats).
  assert (Hs0 : forall s, stats0 !! scope_value s = Some 0%Z).
  { intros s. destruct s; vm_compute; reflexivity. }
  assert (Ht0 : forall t, stats0 !! type_value t = Some 0%Z).
  { intros t. destruct t; vm_compute; reflexivity. }
  destruct (count_memories_spec ms stats0) as (stats & Hrun & Htot & Hsc & Hty).
  { intros s. rewrite Hs0. eauto. }
  { intros t. rewrite Ht0. eauto. }
  rewrite Hrun. exists stats. eexists. split; [reflexivity |].
  split; [| split; [| split; [| split]]].
  - rewrite Htot. unfold stats0. apply lookup_insert_eq.
  - intros s. rewrite Hsc, Hs0. reflexivity.
  - intros t. rewrite Hty, Ht0. reflexivity.
  - apply count_scope_total.
  - apply count_type_total.
Qed.

(** ** Set-up and clean-up of the durable store *)

Section Stays.

Variable R : Disk -> Disk -> Prop.
Hypothesis R_refl : forall d, R d d.
Hypothesis R_trans : forall d1 d2 d3, R d1 d2 -> R d2 d3 -> R d1 d3.

Lemma stays_ret {A} (a : A) : stays R (ret a).
Proof. intros d. apply R_refl. Qed.

Lemma stays_logger (lvl : Level) (what : string) (e : option Exn) :
  stays R (logger lvl what e).
Proof. intros d. apply R_refl. Qed.

Lemma stays_bind {A B} (c : IO A) (k : A -> IO B) :
  stays R c -> (forall a, stays R (k a)) -> stays R (bind c k).
Proof.
  intros Hc Hk d. unfold bind. specialize (Hc d).
  destruct (c d) as [[[a | e] d1] l1]; simpl in *; [| exact Hc].
  specialize (Hk a d1). destruct (k a d1) as [[r d2] l2]. simpl in *.
  eapply R_trans; eassumption.
Qed.

Lemma stays_get_disk_bind {B} (k : Disk -> IO B) :
  (forall d, stays R (k d)) -> stays R (bind get_disk k).
Proof. intros Hk. apply stays_bind; [intros d; apply R_refl | exact Hk]. Qed.

Lemma stays_try_except {A} (c : IO A) (h : Exn -> IO A) :
  stays R c -> (forall e, stays R (h e)) -> stays R (try_except c h).
Proof.
  intros Hc Hh d. unfold try_except. specialize (Hc d).
  destruct (c d) as [[[a | e] d1] l1]; simpl in *; [exact Hc |].
  specialize (Hh e d1). destruct (h e d1) as [[r d2] l2]. simpl in *.
  eapply R_trans; eassumption.
Qed.

End Stays.

Lemma keeps_readable_refl (d : Disk) : keeps_readable d d.
Proof. repeat split; auto. Qed.

Lemma keeps_readable_trans (d1 d2 d3 : Disk) :
  keeps_readable d1 d2 -> keeps_readable d2 d3 -> keeps_readable d1 d3.
Proof.
  intros (Hd & Hf & Hp) (Hd' & Hf' & Hp'). repeat split; try congruence. auto.
Qed.

(** One step of the clean-up: a file that deserialises is left alone. *)
Lemma cleanup_step_keeps_readable (p : FilePath) (cleaned : Z) :
  stays keeps_readable
    (try_except
       (bind (read_memory p) (fun _ => ret cleaned))
       (fun e => bind (logger WARNING (path_stem p) (Some e))
                   (fun _ => bind (unlink p) (fun _ => ret (cleaned + 1)%Z)))).
Proof.
  intros d. unfold try_except, bind, read_memory, ret, logger.
  destruct (parse d p) as [m | e] eqn:Hp; simpl; [apply keeps_readable_refl |].
  unfold unlink. destruct (io_fault d (UnlinkFile p)); simpl; [apply keeps_readable_refl |].
  destruct (file_exists d p); simpl; [| apply keeps_readable_refl].
  repeat split. intros p' m Hp'. unfold parse in *. simpl.
  rewrite file_get_remove. destruct (decide (p' = p)) as [-> | _]; [congruence | exact Hp'].
Qed.

Lemma cleanup_files_keeps_readable (es : list (FilePath * FileContent)) (cleaned : Z) :
  stays keeps_readable (FileStoreAdmin.cleanup_files es cleaned).
Proof.
  revert cleaned. induction es as [| [p c] rest IH]; intros cleaned; simpl.
  - apply stays_ret, keeps_readable_refl.
  - apply (stays_bind _ keeps_readable_trans); [apply cleanup_step_keeps_readable | exact IH].
Qed.

Lemma cleanup_types_keeps_readable (config : MemoryConfig) (s : MemoryScope)
    (ts : list MemoryType) (cleaned : Z) :
  stays keeps_readable (FileStoreAdmin.cleanup_types config s ts cleaned).
Proof.
  revert cleaned. induction ts as [| t rest IH]; intros cleaned; simpl.
  - apply stays_ret, keeps_readable_refl.
  - apply (stays_get_disk_bind _ keeps_readable_refl keeps_readable_trans). intros d.
    destruct (negb _); [apply IH |].
    apply (stays_bind _ keeps_readable_trans); [apply cleanup_files_keeps_readable | exact IH].
Qed.

Lemma cleanup_scopes_keeps_readable (config : MemoryConfig) (ss : list MemoryScope)
    (cleaned : Z) :
  stays keeps_readable (FileStoreAdmin.cleanup_scopes config ss cleaned).
Proof.
  revert cleaned. induction ss as [| s rest IH]; intros cleaned;
    cbn [FileStoreAdmin.cleanup_scopes].
  - apply stays_ret, keeps_readable_refl.
  - apply (stays_get_disk_bind _ keeps_readable_refl keeps_readable_trans). intros d.
    destruct (negb _); [apply IH |]. destruct (negb _); [apply IH |].
    apply (stays_bind _ keeps_readable_trans); [apply cleanup_types_keeps_readable | exact IH].
Qed.

Lemma cleanup_files_clean (es : list (FilePath * FileContent)) (cleaned : Z) (d : Disk) :
  omap (warning_of d) es = [] ->
  FileStoreAdmin.cleanup_files es cleaned d = (Ok cleaned, d, []).
Proof.
  induction es as [| [p c] rest IH]; simpl; [reflexivity |].
  unfold warning_of at 1. simpl. unfold bind at 1, try_except, read_memory, bind, ret.
  destruct (parse d p) as [m | e]; [| discriminate].
  intros H. simpl. fold (bind (A := Z) (B := Z)). rewrite (IH H). reflexivity.
Qed.

Lemma cleanup_types_clean (config : MemoryConfig) (s : MemoryScope) (ts : list MemoryType)
    (cleaned : Z) (d : Disk) :
  omap (warning_of d) (flat_map (visit_type config d s) ts) = [] ->
  FileStoreAdmin.cleanup_types config s ts cleaned d = (Ok cleaned, d, []).
Proof.
  induction ts as [| t rest IH]; [reflexivity |].
  cbn [FileStoreAdmin.cleanup_types flat_map]. rewrite omap_app.
  intros H. apply app_eq_nil in H as [Ht Hrest].
  unfold visit_type in Ht. unfold bind, get_disk at 1. cbn beta iota zeta in *.
  destruct (dir_exists d (TypeDir (get_storage_path config (scope_value s)) s t));
    cbn [negb].
  - rewrite (cleanup_files_clean _ cleaned d Ht), (IH Hrest). reflexivity.
  - rewrite (IH Hrest). reflexivity.
Qed.

Lemma cleanup_scopes_clean (config : MemoryConfig) (ss : list MemoryScope)
    (cleaned : Z) (d : Disk) :
  omap (warning_of d) (flat_map (visit_scope config d) ss) = [] ->
  FileStoreAdmin.cleanup_scopes config ss cleaned d = (Ok cleaned, d, []).
Proof.
  induction ss as [| s rest IH]; [reflexivity |].
  cbn [FileStoreAdmin.cleanup_scopes flat_map]. rewrite omap_app.
  intros H. apply app_eq_nil in H as [Hs Hrest].
  unfold visit_scope in Hs. unfold bind, get_disk at 1. cbn beta iota zeta in *.
  destruct (dir_exists d (BaseDir (get_storage_path config (scope_value s))));
    cbn [negb andb] in *; [| rewrite (IH Hrest); reflexivity].
  destruct (dir_exists d (ScopeDir (get_storage_path config (scope_value s)) s));
    cbn [negb] in *; [| rewrite (IH Hrest); reflexivity].
  rewrite (cleanup_types_clean config s all_memory_types cleaned d Hs), (IH Hrest).
  reflexivity.
Qed.

(** X18. [cleanup_orphaned_files] is safe: it never raises, never creates
    or removes a directory, and never removes or alters a file that
    deserialises (every such file holds the same record afterwards); on a
    store whose enumeration gives no warning it removes nothing and
    returns 0. *)
Theorem cleanup_orphaned_files_safe (config : MemoryConfig) (d : Disk) :
  let out := FileStoreAdmin.cleanup_orphaned_files config d in
  (exists n, out.1.1 = Ok n)
  /\ dirs out.1.2 = dirs d
  /\ (forall p m, parse d p = Ok m -> parse out.1.2 p = Ok m)
  /\ (skipped_warnings config d = [] ->
      out = (Ok 0%Z, d, [mkLog INFO "cleanup_orphaned_files" None])).
Proof.
  cbv zeta. split; [| split; [| split]].
  - unfold FileStoreAdmin.cleanup_orphaned_files, try_except.
    destruct (bind _ _ d) as [[[n | e] d1] l1]; simpl; eauto.
  - assert (H : stays keeps_readable (FileStoreAdmin.cleanup_orphaned_files config)).
    { apply (stays_try_except _ keeps_readable_trans).
      - apply (stays_bind _ keeps_readable_trans);
          [apply cleanup_scopes_keeps_readable |].
        intros n. apply (stays_bind _ keeps_readable_trans);
          [apply stays_logger, keeps_readable_refl |].
        intros _. apply stays_ret, keeps_readable_refl.
      - intros e. apply (stays_bind _ keeps_readable_trans);
          [apply stays_logger, keeps_readable_refl |].
        intros _. apply stays_ret, keeps_readable_refl. }
    apply (H d).
  - assert (H : stays keeps_readable (FileStoreAdmin.cleanup_orphaned_files config)).
    { apply (stays_try_except _ keeps_readable_trans).
      - apply (stays_bind _ keeps_readable_trans);
          [apply cleanup_scopes_keeps_readable |].
        intros n. apply (stays_bind _ keeps_readable_trans);
          [apply stays_logger, keeps_readable_refl |].
        intros _. apply stays_ret, keeps_readable_refl.
      - intros e. apply (stays_bind _ keeps_readable_trans);
          [apply stays_logger, keeps_readable_refl |].
        intros _. apply stays_ret, keeps_readable_refl. }
    apply (H d).
  - intros Hclean. unfold FileStoreAdmin.cleanup_orphaned_files, try_except, bind.
    rewrite (cleanup_scopes_clean config [GLOBAL; PROJECT] 0%Z d Hclean). reflexivity.
Qed.

Lemma cleanup_orphaned_files_safe_witness :
  skipped_warnings Sample.config CleanSample.disk = []
  /\ FileStoreAdmin.cleanup_orphaned_files Sample.config CleanSample.disk
     = (Ok 0%Z, CleanSample.disk, [mkLog INFO "cleanup_orphaned_files" None])
  /\ parse Sample.disk Sample.p_dup_project = Ok Sample.m_dup_project
  /\ parse (FileStoreAdmin.cleanup_orphaned_files Sample.config Sample.disk).1.2
       Sample.p_dup_project = Ok Sample.m_dup_project.
Proof.
  assert (H : skipped_warnings Sample.config CleanSample.disk = [])
    by (vm_compute; reflexivity).
  assert (Hp : parse Sample.disk Sample.p_dup_project = Ok Sample.m_dup_project)
    by (vm_compute; reflexivity).
  split; [exact H |]. split.
  - exact (proj2 (proj2 (proj2
             (cleanup_orphaned_files_safe Sample.config CleanSample.disk))) H).
  - split; [exact Hp |].
    exact (proj1 (proj2 (proj2 (cleanup_orphaned_files_safe Sample.config Sample.disk)))
             _ _ Hp).
Defined.

Example cleanup_removes_broken :
  (FileStoreAdmin.cleanup_orphaned_files Sample.config Sample.disk).1.1 = Ok 1%Z
  /\ map fst (files (FileStoreAdmin.cleanup_orphaned_files Sample.config Sample.disk).1.2)
     = [Sample.p_dup_global; Sample.p_dup_project].
Proof. split; vm_compute; reflexivity. Qed.

Lemma elem_of_add_dir (x y : Dir) (l : list Dir) : y ∈ add_dir x l <-> y = x \/ y ∈ l.
Proof.
  unfold add_dir. case_bool_decide as Hin.
  - split; [auto |]. intros [-> | H]; assumption.
  - rewrite elem_of_app, list_elem_of_singleton. tauto.
Qed.

Lemma elem_of_add_dirs (ps : list Dir) (y : Dir) (l : list Dir) :
  y ∈ foldl (fun l x => add_dir x l) l ps <-> y ∈ l \/ y ∈ ps.
Proof.
  revert l. induction ps as [| x r IH]; intros l; simpl.
  - rewrite elem_of_nil. tauto.
  - rewrite IH, elem_of_add_dir, elem_of_cons. tauto.
Qed.

Lemma more_dirs_refl (d : Disk) : more_dirs d d.
Proof. repeat split; auto. Qed.

Lemma more_dirs_trans (d1 d2 d3 : Disk) :
  more_dirs d1 d2 -> more_dirs d2 d3 -> more_dirs d1 d3.
Proof.
  intros (Hf & Hi & Ho & Hd) (Hf' & Hi' & Ho' & Hd').
  repeat split; try congruence. set_solver.
Qed.

Lemma mkdir_spec (fault : Dir -> option Exn) (x : Dir) (d : Disk) :
  fault x = None ->
  (mkdir fault x d).1.1 = Ok tt
  /\ more_dirs d (mkdir fault x d).1.2
  /\ forall y, y ∈ parents x -> y ∈ dirs (mkdir fault x d).1.2.
Proof.
  intros Hf. unfold mkdir. rewrite Hf. simpl. split; [reflexivity |]. split.
  - repeat split. intros y Hy. apply elem_of_add_dirs. auto.
  - intros y Hy. apply elem_of_add_dirs. auto.
Qed.

Lemma setup_types_spec (fault : Dir -> option Exn) (base : string) (s : MemoryScope)
    (ts : list MemoryType) (d : Disk) :
  (forall x, fault x = None) ->
  let out := FileStoreAdmin.setup_types fault base s ts d in
  out.1.1 = Ok tt /\ more_dirs d out.1.2
  /\ forall t y, t ∈ ts -> y ∈ parents (TypeDir base s t) -> y ∈ dirs out.1.2.
Proof.
  intros Hf. cbv zeta. revert d. induction ts as [| t rest IH]; intros d; simpl.
  - split; [reflexivity |]. split; [apply more_dirs_refl |].
    intros t y Ht. apply elem_of_nil in Ht. contradiction.
  - unfold bind.
    destruct (mkdir_spec fault (TypeDir base s t) d (Hf _)) as (Hok & Hmore & Hnew).
    destruct (mkdir fault (TypeDir base s t) d) as [[r d1] l1]. simpl in *. subst r.
    destruct (IH d1) as (Hok' & Hmore' & Hnew').
    destruct (FileStoreAdmin.setup_types fault base s rest d1) as [[r d2] l2]. simpl in *.
    split; [exact Hok' |]. split; [eapply more_dirs_trans; eassumption |].
    intros t' y Ht' Hy. apply elem_of_cons in Ht' as [-> | Ht'].
    + destruct Hmore' as (_ & _ & _ & Hsub). apply Hsub, Hnew, Hy.
    + apply (Hnew' t' y Ht' Hy).
Qed.

Lemma setup_scopes_spec (config : MemoryConfig) (fault : Dir -> option Exn)
    (ss : list MemoryScope) (d : Disk) :
  (forall x, fault x = None) ->
  let out := FileStoreAdmin.setup_scopes config fault ss d in
  out.1.1 = Ok tt /\ more_dirs d out.1.2
  /\ forall s y, s ∈ ss ->
       (exists t, y ∈ parents (TypeDir (get_storage_path config (scope_value s)) s t))
       \/ y = MetaDir (get_storage_path config (scope_value s)) s ->
       y ∈ dirs out.1.2.
Proof.
  intros Hf. cbv zeta. revert d. induction ss as [| s rest IH]; intros d.
  - simpl. split; [reflexivity |]. split; [apply more_dirs_refl |].
    intros s y Hs. apply elem_of_nil in Hs. contradiction.
  - cbn [FileStoreAdmin.setup_scopes]. unfold bind.
    destruct (setup_types_spec fault (get_storage_path config (scope_value s)) s
                all_memory_types d Hf) as (Hok1 & Hmore1 & Hnew1).
    destruct (FileStoreAdmin.setup_types fault _ s all_memory_types d) as [[r1 d1] l1].
    simpl in *. subst r1.
    destruct (mkdir_spec fault (MetaDir (get_storage_path config (scope_value s)) s) d1
                (Hf _)) as (Hok2 & Hmore2 & Hnew2).
    destruct (mkdir fault (MetaDir (get_storage_path config (scope_value s)) s) d1)
      as [[r2 d2] l2]. simpl in *. subst r2.
    destruct (IH d2) as (Hok3 & Hmore3 & Hnew3).
    destruct (FileStoreAdmin.setup_scopes config fault rest d2) as [[r3 d3] l3].
    simpl in *. split; [exact Hok3 |].
    split; [eapply more_dirs_trans; [| exact Hmore3];
            eapply more_dirs_trans; eassumption |].
    intros s' y Hs' Hy. apply elem_of_cons in Hs' as [-> | Hs'].
    + destruct Hmore2 as (_ & _ & _ & Hsub2). destruct Hmore3 as (_ & _ & _ & Hsub3).
      destruct Hy as [[t Hy] | ->].
      * apply Hsub3, Hsub2. apply (Hnew1 t y (all_memory_types_complete t) Hy).
      * apply Hsub3, Hnew2. simpl. set_solver.
    + apply (Hnew3 s' y Hs' Hy).
Qed.

Lemma store_memory_result (config : MemoryConfig) (now : Z) (m : Memory) (d : Disk) :
  (FileStore.store_memory config now m d).1.1
  = (write_file (FileStore.memory_file config (scope m) (memory_type m) (id m))
       m now d).1.1.
Proof.
  unfold FileStore.store_memory, try_except, bind.
  destruct ((write_file (FileStore.memory_file config (scope m) (memory_type m) (id m))
               m now d).1.1) as [[] | e] eqn:Hw.
  - apply write_file_ok in Hw as (data & _ & Hw). rewrite Hw.
    destruct (update_index_total config m) as [Hn _].
    set (d1 := dumped _ data now d). specialize (Hn d1).
    destruct (FileStore._update_index config m d1) as [[r d2] l2]. simpl in *.
    destruct Hn as [[] ->]. reflexivity.
  - destruct (write_file_raises _ m now d e Hw) as [H | H]; rewrite H; reflexivity.
Qed.

(** X19. When no [mkdir] fails, [_setup_directory_structure] returns
    normally, keeps every file and every existing directory, and leaves
    the storage path, scope directory, metadata directory and all four type
    directories of both scopes in existence.  From then on no
    [store_memory] fails for a missing directory: for a record with a
    plain identifier whose content JSON can write, it returns normally
    unless opening or writing the file hits an I/O fault. *)
Theorem setup_directory_structure_complete (config : MemoryConfig)
    (fault : Dir -> option Exn) (d : Disk) :
  (forall x, fault x = None) ->
  let out := FileStoreAdmin._setup_directory_structure config fault d in
  out.1.1 = Ok tt
  /\ more_dirs d out.1.2
  /\ all_dirs_exist config out.1.2
  /\ forall now m data,
       let p := FileStore.memory_file config (scope m) (memory_type m) (id m) in
       plain_id (id m) = true ->
       json_data m = Ok data ->
       io_fault d (OpenFile p) = None ->
       io_fault d (DumpFile p) = None ->
       (FileStore.store_memory config now m out.1.2).1.1 = Ok tt.
Proof.
  intros Hf. cbv zeta. unfold FileStoreAdmin._setup_directory_structure.
  destruct (setup_scopes_spec config fault [GLOBAL; PROJECT] d Hf) as (Hok & Hmore & Hnew).
  set (d' := (FileStoreAdmin.setup_scopes config fault [GLOBAL; PROJECT] d).1.2) in *.
  assert (Hall : all_dirs_exist config d').
  { intros s. cbv zeta. unfold dir_exists.
    assert (Hs : s ∈ [GLOBAL; PROJECT]) by (destruct s; set_solver).
    repeat split; try intros t; apply bool_decide_eq_true, (Hnew s _ Hs).
    - left. exists WORKING. simpl. set_solver.
    - left. exists WORKING. simpl. set_solver.
    - right. reflexivity.
    - left. exists t. simpl. set_solver. }
  split; [exact Hok |]. split; [exact Hmore |]. split; [exact Hall |].
  intros now m data _ Hdata Hopen Hdump. rewrite store_memory_result.
  unfold write_file, bind, open_for_writing.
  destruct Hmore as (_ & _ & Hio & _). rewrite Hio, Hopen.
  destruct (Hall (scope m)) as (_ & _ & _ & Ht). simpl in Ht.
  unfold FileStore.memory_file. simpl. rewrite Ht.
  unfold json_dump. rewrite Hdata. cbn [io_fault].
  unfold FileStore.memory_file in Hdump. rewrite Hdump. reflexivity.
Qed.

Lemma setup_directory_structure_complete_witness :
  (FileStore.store_memory Sample.config 7 Sample.m_python CleanSample.empty_disk).1.1
  = Raise (mkExn "FileNotFoundError" "p1")
  /\ (FileStore.store_memory Sample.config 7 Sample.m_python
        (FileStoreAdmin._setup_directory_structure Sample.config CleanSample.no_mkdir_fault
           CleanSample.empty_disk).1.2).1.1 = Ok tt.
Proof.
  split; [vm_compute; reflexivity |].
  apply (proj2 (proj2 (proj2
           (setup_directory_structure_complete Sample.config CleanSample.no_mkdir_fault
              CleanSample.empty_disk (fun _ => eq_refl)))) 7%Z Sample.m_python
           Sample.m_python); reflexivity.
Defined.

(** ** The lookup index *)

Lemma index_get_set (b b' : string) (s s' : MemoryScope) (ix : IndexFile)
    (l : list (string * MemoryScope * IndexFile)) :
  index_get b s (index_set b' s' ix l)
  = if decide (b = b' /\ s = s') then Some ix else index_get b s l.
Proof.
  induction l as [| [[b0 s0] ix0] r IH]; simpl.
  - case_bool_decide; destruct (decide _); try reflexivity; contradiction.
  - case_bool_decide as H1; simpl.
    + destruct H1 as [-> ->].
      repeat case_bool_decide; destruct (decide _); try reflexivity; contradiction.
    + case_bool_decide as H2; [| exact IH].
      destruct (decide _) as [[E1 E2] | _]; [| reflexivity].
      exfalso. apply H1. destruct H2. split; congruence.
Qed.

Lemma update_index_writable (config : MemoryConfig) (m : Memory) (d : Disk)
    (ix0 : gmap string IndexEntry) :
  let base := get_storage_path config (scope_value (scope m)) in
  index_entries d base (scope m) = Some ix0 ->
  dir_exists d (MetaDir base (scope m)) = true ->
  io_fault d (WriteIndex base (scope m)) = None ->
  FileStore._update_index config m d
  = (Ok tt,
     mkDisk (dirs d) (files d)
       (index_set base (scope m) (IndexJson (<[id m := entry_of m]> ix0)) (index_files d))
       (io_fault d), []).
Proof.
  cbv zeta. unfold index_entries. intros Hix Hmeta Hfault.
  unfold FileStore._update_index, try_except, bind, get_disk, read_index, ret, write_index.
  destruct (index_get _ (scope m) (index_files d)) as [[ix | e] |] eqn:E;
    try discriminate; injection Hix as <-; cbn beta iota; rewrite ?E; cbn beta iota;
    rewrite Hfault, Hmeta; reflexivity.
Qed.

(** X20. When [store_memory] writes the record file and the lookup index
    of the record's scope can be rewritten, the index afterwards lists the
    record under its identifier with its type, title, tags, importance and
    time stamps, every other entry of that index is as before, and the
    index of the other scope is untouched. *)
Theorem store_memory_updates_index (config : MemoryConfig) (now : Z) (m : Memory)
    (d : Disk) (ix0 : gmap string IndexEntry) :
  let base := get_storage_path config (scope_value (scope m)) in
  let d' := (FileStore.store_memory config now m d).1.2 in
  (FileStore.store_memory config now m d).1.1 = Ok tt ->
  index_entries d base (scope m) = Some ix0 ->
  dir_exists d (MetaDir base (scope m)) = true ->
  io_fault d (WriteIndex base (scope m)) = None ->
  exists ix,
    index_entries d' base (scope m) = Some ix
    /\ ix !! id m = Some (entry_of m)
    /\ (forall k, k <> id m -> ix !! k = ix0 !! k)
    /\ forall b s, ~ (b = base /\ s = scope m) ->
         index_get b s (index_files d') = index_get b s (index_files d).
Proof.
  cbv zeta. intros Hok Hix Hmeta Hfault.
  rewrite store_memory_result in Hok. apply write_file_ok in Hok as (data & _ & Hok).
  unfold FileStore.store_memory, try_except, bind. rewrite Hok.
  set (d1 := dumped _ data now d).
  rewrite (update_index_writable config m d1 ix0 Hix Hmeta Hfault). simpl.
  exists (<[id m := entry_of m]> ix0). split; [| split; [| split]].
  - unfold index_entries. simpl. rewrite index_get_set.
    destruct (decide _) as [_ | Hn]; [reflexivity | exfalso; apply Hn; auto].
  - apply lookup_insert_eq.
  - intros k Hk. apply lookup_insert_ne. congruence.
  - intros b s Hne. rewrite index_get_set. destruct (decide _); [contradiction | reflexivity].
Qed.

Lemma store_memory_updates_index_witness :
  exists ix,
    index_entries (FileStore.store_memory Sample.config 7 Sample.m_python Sample.disk).1.2
      Sample.base_g GLOBAL = Some ix
    /\ ix !! "p1" = Some (entry_of Sample.m_python).
Proof.
  destruct (store_memory_updates_index Sample.config 7 Sample.m_python Sample.disk ∅)
    as (ix & Hix & Hentry & _).
  - vm_compute. reflexivity.
  - vm_compute. reflexivity.
  - vm_compute. reflexivity.
  - vm_compute. reflexivity.
  - exists ix. split; [exact Hix | exact Hentry].
Defined.

(** ** Snippets and match reasons *)

Lemma length_append (a b : string) :
  String.length (String.append a b) = (String.length a + String.length b)%nat.
Proof. induction a as [| c a IH]; simpl; [reflexivity | rewrite IH; reflexivity]. Qed.

Lemma length_substring_le (n k : nat) (s : string) :
  (String.length (String.substring n k s) <= k)%nat.
Proof.
  revert n k. induction s as [| c s IH]; intros n k.
  - destruct n, k; simpl; lia.
  - destruct n as [| n]; destruct k as [| k]; simpl; try lia.
    + specialize (IH 0%nat k). lia.
    + apply IH.
    + apply IH.
Qed.

Lemma length_slice_le (a b : nat) (s : string) :
  (String.length (Text.slice a b s) <= b - a)%nat.
Proof. apply length_substring_le. Qed.

(** X21. The context snippet is bounded: without [include_context] there
    is none; otherwise there is one and it is at most 106 characters longer
    than the query (a window of 50 characters on either side of the first
    match plus the two ellipses); when the query does not occur it is at
    most 103 characters long, and it is the whole content when that has at
    most 100 characters. *)
Theorem context_snippet_bounded (m : Memory) (q : MemoryQuery) :
  (include_context q = false -> _get_context_snippet m q = None)
  /\ (include_context q = true ->
      exists s,
        _get_context_snippet m q = Some s
        /\ (String.length s <= String.length (query q) + 106)%nat
        /\ (Text.find (Text.lower (query q)) (Text.lower (content m)) = None ->
            (String.length s <= 103)%nat
            /\ ((String.length (content m) <= 100)%nat -> s = content m))).
Proof.
  unfold _get_context_snippet. split; intros Hc; rewrite Hc; simpl; [reflexivity |].
  destruct (Text.find (Text.lower (query q)) (Text.lower (content m))) as [pos |].
  - eexists. split; [reflexivity |]. split; [| discriminate].
    set (start := (pos - 50)%nat).
    set (stop := Nat.min (String.length (content m))
                         (pos + String.length (query q) + 50)).
    pose proof (length_slice_le start stop (content m)) as Hs.
    assert (Hw : (stop - start <= String.length (query q) + 100)%nat)
      by (unfold start, stop; lia).
    destruct (Nat.ltb 0 start); destruct (Nat.ltb stop (String.length (content m)));
      rewrite ?length_append; simpl String.length; lia.
  - destruct (Nat.ltb 100 (String.length (content m))) eqn:E.
    + eexists. split; [reflexivity |].
      pose proof (length_slice_le 0 100 (content m)) as Hs.
      rewrite length_append. simpl String.length.
      split; [lia |]. intros _. split; [lia |].
      apply Nat.ltb_lt in E. lia.
    + apply Nat.ltb_ge in E. eexists. split; [reflexivity |].
      split; [lia |]. intros _. split; [lia | reflexivity].
Qed.

Lemma context_snippet_bounded_witness :
  include_context Sample.q_python = true
  /\ exists s,
       _get_context_snippet Sample.m_cooking Sample.q_python = Some s
       /\ (String.length s <= String.length (query Sample.q_python) + 106)%nat
       /\ s = content Sample.m_cooking.
Proof.
  assert (H : include_context Sample.q_python = true) by reflexivity.
  split; [exact H |].
  destruct (proj2 (context_snippet_bounded Sample.m_cooking Sample.q_python) H)
    as (s & Hs & Hlen & Hnone).
  exists s. split; [exact Hs |]. split; [exact Hlen |].
  apply Hnone; [vm_compute; reflexivity | vm_compute; lia].
Defined.

Lemma tag_reason_loop_app (ql : string) (ts : list string) (reasons : list string) :
  tag_reason_loop ql ts reasons = reasons ++ tag_reason_loop ql ts [].
Proof.
  induction ts as [| t r IH]; simpl; [rewrite app_nil_r; reflexivity |].
  destruct (Text.contains ql (Text.lower t)); [reflexivity | exact IH].
Qed.

Lemma tag_reason_loop_spec (ql : string) (ts : list string) :
  (tag_reason_loop ql ts [] = []
   \/ exists tag, tag_reason_loop ql ts [] = [String.append "Tag match: " tag]
                  /\ tag ∈ ts /\ Text.contains ql (Text.lower tag) = true)
  /\ (tag_reason_loop ql ts [] = []
      <-> existsb (fun t => Text.contains ql (Text.lower t)) ts = false).
Proof.
  induction ts as [| t r [IH1 IH2]]; simpl; [split; [auto | tauto] |].
  destruct (Text.contains ql (Text.lower t)) eqn:E; simpl.
  - split; [| split; discriminate].
    right. exists t. split; [reflexivity |]. split; [apply list_elem_of_here | exact E].
  - split; [| exact IH2].
    destruct IH1 as [-> | (tag & -> & Hin & Hc)]; [auto |].
    right. exists tag. split; [reflexivity |].
    split; [apply list_elem_of_further, Hin | exact Hc].
Qed.

Lemma match_reasons_shape (vs : VectorStore) (m : Memory) (q : MemoryQuery) :
  _get_match_reasons vs m q
  = (if Text.contains (Text.lower (query q)) (Text.lower (title m))
     then ["Title match"] else [])
    ++ (if Text.contains (Text.lower (query q)) (Text.lower (content m))
        then ["Content match"] else [])
    ++ tag_reason_loop (Text.lower (query q)) (tags m) []
    ++ (if Qlt_le_dec 7 (importance m) then ["High importance"] else [])
    ++ (match _model vs, _memory_embeddings vs !! id m with
        | Some _, Some _ => ["Semantic similarity"]
        | _, _ => []
        end).
Proof.
  unfold _get_match_reasons. rewrite tag_reason_loop_app.
  destruct (Text.contains _ (Text.lower (title m)));
    destruct (Text.contains _ (Text.lower (content m)));
    destruct (Qlt_le_dec 7 (importance m));
    destruct (_model vs); destruct (_memory_embeddings vs !! id m);
    rewrite <- ?app_assoc; simpl; rewrite ?app_nil_r; reflexivity.
Qed.

(** X22. The match reasons tell what matched: "Title match" is listed
    exactly when the query occurs in the title and "Content match" exactly
    when it occurs in the content (letter case aside), a tag reason names a
    tag of the record that contains the query and is listed exactly when
    some tag does, "High importance" is listed exactly when the importance
    exceeds 7, and "Semantic similarity" exactly when a local model is
    loaded and the record has a cached embedding; there are at most five
    reasons. *)
Theorem match_reasons_explained (vs : VectorStore) (m : Memory) (q : MemoryQuery) :
  let rs := _get_match_reasons vs m q in
  ("Title match" ∈ rs <-> LexicalSpec.ci_contains (query q) (title m) = true)
  /\ ("Content match" ∈ rs <-> LexicalSpec.ci_contains (query q) (content m) = true)
  /\ ("High importance" ∈ rs <-> 7 < importance m)
  /\ ("Semantic similarity" ∈ rs
      <-> is_Some (_model vs) /\ is_Some (_memory_embeddings vs !! id m))
  /\ (forall tag, String.append "Tag match: " tag ∈ rs ->
        tag ∈ tags m /\ LexicalSpec.ci_contains (query q) tag = true)
  /\ ((exists tag, String.append "Tag match: " tag ∈ rs)
      <-> existsb (LexicalSpec.ci_contains (query q)) (tags m) = true)
  /\ (length rs <= 5)%nat.
Proof.
  cbv zeta. rewrite match_reasons_shape. unfold LexicalSpec.ci_contains.
  destruct (tag_reason_loop_spec (Text.lower (query q)) (tags m)) as [Hextra Hiff].
  set (extra := tag_reason_loop (Text.lower (query q)) (tags m) []) in *.
  set (A := if Text.contains (Text.lower (query q)) (Text.lower (title m))
            then ["Title match"] else []).
  set (B := if Text.contains (Text.lower (query q)) (Text.lower (content m))
            then ["Content match"] else []).
  set (H := if Qlt_le_dec 7 (importance m) then ["High importance"] else []).
  set (S := match _model vs, _memory_embeddings vs !! id m with
            | Some _, Some _ => ["Semantic similarity"]
            | _, _ => []
            end).
  assert (HA : forall x, x ∈ A <-> x = "Title match"
               /\ Text.contains (Text.lower (query q)) (Text.lower (title m)) = true).
  { intros x. unfold A. destruct (Text.contains _ (Text.lower (title m))).
    - rewrite list_elem_of_singleton. tauto.
    - rewrite elem_of_nil. split; [tauto | intros [_ ?]; discriminate]. }
  assert (HB : forall x, x ∈ B <-> x = "Content match"
               /\ Text.contains (Text.lower (query q)) (Text.lower (content m)) = true).
  { intros x. unfold B. destruct (Text.contains _ (Text.lower (content m))).
    - rewrite list_elem_of_singleton. tauto.
    - rewrite elem_of_nil. split; [tauto | intros [_ ?]; discriminate]. }
  assert (HH : forall x, x ∈ H <-> x = "High importance" /\ 7 < importance m).
  { intros x. unfold H. destruct (Qlt_le_dec 7 (importance m)) as [Hlt | Hle].
    - rewrite list_elem_of_singleton. tauto.
    - rewrite elem_of_nil. split; [tauto |]. intros [_ Hlt].
      exfalso. exact (Qlt_not_le _ _ Hlt Hle). }
  assert (HS : forall x, x ∈ S <-> x = "Semantic similarity"
               /\ is_Some (_model vs) /\ is_Some (_memory_embeddings vs !! id m)).
  { intros x. unfold S. destruct (_model vs), (_memory_embeddings vs !! id m);
      rewrite ?list_elem_of_singleton, ?elem_of_nil;
      split; try tauto; try (intros (_ & [? ?] & [? ?]); discriminate); eauto. }
  assert (HE : forall x, x ∈ extra -> exists tag, x = String.append "Tag match: " tag).
  { intros x Hx. destruct Hextra as [E | (tag & E & _)]; rewrite E in Hx.
    - apply elem_of_nil in Hx. contradiction.
    - apply list_elem_of_singleton in Hx. eauto. }
  assert (Hmem : forall x, x ∈ A ++ B ++ extra ++ H ++ S
                 <-> x ∈ A \/ x ∈ B \/ x ∈ extra \/ x ∈ H \/ x ∈ S).
  { intros x. rewrite !elem_of_app. tauto. }
  assert (Hlen : (length (A ++ B ++ extra ++ H ++ S) <= 5)%nat).
  { rewrite !length_app.
    assert ((length A <= 1)%nat)
      by (unfold A; destruct (Text.contains _ (Text.lower (title m))); simpl; lia).
    assert ((length B <= 1)%nat)
      by (unfold B; destruct (Text.contains _ (Text.lower (content m))); simpl; lia).
    assert ((length H <= 1)%nat)
      by (unfold H; destruct (Qlt_le_dec 7 (importance m)); simpl; lia).
    assert ((length S <= 1)%nat)
      by (unfold S; destruct (_model vs); destruct (_memory_embeddings vs !! id m);
          simpl; lia).
    assert ((length extra <= 1)%nat)
      by (destruct Hextra as [E | (tag & E & _)]; rewrite E; simpl; lia).
    lia. }
  split; [| split; [| split; [| split; [| split; [| split; [| exact Hlen]]]]]].
  - rewrite Hmem, HA, HB, HH, HS. split; [| tauto].
    intros [[_ ?] | [[? _] | [Hx | [[? _] | [? _]]]]];
      try assumption; try discriminate.
    apply HE in Hx as [tag ?]. discriminate.
  - rewrite Hmem, HA, HB, HH, HS. split; [| tauto].
    intros [[? _] | [[_ ?] | [Hx | [[? _] | [? _]]]]];
      try assumption; try discriminate.
    apply HE in Hx as [tag ?]. discriminate.
  - rewrite Hmem, HA, HB, HH, HS. split; [| tauto].
    intros [[? _] | [[? _] | [Hx | [[_ ?] | [? _]]]]];
      try assumption; try discriminate.
    apply HE in Hx as [tag ?]. discriminate.
  - rewrite Hmem, HA, HB, HH, HS. split; [| tauto].
    intros [[? _] | [[? _] | [Hx | [[? _] | [_ ?]]]]];
      try assumption; try discriminate.
    apply HE in Hx as [tag ?]. discriminate.
  - intros tag Hin. apply Hmem in Hin. rewrite HA, HB, HH, HS in Hin.
    destruct Hin as [[? _] | [[? _] | [Hx | [[? _] | [? _]]]]]; try discriminate.
    destruct Hextra as [E | (tag' & E & Hin' & Hc)]; rewrite E in Hx.
    + apply elem_of_nil in Hx. contradiction.
    + apply list_elem_of_singleton in Hx. cbn in Hx. injection Hx as Hx.
      change (tag = tag') in Hx. subst tag'. auto.
  - split.
    + intros [tag Hin]. destruct (existsb _ (tags m)) eqn:Eb; [reflexivity |].
      assert (Ee : extra = []) by (apply Hiff; reflexivity).
      apply Hmem in Hin. rewrite HA, HB, HH, HS, Ee, elem_of_nil in Hin.
      destruct Hin as [[? _] | [[? _] | [[] | [[? _] | [? _]]]]]; discriminate.
    + intros Eb. destruct Hextra as [E | (tag' & E & _)].
      * apply Hiff in E. congruence.
      * exists tag'. apply Hmem. right. right. left. rewrite E. apply list_elem_of_here.
Qed.

Lemma match_reasons_explained_witness :
  String.append "Tag match: " "python"
    ∈ _get_match_reasons Sample.vs_ties Sample.m_python (Sample.ask "PYTHON" 0 5)
  /\ "python" ∈ tags Sample.m_python
  /\ LexicalSpec.ci_contains "PYTHON" "python" = true.
Proof.
  assert (H : String.append "Tag match: " "python"
                ∈ _get_match_reasons Sample.vs_ties Sample.m_python
                    (Sample.ask "PYTHON" 0 5)).
  { vm_compute. apply list_elem_of_further, list_elem_of_further, list_elem_of_here. }
  split; [exact H |].
  destruct (match_reasons_explained Sample.vs_ties Sample.m_python (Sample.ask "PYTHON" 0 5))
    as (_ & _ & _ & _ & Htag & _).
  exact (Htag "python" H).
Defined.

(** ** What the clean-up removes *)

Lemma without_cons (B : list FilePath) (e : FilePath * FileContent)
    (l : list (FilePath * FileContent)) :
  without B (e :: l) = if decide (e.1 ∈ B) then without B l else e :: without B l.
Proof.
  unfold without. rewrite filter_cons.
  destruct (decide (e.1 ∉ B)) as [H | H]; destruct (decide (e.1 ∈ B)) as [H' | H'];
    try reflexivity; contradiction.
Qed.

Lemma elem_of_without (B : list FilePath) (e : FilePath * FileContent)
    (l : list (FilePath * FileContent)) :
  e ∈ without B l <-> (e.1 ∉ B) /\ (e ∈ l).
Proof. unfold without. rewrite list_elem_of_filter. reflexivity. Qed.

Lemma without_paths (B : list FilePath) (l : list (FilePath * FileContent)) :
  NoDup (map fst l) -> NoDup (map fst (without B l)).
Proof.
  induction l as [| e r IH]; [intros _; constructor |].
  simpl. intros H. apply NoDup_cons in H as [He Hr]. rewrite without_cons.
  destruct (decide (e.1 ∈ B)); [apply IH, Hr |].
  simpl. apply NoDup_cons. split; [| apply IH, Hr].
  intros Hin. apply He. apply list_elem_of_fmap in Hin as (e1 & E & Hin).
  apply elem_of_without in Hin as [_ Hin]. apply list_elem_of_fmap. eauto.
Qed.

Lemma file_get_without (B : list FilePath) (p : FilePath)
    (l : list (FilePath * FileContent)) :
  file_get p (without B l) = if decide (p ∈ B) then None else file_get p l.
Proof.
  induction l as [| [p0 c0] r IH].
  - simpl. destruct (decide (p ∈ B)); reflexivity.
  - rewrite without_cons. simpl. destruct (decide (p0 ∈ B)) as [H0 | H0].
    + rewrite IH. destruct (decide (p ∈ B)) as [H | H]; [reflexivity |].
      case_bool_decide as E; [subst; contradiction | reflexivity].
    + simpl. rewrite IH. case_bool_decide as E; [| reflexivity].
      subst. destruct (decide (p0 ∈ B)); [contradiction | reflexivity].
Qed.

Lemma without_without (B1 B2 : list FilePath) (l : list (FilePath * FileContent)) :
  without B2 (without B1 l) = without (B1 ++ B2) l.
Proof.
  induction l as [| e r IH]; [reflexivity |].
  rewrite (without_cons B1), (without_cons (B1 ++ B2)).
  destruct (decide (e.1 ∈ B1)) as [H1 | H1].
  - rewrite IH. destruct (decide (e.1 ∈ B1 ++ B2)) as [H | H]; [reflexivity |].
    exfalso. apply H, elem_of_app. auto.
  - rewrite without_cons, IH. destruct (decide (e.1 ∈ B2)) as [H2 | H2].
    + destruct (decide (e.1 ∈ B1 ++ B2)) as [H | H]; [reflexivity |].
      exfalso. apply H, elem_of_app. auto.
    + destruct (decide (e.1 ∈ B1 ++ B2)) as [H | H]; [| reflexivity].
      apply elem_of_app in H as [H | H]; contradiction.
Qed.

Lemma without_nil (l : list (FilePath * FileContent)) : without [] l = l.
Proof.
  induction l as [| e r IH]; [reflexivity |].
  rewrite without_cons, IH. destruct (decide (e.1 ∈ [])) as [H | H]; [| reflexivity].
  apply elem_of_nil in H. contradiction.
Qed.

Lemma without_none (B : list FilePath) (l : list (FilePath * FileContent)) :
  (forall e, e ∈ l -> e.1 ∉ B) -> without B l = l.
Proof.
  induction l as [| e r IH]; [reflexivity |].
  intros H. rewrite without_cons, IH.
  - destruct (decide (e.1 ∈ B)) as [Hin | _]; [| reflexivity].
    exfalso. apply (H e); [apply list_elem_of_here | exact Hin].
  - intros x Hx. apply H, list_elem_of_further, Hx.
Qed.

Lemma file_remove_without (p : FilePath) (l : list (FilePath * FileContent)) :
  file_remove p l = without [p] l.
Proof.
  unfold file_remove. induction l as [| e r IH]; [reflexivity |].
  rewrite without_cons, filter_cons, IH.
  destruct (decide (p ≠ e.1)) as [H | H]; destruct (decide (e.1 ∈ [p])) as [H' | H'];
    try reflexivity.
  - apply list_elem_of_singleton in H'. congruence.
  - exfalso. apply H'. apply list_elem_of_singleton.
    destruct (decide (e.1 = p)) as [E | E]; [exact E | exfalso; apply H; congruence].
Qed.

Lemma In_file_exists (d : Disk) (e : FilePath * FileContent) :
  e ∈ files d -> file_exists d e.1 = true.
Proof.
  unfold file_exists. destruct e as [p c]. simpl.
  induction (files d) as [| [p' c'] r IH]; simpl.
  - intros H. apply elem_of_nil in H. contradiction.
  - intros H. case_bool_decide as Hp; [reflexivity |].
    apply elem_of_cons in H as [[= -> ->] | H]; [contradiction | apply IH, H].
Qed.

Lemma parse_unreadable (d : Disk) (p : FilePath) :
  file_exists d p = true ->
  (exists e, parse d p = Raise e) <-> unreadable d p = true.
Proof.
  unfold file_exists, parse, unreadable.
  destruct (file_get p (files d)) as [[m st | e] |]; intros H; try discriminate.
  - split; [intros [e ?]; discriminate | discriminate].
  - split; eauto.
Qed.

Lemma bad_cons (d : Disk) (e : FilePath * FileContent) (es : list (FilePath * FileContent)) :
  bad d (e :: es) = if unreadable d e.1 then e.1 :: bad d es else bad d es.
Proof.
  unfold bad. rewrite filter_cons.
  destruct (unreadable d e.1); destruct (decide _) as [H | H];
    try reflexivity; try discriminate; exfalso; apply H; reflexivity.
Qed.

Lemma bad_app (d : Disk) (es1 es2 : list (FilePath * FileContent)) :
  bad d (es1 ++ es2) = bad d es1 ++ bad d es2.
Proof.
  induction es1 as [| e r IH]; [reflexivity |].
  simpl. rewrite !bad_cons, IH. destruct (unreadable d e.1); reflexivity.
Qed.

Lemma elem_of_bad (d : Disk) (es : list (FilePath * FileContent)) (p : FilePath) :
  p ∈ bad d es <-> unreadable d p = true /\ exists c, (p, c) ∈ es.
Proof.
  induction es as [| [p0 c0] r IH].
  - split; [intros H; apply elem_of_nil in H; contradiction |].
    intros (_ & c & H). apply elem_of_nil in H. contradiction.
  - rewrite bad_cons. simpl. destruct (unreadable d p0) eqn:E.
    + rewrite elem_of_cons, IH. split.
      * intros [-> | (Hu & c & Hc)].
        -- split; [exact E | exists c0; apply list_elem_of_here].
        -- split; [exact Hu | exists c; apply list_elem_of_further, Hc].
      * intros (Hu & c & Hc). apply elem_of_cons in Hc as [[= -> ->] | Hc]; eauto.
    + rewrite IH. split.
      * intros (Hu & c & Hc). split; [exact Hu | exists c; apply list_elem_of_further, Hc].
      * intros (Hu & c & Hc). apply elem_of_cons in Hc as [[= -> ->] | Hc]; [congruence |].
        eauto.
Qed.

Lemma unreadable_without (B : list FilePath) (d d1 : Disk) (p : FilePath) :
  files d1 = without B (files d) -> p ∉ B -> unreadable d1 p = unreadable d p.
Proof.
  intros H Hp. unfold unreadable. rewrite H, file_get_without.
  destruct (decide (p ∈ B)); [contradiction | reflexivity].
Qed.

Lemma bad_unchanged (B : list FilePath) (d d1 : Disk) (es : list (FilePath * FileContent)) :
  files d1 = without B (files d) -> (forall e, e ∈ es -> e.1 ∉ B) ->
  bad d1 es = bad d es.
Proof.
  intros H. induction es as [| e r IH]; [reflexivity |].
  intros Hes. rewrite !bad_cons, IH.
  - rewrite (unreadable_without B d d1 e.1 H); [reflexivity |].
    apply Hes, list_elem_of_here.
  - intros x Hx. apply Hes, list_elem_of_further, Hx.
Qed.

(** The innermost loop removes exactly the unreadable files it is given
    and counts them. *)
Lemma cleanup_files_spec (es : list (FilePath * FileContent)) (n : Z) (d : Disk) :
  no_unlink_fault d -> NoDup (map fst es) ->
  (forall e, e ∈ es -> file_exists d e.1 = true) ->
  exists d' log,
    FileStoreAdmin.cleanup_files es n d
    = (Ok (n + Z.of_nat (length (bad d es)))%Z, d', log)
    /\ dirs d' = dirs d /\ io_fault d' = io_fault d
    /\ files d' = without (bad d es) (files d).
Proof.
  revert n d. induction es as [| [p0 c0] rest IH]; intros n d Hfault Hnd Hex.
  - simpl. exists d, []. rewrite Z.add_0_r, without_nil. auto.
  - simpl in Hnd. apply NoDup_cons in Hnd as [Hp0 Hrest].
    assert (Hex0 : file_exists d p0 = true) by (apply (Hex (p0, c0)), list_elem_of_here).
    rewrite bad_cons. cbn [fst].
    cbn [FileStoreAdmin.cleanup_files]. unfold bind at 1, try_except, read_memory.
    unfold bind at 1. unfold ret at 1.
    destruct (parse d p0) as [m | e] eqn:Hparse.
    + assert (Hun : unreadable d p0 = false).
      { destruct (unreadable d p0) eqn:E; [| reflexivity].
        apply parse_unreadable in E as [e He]; [congruence | exact Hex0]. }
      rewrite Hun.
      destruct (IH n d Hfault Hrest) as (d' & log & Hrun & Hd & Hio & Hfiles).
      { intros x Hx. apply Hex, list_elem_of_further, Hx. }
      rewrite Hrun. eexists _, _. split; [reflexivity |]. auto.
    + assert (Hun : unreadable d p0 = true) by (apply parse_unreadable; eauto).
      rewrite Hun.
      unfold bind, logger, unlink, ret. rewrite Hfault, Hex0. cbn beta iota zeta.
      set (d1 := mkDisk (dirs d) (file_remove p0 (files d)) (index_files d) (io_fault d)).
      assert (H1 : files d1 = without [p0] (files d)) by apply file_remove_without.
      assert (Hrest1 : forall x, x ∈ rest -> x.1 ∉ [p0]).
      { intros x Hx Hin. apply list_elem_of_singleton in Hin. apply Hp0.
        rewrite <- Hin. apply list_elem_of_fmap. eauto. }
      destruct (IH (n + 1)%Z d1) as (d' & log & Hrun & Hd & Hio & Hfiles).
      { exact Hfault. }
      { exact Hrest. }
      { intros x Hx. unfold file_exists. rewrite H1, file_get_without.
        destruct (decide (x.1 ∈ [p0])) as [E | _]; [destruct (Hrest1 x Hx E) |].
        apply Hex, list_elem_of_further, Hx. }
      fold (bind (A := Z) (B := Z)). rewrite Hrun.
      rewrite (bad_unchanged [p0] d d1 rest H1 Hrest1) in *.
      eexists _, _. split; [f_equal; f_equal; f_equal; simpl length; lia |].
      split; [exact Hd |]. split; [exact Hio |].
      rewrite Hfiles, H1, without_without. reflexivity.
Qed.

Lemma elem_of_glob (d : Disk) (base : string) (s : MemoryScope) (t : MemoryType)
    (e : FilePath * FileContent) :
  e ∈ glob d base s t
  <-> (path_base e.1 = base /\ path_scope e.1 = s /\ path_type e.1 = t) /\ (e ∈ files d).
Proof. unfold glob. rewrite list_elem_of_filter. reflexivity. Qed.

Lemma glob_paths (d : Disk) (base : string) (s : MemoryScope) (t : MemoryType) :
  unique_paths d -> NoDup (map fst (glob d base s t)).
Proof.
  unfold unique_paths, glob. induction (files d) as [| e r IH]; [intros _; constructor |].
  simpl. intros H. apply NoDup_cons in H as [He Hr]. rewrite filter_cons.
  destruct (decide _); [| apply IH, Hr].
  simpl. apply NoDup_cons. split; [| apply IH, Hr].
  intros Hin. apply He. apply list_elem_of_fmap in Hin as (e1 & E & Hin).
  apply list_elem_of_filter in Hin as [_ Hin]. apply list_elem_of_fmap. eauto.
Qed.

Lemma glob_without (B : list FilePath) (d d1 : Disk) (base : string) (s : MemoryScope)
    (t : MemoryType) :
  files d1 = without B (files d) -> glob d1 base s t = without B (glob d base s t).
Proof.
  unfold glob. intros ->. induction (files d) as [| e r IH]; [reflexivity |].
  rewrite without_cons, (filter_cons _ e r).
  destruct (decide (e.1 ∈ B)) as [HB | HB];
    destruct (decide (path_base e.1 = base /\ path_scope e.1 = s /\ path_type e.1 = t))
      as [HP | HP].
  - rewrite without_cons. destruct (decide (e.1 ∈ B)); [exact IH | contradiction].
  - exact IH.
  - rewrite filter_cons, without_cons.
    destruct (decide (e.1 ∈ B)); [contradiction |].
    destruct (decide _); [| contradiction]. rewrite IH. reflexivity.
  - rewrite filter_cons. destruct (decide _); [contradiction | exact IH].
Qed.

Lemma elem_of_visit_type (config : MemoryConfig) (d : Disk) (s : MemoryScope)
    (t : MemoryType) (e : FilePath * FileContent) :
  e ∈ visit_type config d s t ->
  path_scope e.1 = s /\ path_type e.1 = t /\ e ∈ files d.
Proof.
  unfold visit_type. destruct (dir_exists d _).
  - intros H. apply elem_of_glob in H as [(_ & Hs & Ht) Hin]. auto.
  - intros H. apply elem_of_nil in H. contradiction.
Qed.

Lemma elem_of_visit_types (config : MemoryConfig) (d : Disk) (s : MemoryScope)
    (ts : list MemoryType) (e : FilePath * FileContent) :
  e ∈ flat_map (visit_type config d s) ts ->
  path_scope e.1 = s /\ path_type e.1 ∈ ts /\ e ∈ files d.
Proof.
  rewrite list_elem_of_In, in_flat_map. intros (t & Ht & He).
  apply list_elem_of_In in Ht, He. apply elem_of_visit_type in He as (Hs & Ht' & Hin).
  rewrite Ht'. auto.
Qed.

Lemma elem_of_visit_scope (config : MemoryConfig) (d : Disk) (s : MemoryScope)
    (e : FilePath * FileContent) :
  e ∈ visit_scope config d s -> path_scope e.1 = s /\ e ∈ files d.
Proof.
  unfold visit_scope. destruct (_ && _)%bool.
  - intros H. apply elem_of_visit_types in H as (Hs & _ & Hin). auto.
  - intros H. apply elem_of_nil in H. contradiction.
Qed.

(** Removing files of other directories does not change what a later
    directory visit sees. *)
Lemma later_types_unchanged (config : MemoryConfig) (B : list FilePath) (d d1 : Disk)
    (s : MemoryScope) (ts : list MemoryType) :
  files d1 = without B (files d) -> dirs d1 = dirs d ->
  (forall p, p ∈ B -> ~ (path_scope p = s /\ path_type p ∈ ts)) ->
  flat_map (visit_type config d1 s) ts = flat_map (visit_type config d s) ts
  /\ bad d1 (flat_map (visit_type config d s) ts)
     = bad d (flat_map (visit_type config d s) ts).
Proof.
  intros Hf Hd HB. split.
  - induction ts as [| t rest IH]; [reflexivity |].
    cbn [flat_map]. rewrite IH.
    + f_equal. unfold visit_type, dir_exists. rewrite Hd.
      destruct (bool_decide _); [| reflexivity].
      rewrite (glob_without B d d1 _ s t Hf). apply without_none.
      intros e He Hin. apply elem_of_glob in He as [(_ & Hs & Ht) _].
      apply (HB e.1 Hin). split; [exact Hs |]. rewrite Ht. apply list_elem_of_here.
    + intros p Hp [Hs Ht]. apply (HB p Hp). split; [exact Hs |].
      apply list_elem_of_further, Ht.
  - apply (bad_unchanged B d d1 _ Hf).
    intros e He Hin. apply elem_of_visit_types in He as (Hs & Ht & _).
    apply (HB e.1 Hin). auto.
Qed.

Lemma later_scopes_unchanged (config : MemoryConfig) (B : list FilePath) (d d1 : Disk)
    (ss : list MemoryScope) :
  files d1 = without B (files d) -> dirs d1 = dirs d ->
  (forall p, p ∈ B -> path_scope p ∉ ss) ->
  flat_map (visit_scope config d1) ss = flat_map (visit_scope config d) ss
  /\ bad d1 (flat_map (visit_scope config d) ss)
     = bad d (flat_map (visit_scope config d) ss).
Proof.
  intros Hf Hd HB. split.
  - induction ss as [| s rest IH]; [reflexivity |].
    cbn [flat_map]. rewrite IH.
    + f_equal. unfold visit_scope, dir_exists. rewrite Hd.
      destruct (_ && _)%bool; [| reflexivity].
      apply (later_types_unchanged config B d d1 s all_memory_types Hf Hd).
      intros p Hp [Hs _]. apply (HB p Hp). rewrite Hs. apply list_elem_of_here.
    + intros p Hp Hin. apply (HB p Hp). apply list_elem_of_further, Hin.
  - apply (bad_unchanged B d d1 _ Hf).
    intros e He Hin. apply list_elem_of_In, in_flat_map in He as (s & Hs & He).
    apply list_elem_of_In in Hs, He. apply elem_of_visit_scope in He as [Hsc _].
    apply (HB e.1 Hin). rewrite Hsc. exact Hs.
Qed.

Lemma cleanup_types_spec (config : MemoryConfig) (s : MemoryScope) (ts : list MemoryType)
    (n : Z) (d : Disk) :
  no_unlink_fault d -> unique_paths d -> NoDup ts ->
  exists d' log,
    FileStoreAdmin.cleanup_types config s ts n d
    = (Ok (n + Z.of_nat (length (bad d (flat_map (visit_type config d s) ts))))%Z, d', log)
    /\ dirs d' = dirs d /\ io_fault d' = io_fault d
    /\ files d' = without (bad d (flat_map (visit_type config d s) ts)) (files d).
Proof.
  revert n d. induction ts as [| t rest IH]; intros n d Hfault Hu Hnd.
  - simpl. exists d, []. rewrite Z.add_0_r, without_nil. auto.
  - apply NoDup_cons in Hnd as [Ht Hrest].
    cbn [FileStoreAdmin.cleanup_types flat_map]. rewrite bad_app.
    unfold visit_type at 1 3. unfold bind at 1, get_disk at 1. cbn beta iota zeta.
    destruct (dir_exists d (TypeDir _ s t)) eqn:Hdir; cbn [negb].
    + destruct (cleanup_files_spec (glob d (get_storage_path config (scope_value s)) s t)
                  n d Hfault) as (d1 & log1 & Hrun1 & Hd1 & Hio1 & Hf1).
      { apply glob_paths, Hu. }
      { intros e He. apply elem_of_glob in He as [_ He]. apply In_file_exists, He. }
      set (B := bad d (glob d (get_storage_path config (scope_value s)) s t)) in *.
      destruct (later_types_unchanged config B d d1 s rest Hf1 Hd1) as [Hv Hb].
      { intros p Hp [_ Hin]. apply elem_of_bad in Hp as (_ & c & Hc).
        apply elem_of_glob in Hc as [(_ & _ & Hty) _]. simpl in Hty. congruence. }
      destruct (IH (n + Z.of_nat (length B))%Z d1) as (d' & log & Hrun & Hd & Hio & Hf).
      { intros p. rewrite Hio1. apply Hfault. }
      { unfold unique_paths. rewrite Hf1. apply without_paths, Hu. }
      { exact Hrest. }
      rewrite Hv, Hb in Hrun, Hf.
      unfold bind. rewrite Hrun1, Hrun. eexists _, _.
      split; [f_equal; f_equal; f_equal; rewrite length_app; lia |].
      split; [congruence |]. split; [congruence |].
      rewrite Hf, Hf1, without_without. reflexivity.
    + destruct (IH n d Hfault Hu Hrest) as (d' & log & Hrun & Hd & Hio & Hf).
      rewrite Hrun. eexists _, _. split; [reflexivity |]. auto.
Qed.

Lemma cleanup_scopes_spec (config : MemoryConfig) (ss : list MemoryScope) (n : Z) (d : Disk) :
  no_unlink_fault d -> unique_paths d -> NoDup ss ->
  exists d' log,
    FileStoreAdmin.cleanup_scopes config ss n d
    = (Ok (n + Z.of_nat (length (bad d (flat_map (visit_scope config d) ss))))%Z, d', log)
    /\ dirs d' = dirs d /\ io_fault d' = io_fault d
    /\ files d' = without (bad d (flat_map (visit_scope config d) ss)) (files d).
Proof.
  revert n d. induction ss as [| s rest IH]; intros n d Hfault Hu Hnd.
  - simpl. exists d, []. rewrite Z.add_0_r, without_nil. auto.
  - apply NoDup_cons in Hnd as [Hs Hrest].
    cbn [FileStoreAdmin.cleanup_scopes flat_map]. rewrite bad_app.
    unfold visit_scope at 1 3. unfold bind at 1, get_disk at 1. cbn beta iota zeta.
    destruct (dir_exists d (BaseDir _)) eqn:Hbase; cbn [negb andb].
    2: { destruct (IH n d Hfault Hu Hrest) as (d' & log & Hrun & Hd & Hio & Hf).
         rewrite Hrun. eexists _, _. split; [reflexivity |]. auto. }
    destruct (dir_exists d (ScopeDir _ s)) eqn:Hscope; cbn [negb].
    2: { destruct (IH n d Hfault Hu Hrest) as (d' & log & Hrun & Hd & Hio & Hf).
         rewrite Hrun. eexists _, _. split; [reflexivity |]. auto. }
    destruct (cleanup_types_spec config s all_memory_types n d Hfault Hu)
      as (d1 & log1 & Hrun1 & Hd1 & Hio1 & Hf1).
    { unfold all_memory_types. repeat (apply NoDup_cons; split; [set_solver |]).
      apply NoDup_nil_2. }
    set (B := bad d (flat_map (visit_type config d s) all_memory_types)) in *.
    destruct (later_scopes_unchanged config B d d1 rest Hf1 Hd1) as [Hv Hb].
    { intros p Hp Hin. apply elem_of_bad in Hp as (_ & c & Hc).
      apply elem_of_visit_types in Hc as (Hsc & _ & _). simpl in Hsc. congruence. }
    destruct (IH (n + Z.of_nat (length B))%Z d1) as (d' & log & Hrun & Hd & Hio & Hf).
    { intros p. rewrite Hio1. apply Hfault. }
    { unfold unique_paths. rewrite Hf1. apply without_paths, Hu. }
    { exact Hrest. }
    rewrite Hv, Hb in Hrun, Hf.
    unfold bind. rewrite Hrun1, Hrun. eexists _, _.
    split; [f_equal; f_equal; f_equal; rewrite length_app; lia |].
    split; [congruence |]. split; [congruence |].
    rewrite Hf, Hf1, without_without. reflexivity.
Qed.

Lemma without_app (B : list FilePath) (l1 l2 : list (FilePath * FileContent)) :
  without B (l1 ++ l2) = without B l1 ++ without B l2.
Proof. unfold without. apply filter_app. Qed.

Lemma visit_type_without (config : MemoryConfig) (B : list FilePath) (d d1 : Disk)
    (s : MemoryScope) (t : MemoryType) :
  files d1 = without B (files d) -> dirs d1 = dirs d ->
  visit_type config d1 s t = without B (visit_type config d s t).
Proof.
  intros Hf Hd. unfold visit_type, dir_exists. rewrite Hd.
  destruct (bool_decide _); [apply glob_without, Hf | reflexivity].
Qed.

Lemma visit_scope_without (config : MemoryConfig) (B : list FilePath) (d d1 : Disk)
    (s : MemoryScope) :
  files d1 = without B (files d) -> dirs d1 = dirs d ->
  visit_scope config d1 s = without B (visit_scope config d s).
Proof.
  intros Hf Hd. unfold visit_scope, dir_exists. rewrite Hd.
  destruct (_ && _)%bool; [| reflexivity].
  induction all_memory_types as [| t rest IH]; [reflexivity |].
  cbn [flat_map]. rewrite without_app, IH, (visit_type_without config B d d1 s t Hf Hd).
  reflexivity.
Qed.

Lemma enumerated_without (config : MemoryConfig) (B : list FilePath) (d d1 : Disk) :
  files d1 = without B (files d) -> dirs d1 = dirs d ->
  enumerated config d1 = without B (enumerated config d).
Proof.
  intros Hf Hd. unfold enumerated. cbn [flat_map].
  rewrite !without_app, !(visit_scope_without config B d d1 _ Hf Hd). reflexivity.
Qed.

Lemma parse_without (B : list FilePath) (d d1 : Disk) (p : FilePath) :
  files d1 = without B (files d) -> p ∉ B -> parse d1 p = parse d p.
Proof.
  intros Hf Hp. unfold parse. rewrite Hf, file_get_without.
  destruct (decide (p ∈ B)); [contradiction | reflexivity].
Qed.

(** Each unreadable entry is one warning of the enumeration. *)
Lemma bad_warnings (d : Disk) (es : list (FilePath * FileContent)) :
  (forall e, e ∈ es -> file_exists d e.1 = true) ->
  length (bad d es) = length (omap (warning_of d) es).
Proof.
  induction es as [| e r IH]; [reflexivity |].
  intros Hex. rewrite bad_cons. cbn [omap list_omap]. unfold warning_of at 1.
  assert (He : file_exists d e.1 = true) by apply Hex, list_elem_of_here.
  assert (Hr : forall x, x ∈ r -> file_exists d x.1 = true).
  { intros x Hx. apply Hex, list_elem_of_further, Hx. }
  destruct (parse d e.1) as [m | ex] eqn:Hp.
  - destruct (unreadable d e.1) eqn:Hun; [| apply IH, Hr].
    apply parse_unreadable in Hun as [ex Hex']; [congruence | exact He].
  - assert (Hun : unreadable d e.1 = true) by (apply parse_unreadable; eauto).
    rewrite Hun. simpl. rewrite IH; [reflexivity | exact Hr].
Qed.

Lemma enumerated_exists (config : MemoryConfig) (d : Disk) (e : FilePath * FileContent) :
  e ∈ enumerated config d -> file_exists d e.1 = true.
Proof. intros H. apply enumerated_visible in H as [H _]. apply In_file_exists, H. Qed.

(** Once the unreadable entries are gone, the remaining ones give the same
    records and no warning. *)
Lemma without_bad_records (d d1 : Disk) (B : list FilePath)
    (es : list (FilePath * FileContent)) :
  files d1 = without B (files d) ->
  (forall e, e ∈ es -> file_exists d e.1 = true) ->
  (forall e, e ∈ es -> unreadable d e.1 = true <-> e.1 ∈ B) ->
  omap (record_of d1) (without B es) = omap (record_of d) es
  /\ omap (warning_of d1) (without B es) = [].
Proof.
  intros Hf. induction es as [| e r IH]; [intros _ _; split; reflexivity |].
  intros Hex HB.
  destruct IH as [IHr IHw].
  { intros x Hx. apply Hex, list_elem_of_further, Hx. }
  { intros x Hx. apply HB, list_elem_of_further, Hx. }
  assert (He : file_exists d e.1 = true) by apply Hex, list_elem_of_here.
  specialize (HB e (list_elem_of_here _ _)).
  rewrite without_cons. cbn [omap list_omap]. destruct (decide (e.1 ∈ B)) as [Hin | Hout].
  - split; [| exact IHw]. rewrite IHr.
    apply HB, parse_unreadable in Hin as [ex Hp]; [| exact He].
    assert (E : record_of d e = None) by (unfold record_of; rewrite Hp; reflexivity).
    rewrite E. reflexivity.
  - cbn [omap list_omap].
    assert (E1 : record_of d1 e = record_of d e).
    { unfold record_of. rewrite (parse_without B d d1 e.1 Hf Hout). reflexivity. }
    assert (E2 : warning_of d1 e = None).
    { unfold warning_of. rewrite (parse_without B d d1 e.1 Hf Hout).
      destruct (parse d e.1) as [m | ex] eqn:Hp; [reflexivity |].
      exfalso. apply Hout, HB, parse_unreadable; eauto. }
    rewrite E1, E2, IHr, IHw. auto.
Qed.

(** X23. With well-formed directory listings and no failing unlink,
    [cleanup_orphaned_files] removes exactly the files whose loading
    [load_all_memories] warns about and returns their number; directories
    and all other files are untouched, so that afterwards the enumeration
    gives the same records with no warning, and a second clean-up finds
    nothing to remove. *)
Theorem cleanup_orphaned_files_effective (config : MemoryConfig) (d : Disk) :
  no_unlink_fault d -> unique_paths d ->
  exists d' log,
    FileStoreAdmin.cleanup_orphaned_files config d
    = (Ok (Z.of_nat (length (skipped_warnings config d))), d', log)
    /\ dirs d' = dirs d
    /\ files d' = without (orphans config d) (files d)
    /\ well_formed_records config d' = well_formed_records config d
    /\ skipped_warnings config d' = []
    /\ FileStoreAdmin.cleanup_orphaned_files config d'
       = (Ok 0%Z, d', [mkLog INFO "cleanup_orphaned_files" None]).
Proof.
  intros Hfault Hu.
  destruct (cleanup_scopes_spec config [GLOBAL; PROJECT] 0%Z d Hfault Hu)
    as (d' & log & Hrun & Hd & Hio & Hf).
  { repeat (apply NoDup_cons; split; [set_solver |]). apply NoDup_nil_2. }
  fold (enumerated config d) in Hrun, Hf. fold (orphans config d) in Hrun, Hf.
  assert (Hrec : omap (record_of d') (without (orphans config d) (enumerated config d))
                 = omap (record_of d) (enumerated config d)
                 /\ omap (warning_of d') (without (orphans config d) (enumerated config d))
                    = []).
  { apply (without_bad_records d d' _ _ Hf).
    - apply enumerated_exists.
    - intros e He. unfold orphans. rewrite elem_of_bad. split.
      + intros Hun. split; [exact Hun |]. exists e.2. destruct e; exact He.
      + intros [Hun _]. exact Hun. }
  destruct Hrec as [Hrecords Hwarn].
  assert (Hclean : skipped_warnings config d' = []).
  { unfold skipped_warnings. rewrite (enumerated_without config _ d d' Hf Hd). exact Hwarn. }
  exists d', (log ++ [mkLog INFO "cleanup_orphaned_files" None]).
  split; [| split; [exact Hd | split; [exact Hf | split; [| split; [exact Hclean |]]]]].
  - unfold FileStoreAdmin.cleanup_orphaned_files, try_except, bind. rewrite Hrun.
    unfold logger, ret. cbn beta iota zeta.
    unfold skipped_warnings.
    rewrite <- (bad_warnings d (enumerated config d) (enumerated_exists config d)).
    fold (orphans config d). rewrite app_nil_r. reflexivity.
  - unfold well_formed_records. rewrite (enumerated_without config _ d d' Hf Hd).
    exact Hrecords.
  - unfold FileStoreAdmin.cleanup_orphaned_files, try_except, bind.
    rewrite (cleanup_scopes_clean config [GLOBAL; PROJECT] 0%Z d' Hclean). reflexivity.
Qed.

Lemma cleanup_orphaned_files_effective_witness :
  exists d' log,
    FileStoreAdmin.cleanup_orphaned_files Sample.config Sample.disk
    = (Ok (Z.of_nat (length (skipped_warnings Sample.config Sample.disk))), d', log)
    /\ dirs d' = dirs Sample.disk
    /\ files d' = without (orphans Sample.config Sample.disk) (files Sample.disk)
    /\ well_formed_records Sample.config d' = well_formed_records Sample.config Sample.disk
    /\ skipped_warnings Sample.config d' = []
    /\ FileStoreAdmin.cleanup_orphaned_files Sample.config d'
       = (Ok 0%Z, d', [mkLog INFO "cleanup_orphaned_files" None]).
Proof.
  apply (cleanup_orphaned_files_effective Sample.config Sample.disk).
  - intros p. reflexivity.
  - apply (bool_decide_unpack _). vm_compute. exact I.
Defined.

Example cleanup_counts_broken :
  (FileStoreAdmin.cleanup_orphaned_files Sample.config Sample.disk).1.1 = Ok 1%Z
  /\ orphans Sample.config Sample.disk = [Sample.p_broken].
Proof. vm_compute. split; reflexivity. Qed.

(** ** Removal from the lookup index *)

Lemma remove_loop_listed (config : MemoryConfig) (memory_id : string) (s : MemoryScope)
    (rest : list MemoryScope) (d : Disk) (ix : gmap string IndexEntry) (e : IndexEntry) :
  let base := get_storage_path config (scope_value s) in
  index_get base s (index_files d) = Some (IndexJson ix) ->
  ix !! memory_id = Some e ->
  dir_exists d (MetaDir base s) = true ->
  io_fault d (WriteIndex base s) = None ->
  FileStore.remove_from_index_loop config memory_id (s :: rest) d
  = (Ok tt,
     mkDisk (dirs d) (files d)
       (index_set base s (IndexJson (delete memory_id ix)) (index_files d)) (io_fault d),
     []).
Proof.
  cbv zeta. intros Hix Hid Hmeta Hfault.
  cbn [FileStore.remove_from_index_loop]. unfold bind at 1, get_disk at 1.
  cbn beta iota zeta. rewrite Hix. unfold bind, read_index. rewrite Hix, Hid.
  unfold write_index. rewrite Hfault, Hmeta. reflexivity.
Qed.

Lemma remove_loop_unlisted (config : MemoryConfig) (memory_id : string) (s : MemoryScope)
    (rest : list MemoryScope) (d : Disk) (ix : gmap string IndexEntry) :
  index_entries d (get_storage_path config (scope_value s)) s = Some ix ->
  ix !! memory_id = None ->
  FileStore.remove_from_index_loop config memory_id (s :: rest) d
  = FileStore.remove_from_index_loop config memory_id rest d.
Proof.
  unfold index_entries. intros Hix Hid.
  cbn [FileStore.remove_from_index_loop]. unfold bind at 1, get_disk at 1.
  cbn beta iota zeta.
  destruct (index_get _ s (index_files d)) as [[ix0 | ex] |] eqn:E; try discriminate.
  - injection Hix as ->. unfold bind, read_index. rewrite E, Hid.
    destruct (FileStore.remove_from_index_loop config memory_id rest d) as [[r d1] l1].
    reflexivity.
  - destruct (FileStore.remove_from_index_loop config memory_id rest d) as [[r d1] l1].
    reflexivity.
Qed.

(** X24. [_remove_from_index] never raises and touches no memory file or
    directory. It clears one entry at most, in the first index that lists
    the identifier: the global index when it lists it, whatever the project
    index holds; the project index when the global index is missing or does
    not list it. A global index that does not load stops it: the project
    index then keeps its entry. *)
Theorem remove_from_index_first_listing (config : MemoryConfig) (memory_id : string)
    (d : Disk) :
  let bg := get_storage_path config (scope_value GLOBAL) in
  let bp := get_storage_path config (scope_value PROJECT) in
  let out := FileStore._remove_from_index config memory_id d in
  out.1.1 = Ok tt
  /\ files out.1.2 = files d /\ dirs out.1.2 = dirs d
  /\ (forall gix e,
        index_get bg GLOBAL (index_files d) = Some (IndexJson gix) ->
        gix !! memory_id = Some e ->
        dir_exists d (MetaDir bg GLOBAL) = true ->
        io_fault d (WriteIndex bg GLOBAL) = None ->
        index_files out.1.2
        = index_set bg GLOBAL (IndexJson (delete memory_id gix)) (index_files d))
  /\ (forall gix pix e,
        index_entries d bg GLOBAL = Some gix ->
        gix !! memory_id = None ->
        index_get bp PROJECT (index_files d) = Some (IndexJson pix) ->
        pix !! memory_id = Some e ->
        dir_exists d (MetaDir bp PROJECT) = true ->
        io_fault d (WriteIndex bp PROJECT) = None ->
        index_files out.1.2
        = index_set bp PROJECT (IndexJson (delete memory_id pix)) (index_files d))
  /\ (forall ex,
        index_get bg GLOBAL (index_files d) = Some (IndexUnreadable ex) ->
        index_files out.1.2 = index_files d).
Proof.
  cbv zeta. destruct (remove_from_index_total config memory_id) as [Hnever Hkeeps].
  split; [| split; [| split; [| split; [| split]]]].
  - destruct (Hnever d) as [[] H]. exact H.
  - apply (Hkeeps d).
  - apply (Hkeeps d).
  - intros gix e Hix Hid Hmeta Hfault. unfold FileStore._remove_from_index, try_except.
    rewrite (remove_loop_listed config memory_id GLOBAL [PROJECT] d gix e Hix Hid Hmeta Hfault).
    reflexivity.
  - intros gix pix e Hg Hgid Hp Hpid Hmeta Hfault.
    unfold FileStore._remove_from_index, try_except.
    rewrite (remove_loop_unlisted config memory_id GLOBAL [PROJECT] d gix Hg Hgid).
    rewrite (remove_loop_listed config memory_id PROJECT [] d pix e Hp Hpid Hmeta Hfault).
    reflexivity.
  - intros ex Hix. unfold FileStore._remove_from_index, try_except.
    cbn [FileStore.remove_from_index_loop]. unfold bind at 1, get_disk at 1.
    cbn beta iota zeta. rewrite Hix. unfold bind, read_index. rewrite Hix.
    reflexivity.
Qed.

Lemma remove_from_index_first_listing_witness :
  index_files (FileStore._remove_from_index Sample.config "dup" IndexSample.disk).1.2
  = index_set Sample.base_g GLOBAL (IndexJson (delete "dup" IndexSample.global_index))
      (index_files IndexSample.disk).
Proof.
  destruct (remove_from_index_first_listing Sample.config "dup" IndexSample.disk)
    as (_ & _ & _ & Hglobal & _).
  apply (Hglobal IndexSample.global_index (entry_of Sample.m_dup_global)).
  - reflexivity.
  - vm_compute. reflexivity.
  - vm_compute. reflexivity.
  - reflexivity.
Defined.

Example project_entry_survives :
  index_entries (FileStore._remove_from_index Sample.config "dup" IndexSample.disk).1.2
    Sample.base_p PROJECT = Some IndexSample.project_index.
Proof. vm_compute. reflexivity. Qed.
